(** * Move generation of the multi-variant Stockfish (src/movegen.cpp)

    A shallow embedding of [movegen.cpp]: the promotion expander, the pawn,
    piece, king and drop emitters, [generate_all], and the entry points
    [generate<CAPTURES|QUIETS|NON_EVASIONS>], [generate<QUIET_CHECKS>],
    [generate<EVASIONS>] and [generate<LEGAL>].

    Conventions.
    - Template parameters ([Variant V], [Color Us], [GenType Type],
      [PieceType Pt], [bool Checks], [Direction D]) are ordinary arguments.
    - All variant code guarded by [#ifdef ANTI], [ATOMIC], [CRAZYHOUSE],
      [EXTINCTION], [GIVEAWAY], [GRID], [HORDE], [LOSERS], [PLACEMENT],
      [RACE], [TWOKINGS] is compiled in.
    - A [Bitboard] is a 64-bit unsigned integer, held in [Z]; [&], [|], [^]
      are [Z.land], [Z.lor], [Z.lxor] and [~] is complement within 64 bits.
    - [ExtMove* moveList] is an append-only buffer: every emitter returns
      the list of moves it appended, in the order written.
    - A failing [assert] aborts: emitters that contain one return
      [option (list Move)], with [None] for the abort.
    - [position.h], [bitboard.h] and [types.h] are not part of the sources at
      hand; what the generator uses of them is either a field of the
      [Position] interface record or a definition marked
      "Modelled from the spec". *)

From Stdlib Require Import ZArith List Bool Lia Permutation String Ascii.
Import ListNotations.
Local Open Scope Z_scope.

(** ** Basic types (types.h) *)

(** Modelled from the spec: the data model of section 3 (colours, piece
    types, variants, generation modes, move kinds, squares and
    directions). *)

Inductive Color := WHITE | BLACK.

(** [operator~(Color)] *)
Definition Color_not (c : Color) : Color :=
  match c with WHITE => BLACK | BLACK => WHITE end.

Inductive PieceType :=
  NO_PIECE_TYPE | PAWN | KNIGHT | BISHOP | ROOK | QUEEN | KING | ALL_PIECES.

(** A piece is a colour and a type ([make_piece(c, pt)]). *)
Definition Piece : Type := (Color * PieceType)%type.
Definition make_piece (c : Color) (pt : PieceType) : Piece := (c, pt).

Inductive Variant :=
  CHESS_VARIANT | ANTI_VARIANT | ATOMIC_VARIANT | CRAZYHOUSE_VARIANT
| EXTINCTION_VARIANT | GRID_VARIANT | HORDE_VARIANT | LOSERS_VARIANT
| RACE_VARIANT | TWOKINGS_VARIANT.

Inductive GenType :=
  CAPTURES | QUIETS | QUIET_CHECKS | EVASIONS | NON_EVASIONS | LEGAL.

Inductive MoveType := NORMAL | PROMOTION | ENPASSANT | CASTLING | DROP.

Definition Color_eq_dec (a b : Color) : {a = b} + {a <> b}.
Proof. decide equality. Defined.
Definition PieceType_eq_dec (a b : PieceType) : {a = b} + {a <> b}.
Proof. decide equality. Defined.
Definition Variant_eq_dec (a b : Variant) : {a = b} + {a <> b}.
Proof. decide equality. Defined.
Definition GenType_eq_dec (a b : GenType) : {a = b} + {a <> b}.
Proof. decide equality. Defined.
Definition MoveType_eq_dec (a b : MoveType) : {a = b} + {a <> b}.
Proof. decide equality. Defined.

Definition Color_eqb (a b : Color) : bool :=
  if Color_eq_dec a b then true else false.
Definition PieceType_eqb (a b : PieceType) : bool :=
  if PieceType_eq_dec a b then true else false.
Definition Variant_eqb (a b : Variant) : bool :=
  if Variant_eq_dec a b then true else false.
Definition GenType_eqb (a b : GenType) : bool :=
  if GenType_eq_dec a b then true else false.
Definition MoveType_eqb (a b : MoveType) : bool :=
  if MoveType_eq_dec a b then true else false.

(** Squares are [0..63], [sq = file + 8*rank]; [SQ_NONE] is the sentinel. *)
Definition Square : Type := Z.
Definition SQ_NONE : Square := 64.

Definition Direction : Type := Z.
Definition NORTH : Direction := 8.
Definition EAST : Direction := 1.
Definition SOUTH : Direction := -8.
Definition WEST : Direction := -1.
Definition NORTH_EAST : Direction := 9.
Definition SOUTH_EAST : Direction := -7.
Definition SOUTH_WEST : Direction := -9.
Definition NORTH_WEST : Direction := 7.

Definition pawn_push (c : Color) : Direction :=
  match c with WHITE => NORTH | BLACK => SOUTH end.

Definition file_of (s : Square) : Z := Z.land s 7.
Definition rank_of (s : Square) : Z := Z.shiftr s 3.
Definition make_square (f r : Z) : Square := Z.shiftl r 3 + f.

Definition RANK_6 : Z := 5.

(** [relative_rank(c, r) = r ^ (c * 7)] *)
Definition relative_rank (c : Color) (r : Z) : Z :=
  match c with WHITE => r | BLACK => Z.lxor r 7 end.

(** ** Bitboards (bitboard.h) *)

(** Modelled from the spec: "a 64-bit set of squares; all set-algebra
    operations are bitwise", with the rank, file and square bitboards. *)

Definition Bitboard : Type := Z.

Definition AllSquares : Bitboard := Z.ones 64.

Declare Scope bb_scope.
Delimit Scope bb_scope with bb.
Notation "a .& b" := (Z.land a b) (at level 40, left associativity) : bb_scope.
Notation "a .| b" := (Z.lor a b) (at level 50, left associativity) : bb_scope.
Notation "a .^ b" := (Z.lxor a b) (at level 50, left associativity) : bb_scope.
Local Open Scope bb_scope.

(** [~b] on a 64-bit word *)
Definition bb_not (b : Bitboard) : Bitboard := Z.lnot b .& AllSquares.
Notation ".~ b" := (bb_not b) (at level 35, right associativity) : bb_scope.

(** A value is a bitboard when it fits 64 bits. *)
Definition bb_ok (b : Z) : Prop := b .& AllSquares = b.

(** [operator bool] of a bitboard: [if (b)] *)
Definition nonzero (b : Bitboard) : bool := negb (b =? 0).

Definition FileABB : Bitboard := 0x0101010101010101.
Definition FileHBB : Bitboard := Z.shiftl FileABB 7.
Definition Rank1BB : Bitboard := 0xFF.
Definition Rank2BB : Bitboard := Z.shiftl Rank1BB 8.
Definition Rank3BB : Bitboard := Z.shiftl Rank1BB 16.
Definition Rank6BB : Bitboard := Z.shiftl Rank1BB 40.
Definition Rank7BB : Bitboard := Z.shiftl Rank1BB 48.
Definition Rank8BB : Bitboard := Z.shiftl Rank1BB 56.
Definition DarkSquares : Bitboard := 0xAA55AA55AA55AA55.

(** [SquareBB[s]], also what [Bitboard & Square] and [Bitboard ^ Square]
    use for their right operand. *)
Definition square_bb (s : Square) : Bitboard := Z.shiftl 1 s.

Definition file_bb (s : Square) : Bitboard := Z.shiftl FileABB (file_of s).

(** Modelled from the spec: [shift<D>(b)] "translates a bitboard by
    direction D, masking squares that would wrap"; the result is a 64-bit
    word. *)
Definition shift (D : Direction) (b : Bitboard) : Bitboard :=
  (if D =? NORTH then Z.shiftl b 8
   else if D =? SOUTH then Z.shiftr b 8
   else if D =? EAST then Z.shiftl (b .& .~ FileHBB) 1
   else if D =? WEST then Z.shiftr (b .& .~ FileABB) 1
   else if D =? NORTH_EAST then Z.shiftl (b .& .~ FileHBB) 9
   else if D =? NORTH_WEST then Z.shiftl (b .& .~ FileABB) 7
   else if D =? SOUTH_EAST then Z.shiftr (b .& .~ FileHBB) 7
   else if D =? SOUTH_WEST then Z.shiftr (b .& .~ FileABB) 9
   else 0) .& AllSquares.

(** The squares [0..63] in increasing order. *)
Definition all_squares : list Square := map Z.of_nat (seq 0 64).

(** Modelled from the spec: [lsb(b)], the least significant set square of a
    non-empty bitboard ([SQ_NONE] stands for the undefined result on 0). *)
Definition lsb (b : Bitboard) : Square :=
  match find (Z.testbit b) all_squares with
  | Some s => s
  | None => SQ_NONE
  end.

(** Modelled from the spec: [pop_lsb(&b)] returns the least significant set
    square and clears it in [b]. *)
Definition pop_lsb (b : Bitboard) : Square * Bitboard :=
  let s := lsb b in (s, Z.clearbit b s).

(** The loop [while (b) f(pop_lsb(&b));] visits these squares, in this
    order.  A 64-bit word has at most 64 set bits, so 64 rounds suffice. *)
Fixpoint pop_lsb_loop (fuel : nat) (b : Bitboard) : list Square :=
  match fuel with
  | O => []
  | S k =>
      if nonzero b
      then let '(s, b') := pop_lsb b in s :: pop_lsb_loop k b'
      else []
  end.

Definition bb_squares (b : Bitboard) : list Square := pop_lsb_loop 64 b.

(** Modelled from the spec: [popcount(b)] and [more_than_one(b)]
    ("popcount(checkers) > 1"). *)
Definition popcount (b : Bitboard) : Z :=
  Z.of_nat (List.length (filter (Z.testbit b) all_squares)).

Definition more_than_one (b : Bitboard) : bool := 1 <? popcount b.

(** ** Attack tables (bitboard.cpp) *)

(** Modelled from the spec: the attack oracle [attacks(pt, sq, occ)],
    [pseudo_attacks[pt][sq]], [line_bb[a][b]], [between_bb[a][b]].  Leapers
    step once, sliders run along their rays up to and including the first
    occupied square. *)

Definition on_board (f r : Z) : bool :=
  (0 <=? f) && (f <? 8) && (0 <=? r) && (r <? 8).

Definition step_bb (s : Square) (d : Z * Z) : Bitboard :=
  let f := file_of s + fst d in
  let r := rank_of s + snd d in
  if on_board f r then square_bb (make_square f r) else 0.

Definition steps_bb (s : Square) (ds : list (Z * Z)) : Bitboard :=
  fold_right (fun d acc => step_bb s d .| acc) 0 ds.

Fixpoint ray_bb (fuel : nat) (f r : Z) (d : Z * Z) (occ : Bitboard) : Bitboard :=
  match fuel with
  | O => 0
  | S k =>
      let f' := f + fst d in
      let r' := r + snd d in
      if on_board f' r' then
        let sq := square_bb (make_square f' r') in
        if nonzero (occ .& sq) then sq else sq .| ray_bb k f' r' d occ
      else 0
  end.

Definition rays_bb (s : Square) (ds : list (Z * Z)) (occ : Bitboard) : Bitboard :=
  fold_right (fun d acc => ray_bb 7 (file_of s) (rank_of s) d occ .| acc) 0 ds.

Definition KnightSteps : list (Z * Z) :=
  [(1, 2); (2, 1); (2, -1); (1, -2); (-1, -2); (-2, -1); (-2, 1); (-1, 2)].
Definition KingSteps : list (Z * Z) :=
  [(1, 0); (1, 1); (0, 1); (-1, 1); (-1, 0); (-1, -1); (0, -1); (1, -1)].
Definition BishopDirs : list (Z * Z) := [(1, 1); (-1, 1); (-1, -1); (1, -1)].
Definition RookDirs : list (Z * Z) := [(1, 0); (0, 1); (-1, 0); (0, -1)].

Definition attacks_bb (pt : PieceType) (s : Square) (occ : Bitboard) : Bitboard :=
  match pt with
  | KNIGHT => steps_bb s KnightSteps
  | KING => steps_bb s KingSteps
  | BISHOP => rays_bb s BishopDirs occ
  | ROOK => rays_bb s RookDirs occ
  | QUEEN => rays_bb s BishopDirs occ .| rays_bb s RookDirs occ
  | _ => 0
  end.

Definition PseudoAttacks (pt : PieceType) (s : Square) : Bitboard :=
  attacks_bb pt s 0.

(** [PawnAttacks[c][s]] *)
Definition PawnAttacks (c : Color) (s : Square) : Bitboard :=
  match c with
  | WHITE => steps_bb s [(-1, 1); (1, 1)]
  | BLACK => steps_bb s [(-1, -1); (1, -1)]
  end.

(** [LineBB[s1][s2]]: the whole line through two aligned squares, else 0. *)
Definition LineBB (s1 s2 : Square) : Bitboard :=
  if nonzero (PseudoAttacks BISHOP s1 .& square_bb s2)
  then (PseudoAttacks BISHOP s1 .& PseudoAttacks BISHOP s2) .| square_bb s1 .| square_bb s2
  else if nonzero (PseudoAttacks ROOK s1 .& square_bb s2)
  then (PseudoAttacks ROOK s1 .& PseudoAttacks ROOK s2) .| square_bb s1 .| square_bb s2
  else 0.

(** [between_bb(s1, s2)]: the squares strictly between two aligned squares. *)
Definition between_bb (s1 s2 : Square) : Bitboard :=
  if nonzero (PseudoAttacks BISHOP s1 .& square_bb s2)
  then attacks_bb BISHOP s1 (square_bb s2) .& attacks_bb BISHOP s2 (square_bb s1)
  else if nonzero (PseudoAttacks ROOK s1 .& square_bb s2)
  then attacks_bb ROOK s1 (square_bb s2) .& attacks_bb ROOK s2 (square_bb s1)
  else 0.

(** Modelled from the spec: [adjacent_squares_bb(b)], the squares next to
    any square of [b] (the blast ring of atomic chess). *)
Definition adjacent_squares_bb (b : Bitboard) : Bitboard :=
  fold_right (fun s acc => PseudoAttacks KING s .| acc) 0 (bb_squares b).

(** Modelled from the spec: [passed_pawn_span(c, s)], the squares in front
    of [s] (seen from [c]) on its file and the two adjacent files. *)
Definition passed_pawn_span (c : Color) (s : Square) : Bitboard :=
  fold_right
    (fun t acc =>
       if (Z.abs (file_of t - file_of s) <=? 1)
          && (match c with
              | WHITE => rank_of s <? rank_of t
              | BLACK => rank_of t <? rank_of s
              end)
       then square_bb t .| acc else acc)
    0 all_squares.


(** ** Moves (types.h) *)

(** Modelled from the spec: a move holds [from], [to], its kind and, for a
    promotion, the promotion piece type or, for a drop, the dropped piece;
    comparison is by full value.  The constructors carry the names of the
    functions that build moves: [make_move(from, to)],
    [make<PROMOTION>(from, to, pt)], [make<ENPASSANT>(from, to)],
    [make<CASTLING>(from, to)] and [make_drop(to, pc)]. *)

Inductive Move :=
| make_move (from to : Square)
| make_PROMOTION (from to : Square) (pt : PieceType)
| make_ENPASSANT (from to : Square)
| make_CASTLING (from to : Square)
| make_drop (to : Square) (pc : Piece).

Definition type_of (m : Move) : MoveType :=
  match m with
  | make_move _ _ => NORMAL
  | make_PROMOTION _ _ _ => PROMOTION
  | make_ENPASSANT _ _ => ENPASSANT
  | make_CASTLING _ _ => CASTLING
  | make_drop _ _ => DROP
  end.

(** For a drop "[from] is unused"; it is no square of the board. *)
Definition from_sq (m : Move) : Square :=
  match m with
  | make_move f _ | make_PROMOTION f _ _ | make_ENPASSANT f _
  | make_CASTLING f _ => f
  | make_drop _ _ => SQ_NONE
  end.

Definition to_sq (m : Move) : Square :=
  match m with
  | make_move _ t | make_PROMOTION _ t _ | make_ENPASSANT _ t
  | make_CASTLING _ t | make_drop t _ => t
  end.

Definition Move_eq_dec (a b : Move) : {a = b} + {a <> b}.
Proof.
  repeat decide equality.
Defined.

(** ** Castling rights (types.h) *)

(** Modelled from the spec: the castling metadata of the position interface
    is indexed by castling rights, a bit mask of the two sides of each
    colour. *)

Definition CastlingRights : Type := Z.
Definition KING_SIDE : CastlingRights := 5.
Definition QUEEN_SIDE : CastlingRights := 10.
Definition WHITE_CASTLING : CastlingRights := 3.
Definition BLACK_CASTLING : CastlingRights := 12.

(** [operator&(Color, CastlingRights)] *)
Definition Color_and (c : Color) (cr : CastlingRights) : CastlingRights :=
  (match c with WHITE => WHITE_CASTLING | BLACK => BLACK_CASTLING end) .& cr.

(** ** The position interface (position.h) *)

(** Modelled from the spec: the position interface of section 6, with
    every query of [const Position& pos] that the generator makes.  The
    variant of a position is a tag ([var]); [is_anti()], [is_atomic()], ...
    compare it.  Placement and giveaway are sub-variants with flags of
    their own. *)

Record Position := {
  side_to_move : Color;
  var : Variant;
  is_placement : bool;
  is_giveaway : bool;
  is_variant_end : bool;
  is_horde_color : Color -> bool;
  pieces : Bitboard;                               (* pieces() *)
  pieces_c : Color -> Bitboard;                    (* pieces(c) *)
  pieces_cp : Color -> PieceType -> Bitboard;      (* pieces(c, pt) *)
  pieces_pp : PieceType -> PieceType -> Bitboard;  (* pieces(pt1, pt2) *)
  squares : PieceType -> Color -> list Square;     (* squares<Pt>(c), up to SQ_NONE *)
  square_KING : Color -> Square;                   (* square<KING>(c) *)
  piece_on : Square -> option Piece;               (* None is NO_PIECE *)
  attacks_from : PieceType -> Square -> Bitboard;  (* attacks_from<Pt>(s), attacks_from(pt, s) *)
  attacks_from_PAWN : Square -> Color -> Bitboard; (* attacks_from<PAWN>(s, c) *)
  ep_square : Square;
  checkers : Bitboard;
  blockers_for_king : Color -> Bitboard;
  check_squares : PieceType -> Bitboard;
  can_castle : CastlingRights -> bool;
  castling_impeded : CastlingRights -> bool;
  castling_rook_square : CastlingRights -> Square;
  castling_king_square : Color -> Square;
  legal : Move -> bool;
  capture : Move -> bool;
  can_capture : bool;
  can_capture_losers : bool;
  count_in_hand : PieceType -> Color -> Z;
  grid_bb : Square -> Bitboard
}.

Definition is_anti (pos : Position) : bool := Variant_eqb (var pos) ANTI_VARIANT.
Definition is_atomic (pos : Position) : bool := Variant_eqb (var pos) ATOMIC_VARIANT.
Definition is_house (pos : Position) : bool := Variant_eqb (var pos) CRAZYHOUSE_VARIANT.
Definition is_extinction (pos : Position) : bool := Variant_eqb (var pos) EXTINCTION_VARIANT.
Definition is_grid (pos : Position) : bool := Variant_eqb (var pos) GRID_VARIANT.
Definition is_horde (pos : Position) : bool := Variant_eqb (var pos) HORDE_VARIANT.
Definition is_losers (pos : Position) : bool := Variant_eqb (var pos) LOSERS_VARIANT.
Definition is_race (pos : Position) : bool := Variant_eqb (var pos) RACE_VARIANT.
Definition is_two_kings (pos : Position) : bool := Variant_eqb (var pos) TWOKINGS_VARIANT.

(** [type_of(pos.piece_on(s))] *)
Definition type_of_piece (pc : option Piece) : PieceType :=
  match pc with Some (_, pt) => pt | None => NO_PIECE_TYPE end.

(** [Type == A || Type == B || ...] *)
Definition GenType_in (t : GenType) (l : list GenType) : bool :=
  existsb (GenType_eqb t) l.

(** ** make_promotions (movegen.cpp 28-83) *)

Definition make_promotions (V : Variant) (Ty : GenType) (D : Direction)
    (to ksq : Square) : list Move :=
  if Variant_eqb V ANTI_VARIANT then
    if GenType_in Ty [QUIETS; CAPTURES; NON_EVASIONS] then
      [ make_PROMOTION (to - D) to QUEEN; make_PROMOTION (to - D) to ROOK;
        make_PROMOTION (to - D) to BISHOP; make_PROMOTION (to - D) to KNIGHT;
        make_PROMOTION (to - D) to KING ]
    else []
  else if Variant_eqb V LOSERS_VARIANT then
    if GenType_in Ty [QUIETS; CAPTURES; EVASIONS; NON_EVASIONS] then
      [ make_PROMOTION (to - D) to QUEEN; make_PROMOTION (to - D) to ROOK;
        make_PROMOTION (to - D) to BISHOP; make_PROMOTION (to - D) to KNIGHT ]
    else []
  else
    (if GenType_in Ty [CAPTURES; EVASIONS; NON_EVASIONS]
     then [ make_PROMOTION (to - D) to QUEEN ] else [])
    ++ (if GenType_in Ty [QUIETS; EVASIONS; NON_EVASIONS]
        then [ make_PROMOTION (to - D) to ROOK; make_PROMOTION (to - D) to BISHOP;
               make_PROMOTION (to - D) to KNIGHT ]
             ++ (if Variant_eqb V EXTINCTION_VARIANT
                 then [ make_PROMOTION (to - D) to KING ] else [])
        else [])
    ++ (if Variant_eqb V HORDE_VARIANT && (ksq =? SQ_NONE) then []
        else if GenType_eqb Ty QUIET_CHECKS
                && nonzero (PseudoAttacks KNIGHT to .& square_bb ksq)
        then [ make_PROMOTION (to - D) to KNIGHT ]
        else []).

(** ** generate_drops (movegen.cpp 85-117) *)

Definition generate_drops (Us : Color) (Pt : PieceType) (Checks : bool)
    (pos : Position) (b : Bitboard) : list Move :=
  if nonzero (count_in_hand pos Pt Us) then
    let b :=
      if is_placement pos && nonzero (count_in_hand pos BISHOP Us) then
        if PieceType_eqb Pt BISHOP then
          let b := if nonzero (pieces_cp pos Us BISHOP .& DarkSquares)
                   then b .& .~ DarkSquares else b in
          if nonzero (pieces_cp pos Us BISHOP .& .~ DarkSquares)
          then b .& DarkSquares else b
        else
          let b := if negb (nonzero (pieces_cp pos Us BISHOP .& DarkSquares))
                      && (popcount (b .& DarkSquares) <=? 1)
                   then b .& .~ DarkSquares else b in
          if negb (nonzero (pieces_cp pos Us BISHOP .& .~ DarkSquares))
             && (popcount (b .& .~ DarkSquares) <=? 1)
          then b .& DarkSquares else b
      else b in
    let b := if Checks then b .& check_squares pos Pt else b in
    map (fun s => make_drop s (make_piece Us Pt)) (bb_squares b)
  else [].

(** ** generate_king_moves (movegen.cpp 119-132) *)

Definition generate_king_moves (V : Variant) (Us : Color) (Ty : GenType)
    (pos : Position) (target : Bitboard) : list Move :=
  flat_map
    (fun ksq => map (make_move ksq) (bb_squares (attacks_from pos KING ksq .& target)))
    (bb_squares (pieces_cp pos Us KING)).

(** ** generate_pawn_moves (movegen.cpp 134-304) *)

Definition TRank7BB (Us : Color) : Bitboard :=
  match Us with WHITE => Rank7BB | BLACK => Rank2BB end.
Definition TRank2BB (Us : Color) : Bitboard :=
  match Us with WHITE => Rank2BB | BLACK => Rank7BB end.
Definition TRank3BB (Us : Color) : Bitboard :=
  match Us with WHITE => Rank3BB | BLACK => Rank6BB end.
Definition UpRight (Us : Color) : Direction :=
  match Us with WHITE => NORTH_EAST | BLACK => SOUTH_WEST end.
Definition UpLeft (Us : Color) : Direction :=
  match Us with WHITE => NORTH_WEST | BLACK => SOUTH_EAST end.

(** The local [ksq]: the enemy king, or [SQ_NONE] against the horde. *)
Definition pawn_ksq (V : Variant) (Us : Color) (pos : Position) : Square :=
  if Variant_eqb V HORDE_VARIANT && is_horde_color pos (Color_not Us)
  then SQ_NONE
  else square_KING pos (Color_not Us).

Definition pawnsOn7 (Us : Color) (pos : Position) : Bitboard :=
  pieces_cp pos Us PAWN .& TRank7BB Us.
Definition pawnsNotOn7 (Us : Color) (pos : Position) : Bitboard :=
  pieces_cp pos Us PAWN .& .~ TRank7BB Us.

(** The local [enemies] (lines 159-164). *)
Definition pawn_enemies (V : Variant) (Us : Color) (Ty : GenType)
    (pos : Position) (target : Bitboard) : Bitboard :=
  let Them := Color_not Us in
  let enemies :=
    if GenType_eqb Ty EVASIONS then pieces_c pos Them .& target
    else if GenType_eqb Ty CAPTURES then target
    else pieces_c pos Them in
  if Variant_eqb V ATOMIC_VARIANT then
    enemies .& (if GenType_in Ty [CAPTURES; NON_EVASIONS] then target
                else .~ adjacent_squares_bb (pieces_cp pos Us KING))
  else enemies.

(** [emptySquares] as the push block leaves it (lines 169-173); only
    assigned when [Type != CAPTURES]. *)
Definition push_emptySquares (V : Variant) (Ty : GenType) (pos : Position)
    (target : Bitboard) : Bitboard :=
  let emptySquares :=
    if GenType_in Ty [QUIETS; QUIET_CHECKS] then target else .~ pieces pos in
  if Variant_eqb V ANTI_VARIANT then emptySquares .& target else emptySquares.

(** Single and double pawn pushes, no promotions (lines 166-226). *)
Definition pawn_pushes (V : Variant) (Us : Color) (Ty : GenType)
    (pos : Position) (target : Bitboard) : list Move :=
  let Them := Color_not Us in
  let Up := pawn_push Us in
  let ksq := pawn_ksq V Us pos in
  if negb (GenType_eqb Ty CAPTURES) then
    let emptySquares := push_emptySquares V Ty pos target in
    let b1 := shift Up (pawnsNotOn7 Us pos) .& emptySquares in
    let b2 := shift Up (b1 .& TRank3BB Us) .& emptySquares in
    let b2 := if Variant_eqb V HORDE_VARIANT
              then shift Up (b1 .& (TRank2BB Us .| TRank3BB Us)) .& emptySquares
              else b2 in
    let '(b1, b2) := if Variant_eqb V LOSERS_VARIANT
                     then (b1 .& target, b2 .& target) else (b1, b2) in
    let '(b1, b2) := if GenType_eqb Ty EVASIONS
                     then (b1 .& target, b2 .& target) else (b1, b2) in
    let '(b1, b2) :=
      if GenType_eqb Ty QUIET_CHECKS then
        let b1 := b1 .& attacks_from_PAWN pos ksq Them in
        let b2 := b2 .& attacks_from_PAWN pos ksq Them in
        let dcCandidateQuiets := blockers_for_king pos Them .& pawnsNotOn7 Us pos in
        if nonzero dcCandidateQuiets then
          let dc1 := shift Up dcCandidateQuiets .& emptySquares .& .~ file_bb ksq in
          let dc2 := shift Up (dc1 .& TRank3BB Us) .& emptySquares in
          (b1 .| dc1, b2 .| dc2)
        else (b1, b2)
      else (b1, b2) in
    map (fun to => make_move (to - Up) to) (bb_squares b1)
    ++ map (fun to => make_move (to - Up - Up) to) (bb_squares b2)
  else [].

(** [emptySquares] as the promotion block uses it (lines 231-250). *)
Definition promo_emptySquares (V : Variant) (Ty : GenType) (pos : Position)
    (target : Bitboard) : Bitboard :=
  let emptySquares :=
    if GenType_eqb Ty CAPTURES then
      let e := .~ pieces pos in
      if Variant_eqb V ATOMIC_VARIANT && nonzero (checkers pos)
      then e .& target else e
    else push_emptySquares V Ty pos target in
  let emptySquares :=
    if Variant_eqb V ANTI_VARIANT then emptySquares .& target else emptySquares in
  let emptySquares :=
    if Variant_eqb V LOSERS_VARIANT then emptySquares .& target else emptySquares in
  if GenType_eqb Ty EVASIONS then emptySquares .& target else emptySquares.

(** Promotions and underpromotions (lines 228-264). *)
Definition pawn_promotions (V : Variant) (Us : Color) (Ty : GenType)
    (pos : Position) (target : Bitboard) : list Move :=
  let ksq := pawn_ksq V Us pos in
  if nonzero (pawnsOn7 Us pos) then
    let emptySquares := promo_emptySquares V Ty pos target in
    let enemies := pawn_enemies V Us Ty pos target in
    let b1 := shift (UpRight Us) (pawnsOn7 Us pos) .& enemies in
    let b2 := shift (UpLeft Us) (pawnsOn7 Us pos) .& enemies in
    let b3 := shift (pawn_push Us) (pawnsOn7 Us pos) .& emptySquares in
    flat_map (fun to => make_promotions V Ty (UpRight Us) to ksq) (bb_squares b1)
    ++ flat_map (fun to => make_promotions V Ty (UpLeft Us) to ksq) (bb_squares b2)
    ++ flat_map (fun to => make_promotions V Ty (pawn_push Us) to ksq) (bb_squares b3)
  else [].

(** Standard and en-passant captures (lines 266-301); [None] when one of
    the two assertions of the en-passant branch fails. *)
Definition pawn_captures (V : Variant) (Us : Color) (Ty : GenType)
    (pos : Position) (target : Bitboard) : option (list Move) :=
  let Them := Color_not Us in
  let Up := pawn_push Us in
  if GenType_in Ty [CAPTURES; EVASIONS; NON_EVASIONS] then
    let enemies := pawn_enemies V Us Ty pos target in
    let b1 := shift (UpRight Us) (pawnsNotOn7 Us pos) .& enemies in
    let b2 := shift (UpLeft Us) (pawnsNotOn7 Us pos) .& enemies in
    let captures :=
      map (fun to => make_move (to - UpRight Us) to) (bb_squares b1)
      ++ map (fun to => make_move (to - UpLeft Us) to) (bb_squares b2) in
    if negb (ep_square pos =? SQ_NONE) then
      (* assert(rank_of(pos.ep_square()) == relative_rank(Us, RANK_6)) *)
      if rank_of (ep_square pos) =? relative_rank Us RANK_6 then
        if GenType_eqb Ty EVASIONS
           && negb (nonzero (target .& square_bb (ep_square pos - Up)))
        then Some captures
        else
          let b1 := pawnsNotOn7 Us pos .& attacks_from_PAWN pos (ep_square pos) Them in
          (* assert(b1) *)
          if nonzero b1 then
            Some (captures
                  ++ map (fun from => make_ENPASSANT from (ep_square pos)) (bb_squares b1))
          else None
      else None
    else Some captures
  else Some [].

Definition generate_pawn_moves (V : Variant) (Us : Color) (Ty : GenType)
    (pos : Position) (target : Bitboard) : option (list Move) :=
  match pawn_captures V Us Ty pos target with
  | Some captures =>
      Some (pawn_pushes V Us Ty pos target
            ++ pawn_promotions V Us Ty pos target
            ++ captures)
  | None => None
  end.

(** ** generate_moves (movegen.cpp 307-337) *)

Definition generate_moves (V : Variant) (Pt : PieceType) (Checks : bool)
    (pos : Position) (us : Color) (target : Bitboard) : list Move :=
  flat_map
    (fun from =>
       if Checks
          && ((existsb (PieceType_eqb Pt) [BISHOP; ROOK; QUEEN]
               && negb (nonzero (PseudoAttacks Pt from .& target .& check_squares pos Pt)))
              || nonzero (blockers_for_king pos (Color_not us) .& square_bb from))
       then []
       else
         let b := attacks_from pos Pt from .& target in
         let b := if Checks then b .& check_squares pos Pt else b in
         map (make_move from) (bb_squares b))
    (squares pos Pt us).

(** ** generate_all (movegen.cpp 340-453) *)

(** Piece drops (lines 359-378). *)
Definition generate_all_drops (V : Variant) (Us : Color) (Ty : GenType)
    (pos : Position) (target : Bitboard) : list Move :=
  let Checks := GenType_eqb Ty QUIET_CHECKS in
  if Variant_eqb V CRAZYHOUSE_VARIANT && negb (GenType_eqb Ty CAPTURES)
     && nonzero (count_in_hand pos ALL_PIECES Us)
  then
    let b := if GenType_eqb Ty EVASIONS then target .^ checkers pos
             else if GenType_eqb Ty NON_EVASIONS then target .^ pieces_c pos (Color_not Us)
             else target in
    let b := if is_placement pos
             then b .& (match Us with WHITE => Rank1BB | BLACK => Rank8BB end)
             else b in
    generate_drops Us PAWN Checks pos (b .& .~ (Rank1BB .| Rank8BB))
    ++ generate_drops Us KNIGHT Checks pos b
    ++ generate_drops Us BISHOP Checks pos b
    ++ generate_drops Us ROOK Checks pos b
    ++ generate_drops Us QUEEN Checks pos b
    ++ (if is_placement pos then generate_drops Us KING Checks pos b else [])
  else [].

(** Castling (lines 423-450). *)
Definition generate_all_castling (V : Variant) (Us : Color) (Ty : GenType)
    (pos : Position) : list Move :=
  let OO := Color_and Us KING_SIDE in
  let OOO := Color_and Us QUEEN_SIDE in
  if negb (GenType_eqb Ty QUIET_CHECKS) && negb (GenType_eqb Ty EVASIONS) then
    let ksq := square_KING pos Us in
    let ksq := if Variant_eqb V ANTI_VARIANT && is_giveaway pos
               then castling_king_square pos Us else ksq in
    let ksq := if Variant_eqb V EXTINCTION_VARIANT
               then castling_king_square pos Us else ksq in
    let ksq := if Variant_eqb V TWOKINGS_VARIANT
               then castling_king_square pos Us else ksq in
    if Variant_eqb V LOSERS_VARIANT && can_capture_losers pos then []
    else if negb (GenType_eqb Ty CAPTURES) && can_castle pos (OO .| OOO) then
      (if negb (castling_impeded pos OO) && can_castle pos OO
       then [ make_CASTLING ksq (castling_rook_square pos OO) ] else [])
      ++ (if negb (castling_impeded pos OOO) && can_castle pos OOO
          then [ make_CASTLING ksq (castling_rook_square pos OOO) ] else [])
    else []
  else [].

(** The bitboard [b] of the king's destinations in the [default] case of
    the [switch (V)] (lines 407-418). *)
Definition default_king_bb (V : Variant) (Us : Color) (Ty : GenType)
    (pos : Position) (target : Bitboard) : Bitboard :=
  let ksq := square_KING pos Us in
  let b := attacks_from pos KING ksq .& target in
  if Variant_eqb V RACE_VARIANT then
    (* Early generate king advance moves *)
    let b := if GenType_eqb Ty CAPTURES
             then b .| (attacks_from pos KING ksq
                        .& passed_pawn_span WHITE ksq .& .~ pieces pos)
             else b in
    if GenType_eqb Ty QUIETS then b .& .~ passed_pawn_span WHITE ksq else b
  else b.

(** The [switch (V)] on the king moves and what follows it
    (lines 384-452). *)
Definition generate_all_king (V : Variant) (Us : Color) (Ty : GenType)
    (pos : Position) (target : Bitboard) : list Move :=
  match V with
  | ANTI_VARIANT =>
      generate_king_moves V Us Ty pos target
      ++ (if can_capture pos then [] else generate_all_castling V Us Ty pos)
  | EXTINCTION_VARIANT =>
      generate_king_moves V Us Ty pos target ++ generate_all_castling V Us Ty pos
  | TWOKINGS_VARIANT =>
      (if negb (GenType_eqb Ty EVASIONS)
       then generate_king_moves V Us Ty pos target else [])
      ++ generate_all_castling V Us Ty pos
  | _ =>
      (if negb (GenType_eqb Ty QUIET_CHECKS) && negb (GenType_eqb Ty EVASIONS) then
         let ksq := square_KING pos Us in
         map (make_move ksq) (bb_squares (default_king_bb V Us Ty pos target))
       else [])
      ++ generate_all_castling V Us Ty pos
  end.

Definition generate_all (V : Variant) (Us : Color) (Ty : GenType)
    (pos : Position) (target : Bitboard) : option (list Move) :=
  let Checks := GenType_eqb Ty QUIET_CHECKS in
  let board :=
    if Variant_eqb V CRAZYHOUSE_VARIANT && is_placement pos
       && nonzero (count_in_hand pos ALL_PIECES Us)
    then Some []
    else
      match generate_pawn_moves V Us Ty pos target with
      | Some pawn =>
          Some (pawn
                ++ generate_moves V KNIGHT Checks pos Us target
                ++ generate_moves V BISHOP Checks pos Us target
                ++ generate_moves V ROOK Checks pos Us target
                ++ generate_moves V QUEEN Checks pos Us target)
      | None => None
      end in
  match board with
  | Some board =>
      Some (board
            ++ generate_all_drops V Us Ty pos target
            ++ (if is_horde pos && is_horde_color pos Us then []
                else generate_all_king V Us Ty pos target))
  | None => None
  end.

(** ** generate<CAPTURES>, generate<QUIETS>, generate<NON_EVASIONS>
    (movegen.cpp 464-535)

    The template is instantiated for these three types only
    ([static_assert]); [None] is the failure of [assert(!pos.checkers())] or
    of an assertion further down. *)

Definition generate_noncheck (Ty : GenType) (pos : Position) : option (list Move) :=
  if nonzero (checkers pos) then None
  else
    let us := side_to_move pos in
    let target :=
      if GenType_eqb Ty CAPTURES then pieces_c pos (Color_not us)
      else if GenType_eqb Ty QUIETS then .~ pieces pos
      else if GenType_eqb Ty NON_EVASIONS then .~ pieces_c pos us
      else 0 in
    if is_anti pos then
      let target := if can_capture pos
                    then target .& pieces_c pos (Color_not us) else target in
      generate_all ANTI_VARIANT us Ty pos target
    else if is_atomic pos then
      let target :=
        if GenType_in Ty [CAPTURES; NON_EVASIONS]
        then target .& .~ (pieces_c pos (Color_not us)
                           .& adjacent_squares_bb (pieces_cp pos us KING))
        else target in
      generate_all ATOMIC_VARIANT us Ty pos target
    else if is_house pos then generate_all CRAZYHOUSE_VARIANT us Ty pos target
    else if is_extinction pos then generate_all EXTINCTION_VARIANT us Ty pos target
    else if is_grid pos then generate_all GRID_VARIANT us Ty pos target
    else if is_horde pos then generate_all HORDE_VARIANT us Ty pos target
    else if is_losers pos then
      let target := if can_capture_losers pos
                    then target .& pieces_c pos (Color_not us) else target in
      generate_all LOSERS_VARIANT us Ty pos target
    else if is_race pos then generate_all RACE_VARIANT us Ty pos target
    else if is_two_kings pos then generate_all TWOKINGS_VARIANT us Ty pos target
    else generate_all CHESS_VARIANT us Ty pos target.

(** ** generate<QUIET_CHECKS> (movegen.cpp 545-626) *)

Definition generate_QUIET_CHECKS (pos : Position) : option (list Move) :=
  if is_anti pos then Some []
  else if is_extinction pos then Some []
  else if is_horde pos && is_horde_color pos (Color_not (side_to_move pos)) then Some []
  else if is_losers pos && can_capture_losers pos then Some []
  else if is_placement pos
          && nonzero (count_in_hand pos KING (Color_not (side_to_move pos)))
  then Some []
  else if is_race pos then Some []
  else if nonzero (checkers pos) then None  (* assert(!pos.checkers()) *)
  else
    let us := side_to_move pos in
    let dc := blockers_for_king pos (Color_not us) .& pieces_c pos us in
    let discovered :=
      flat_map
        (fun from =>
           let pt := type_of_piece (piece_on pos from) in
           if PieceType_eqb pt PAWN then []
           else
             let b := attacks_from pos pt from .& .~ pieces pos in
             let b := if PieceType_eqb pt KING
                      then b .& .~ PseudoAttacks QUEEN (square_KING pos (Color_not us))
                      else b in
             map (make_move from) (bb_squares b))
        (bb_squares dc) in
    let V :=
      if is_atomic pos then ATOMIC_VARIANT
      else if is_house pos then CRAZYHOUSE_VARIANT
      else if is_grid pos then GRID_VARIANT
      else if is_horde pos then HORDE_VARIANT
      else if is_losers pos then LOSERS_VARIANT
      else if is_two_kings pos then TWOKINGS_VARIANT
      else CHESS_VARIANT in
    match generate_all V us QUIET_CHECKS pos (.~ pieces pos) with
    | Some direct => Some (discovered ++ direct)
    | None => None
    end.

(** ** generate<EVASIONS> (movegen.cpp 632-766) *)

Definition generate_EVASIONS (pos : Position) : option (list Move) :=
  if is_anti pos then Some []
  else if is_extinction pos then Some []
  else if is_placement pos && nonzero (count_in_hand pos KING (side_to_move pos))
  then Some []
  else if is_race pos then Some []
  else if negb (nonzero (checkers pos)) then None  (* assert(pos.checkers()) *)
  else
    let us := side_to_move pos in
    let ksq := square_KING pos us in
    let sliders := checkers pos .& .~ pieces_pp pos KNIGHT PAWN in
    let kingRing := if is_atomic pos
                    then adjacent_squares_bb (pieces_cp pos (Color_not us) KING)
                    else 0 in
    (* Blasts that explode the opposing king or explode all checkers *)
    let blasts :=
      if is_atomic pos then
        let target := pieces_c pos (Color_not us)
                      .& (checkers pos .| adjacent_squares_bb (checkers pos)) in
        let target := target .| kingRing in
        let target := target .& (pieces_c pos (Color_not us)
                                 .& .~ adjacent_squares_bb (pieces_cp pos us KING)) in
        generate_all ATOMIC_VARIANT us CAPTURES pos target
      else Some [] in
    match blasts with
    | None => None
    | Some blasts =>
        let sliderAttacks :=
          fold_left
            (fun acc checksq =>
               if is_grid pos
               then acc .| ((LineBB checksq ksq .^ square_bb checksq)
                            .& .~ grid_bb pos checksq)
               else acc .| (LineBB checksq ksq .^ square_bb checksq))
            (bb_squares sliders) 0 in
        (* Generate evasions for king, capture and non capture moves *)
        let b := if is_atomic pos
                 then attacks_from pos KING ksq .& .~ pieces pos
                      .& .~ (sliderAttacks .& .~ kingRing)
                 else attacks_from pos KING ksq .& .~ pieces_c pos us
                      .& .~ sliderAttacks in
        let b := if is_losers pos && can_capture_losers pos
                 then b .& pieces_c pos (Color_not us) else b in
        let king :=
          if is_two_kings pos then
            flat_map
              (fun ksq2 =>
                 map (make_move ksq2)
                     (bb_squares (attacks_from pos KING ksq2 .& .~ pieces_c pos us)))
              (bb_squares (pieces_cp pos us KING))
          else map (make_move ksq) (bb_squares b) in
        if more_than_one (checkers pos)
        then Some (blasts ++ king)  (* Double check, only a king move can save the day *)
        else
          (* Generate blocking evasions or captures of the checking piece *)
          let checksq := lsb (checkers pos) in
          let target := if is_atomic pos then between_bb checksq ksq
                        else between_bb checksq ksq .| square_bb checksq in
          let rest :=
            if is_atomic pos then generate_all ATOMIC_VARIANT us EVASIONS pos target
            else if is_house pos then generate_all CRAZYHOUSE_VARIANT us EVASIONS pos target
            else if is_grid pos then generate_all GRID_VARIANT us EVASIONS pos target
            else if is_horde pos then generate_all HORDE_VARIANT us EVASIONS pos target
            else if is_losers pos then
              let target := if can_capture_losers pos
                            then target .& pieces_c pos (Color_not us) else target in
              generate_all LOSERS_VARIANT us EVASIONS pos target
            else if is_two_kings pos then generate_all TWOKINGS_VARIANT us EVASIONS pos target
            else generate_all CHESS_VARIANT us EVASIONS pos target in
          match rest with
          | Some rest => Some (blasts ++ king ++ rest)
          | None => None
          end
    end.

(** ** generate<LEGAL> (movegen.cpp 771-814) *)

(** [bool validate] (lines 778-788). *)
Definition validate (pos : Position) : bool :=
  let us := side_to_move pos in
  let pinned := blockers_for_king pos us .& pieces_c pos us in
  let validate := nonzero pinned in
  let validate := if is_grid pos then true else validate in
  let validate := if is_race pos then true else validate in
  if is_two_kings pos then true else validate.

(** The local [ksq] (lines 789-795). *)
Definition legal_ksq (pos : Position) : Square :=
  if is_horde pos && is_horde_color pos (side_to_move pos) then SQ_NONE
  else square_KING pos (side_to_move pos).

(** The condition under which the loop overwrites [*cur] (lines 800-808):
    the first [if], or else the [else if]. *)
Definition legal_rejects (pos : Position) (m : Move) : bool :=
  ((validate pos || (from_sq m =? legal_ksq pos) || MoveType_eqb (type_of m) ENPASSANT)
   && negb (is_house pos && MoveType_eqb (type_of m) DROP)
   && negb (legal pos m))
  || (is_atomic pos && capture pos m && negb (legal pos m)).

(** The loop [while (cur != moveList)] over the moves in [[cur, moveList)]:
    a rejected move is overwritten by the last one ([*cur = (--moveList)->move])
    and the same slot is examined again; otherwise [++cur].  Every round
    shortens the range by one. *)
Fixpoint legal_loop (fuel : nat) (pos : Position) (range : list Move) : list Move :=
  match fuel with
  | O => []
  | S k =>
      match range with
      | [] => []
      | cur :: rest =>
          if legal_rejects pos cur then
            match rest with
            | [] => []
            | _ :: _ => legal_loop k pos (last rest cur :: removelast rest)
            end
          else cur :: legal_loop k pos rest
      end
  end.

Definition generate_LEGAL (pos : Position) : option (list Move) :=
  if is_variant_end pos then Some []
  else
    match (if nonzero (checkers pos) then generate_EVASIONS pos
           else generate_noncheck NON_EVASIONS pos) with
    | Some moves => Some (legal_loop (List.length moves) pos moves)
    | None => None
    end.

(** [generate<Type>(pos, moveList)] for every [Type]. *)
Definition generate (Ty : GenType) (pos : Position) : option (list Move) :=
  match Ty with
  | CAPTURES | QUIETS | NON_EVASIONS => generate_noncheck Ty pos
  | QUIET_CHECKS => generate_QUIET_CHECKS pos
  | EVASIONS => generate_EVASIONS pos
  | LEGAL => generate_LEGAL pos
  end.

(** ** Concrete positions *)

(** Modelled from the spec: the position interface of spec section 6, for a
    position given by the piece placement of a FEN record, without castling
    rights and with empty hands.  Attacks come from the attack tables above
    with the board as occupancy; check and pin data are computed the
    standard way (attackers of the king square, single blockers between a
    sniper and the king); [legal] is the no-self-check rule of standard
    chess, whatever the variant: the positions of the other variants are
    only handed to the pseudo-legal generators. *)

Definition Board : Type := list (Square * Piece).

Definition piece_of_ascii (c : ascii) : option Piece :=
  (if Ascii.eqb c "P" then Some (WHITE, PAWN)
   else if Ascii.eqb c "N" then Some (WHITE, KNIGHT)
   else if Ascii.eqb c "B" then Some (WHITE, BISHOP)
   else if Ascii.eqb c "R" then Some (WHITE, ROOK)
   else if Ascii.eqb c "Q" then Some (WHITE, QUEEN)
   else if Ascii.eqb c "K" then Some (WHITE, KING)
   else if Ascii.eqb c "p" then Some (BLACK, PAWN)
   else if Ascii.eqb c "n" then Some (BLACK, KNIGHT)
   else if Ascii.eqb c "b" then Some (BLACK, BISHOP)
   else if Ascii.eqb c "r" then Some (BLACK, ROOK)
   else if Ascii.eqb c "q" then Some (BLACK, QUEEN)
   else if Ascii.eqb c "k" then Some (BLACK, KING)
   else None)%char.

(** The piece placement field of a FEN record, from rank 8 down to rank 1;
    a digit skips that many files. *)
Fixpoint fen_placement (s : string) (f r : Z) : Board :=
  match s with
  | EmptyString => []
  | String c s' =>
      if Ascii.eqb c "/"%char then fen_placement s' 0 (r - 1)
      else
        match piece_of_ascii c with
        | Some pc => (make_square f r, pc) :: fen_placement s' (f + 1) r
        | None => fen_placement s' (f + (Z.of_nat (nat_of_ascii c) - 48)) r
        end
  end.

Definition fen_board (s : string) : Board := fen_placement s 0 7.

Definition board_bb (bd : Board) (p : Piece -> bool) : Bitboard :=
  fold_right (fun e acc => if p (snd e) then square_bb (fst e) .| acc else acc) 0 bd.

Definition board_pieces (bd : Board) : Bitboard := board_bb bd (fun _ => true).
Definition board_pieces_c (bd : Board) (c : Color) : Bitboard :=
  board_bb bd (fun pc => Color_eqb (fst pc) c).
Definition board_pieces_pt (bd : Board) (pt : PieceType) : Bitboard :=
  board_bb bd (fun pc => PieceType_eqb (snd pc) pt).
Definition board_pieces_cp (bd : Board) (c : Color) (pt : PieceType) : Bitboard :=
  board_bb bd (fun pc => Color_eqb (fst pc) c && PieceType_eqb (snd pc) pt).

Definition board_squares (bd : Board) (pt : PieceType) (c : Color) : list Square :=
  map fst (filter (fun e => Color_eqb (fst (snd e)) c && PieceType_eqb (snd (snd e)) pt) bd).

Definition board_square_KING (bd : Board) (c : Color) : Square :=
  hd SQ_NONE (board_squares bd KING c).

Definition board_piece_on (bd : Board) (s : Square) : option Piece :=
  option_map snd (find (fun e => fst e =? s) bd).

(** [attackers_to(s)] *)
Definition board_attackers_to (bd : Board) (s : Square) : Bitboard :=
  let occ := board_pieces bd in
  (PawnAttacks BLACK s .& board_pieces_cp bd WHITE PAWN)
  .| (PawnAttacks WHITE s .& board_pieces_cp bd BLACK PAWN)
  .| (PseudoAttacks KNIGHT s .& board_pieces_pt bd KNIGHT)
  .| (attacks_bb ROOK s occ .& (board_pieces_pt bd ROOK .| board_pieces_pt bd QUEEN))
  .| (attacks_bb BISHOP s occ .& (board_pieces_pt bd BISHOP .| board_pieces_pt bd QUEEN))
  .| (PseudoAttacks KING s .& board_pieces_pt bd KING).

(** The pieces attacking the king of [c]; none when [c] has no king. *)
Definition board_checkers (bd : Board) (c : Color) : Bitboard :=
  let ksq := board_square_KING bd c in
  if ksq =? SQ_NONE then 0
  else board_attackers_to bd ksq .& board_pieces_c bd (Color_not c).

(** [blockers_for_king(c)]: the pieces standing alone between the king of
    [c] and an enemy slider aimed at it. *)
Definition board_blockers_for_king (bd : Board) (c : Color) : Bitboard :=
  let ksq := board_square_KING bd c in
  if ksq =? SQ_NONE then 0
  else
    let snipers :=
      ((PseudoAttacks ROOK ksq .& (board_pieces_pt bd ROOK .| board_pieces_pt bd QUEEN))
       .| (PseudoAttacks BISHOP ksq
           .& (board_pieces_pt bd BISHOP .| board_pieces_pt bd QUEEN)))
      .& board_pieces_c bd (Color_not c) in
    let occupancy := board_pieces bd .^ snipers in
    fold_left
      (fun blockers sniperSq =>
         let b := between_bb ksq sniperSq .& occupancy in
         if nonzero b && negb (more_than_one b) then blockers .| b else blockers)
      (bb_squares snipers) 0.

(** [check_squares(pt)] for the side [us] to move. *)
Definition board_check_squares (bd : Board) (us : Color) (pt : PieceType) : Bitboard :=
  let ksq := board_square_KING bd (Color_not us) in
  if ksq =? SQ_NONE then 0
  else
    match pt with
    | PAWN => PawnAttacks (Color_not us) ksq
    | KNIGHT => PseudoAttacks KNIGHT ksq
    | BISHOP | ROOK | QUEEN => attacks_bb pt ksq (board_pieces bd)
    | _ => 0
    end.

(** The board after a move of [us] (no castling: the positions built here
    have no castling rights). *)
Definition board_do_move (bd : Board) (us : Color) (m : Move) : Board :=
  let without (l : list Square) :=
    filter (fun e => negb (existsb (Z.eqb (fst e)) l)) bd in
  match m with
  | make_move f t =>
      match board_piece_on bd f with
      | Some pc => (t, pc) :: without [f; t]
      | None => bd
      end
  | make_PROMOTION f t pt => (t, (us, pt)) :: without [f; t]
  | make_ENPASSANT f t => (t, (us, PAWN)) :: without [f; t; t - pawn_push us]
  | make_CASTLING _ _ => bd
  | make_drop t pc => (t, pc) :: bd
  end.

(** Legality in standard chess: the move does not leave the own king
    attacked. *)
Definition standard_legal (bd : Board) (us : Color) (m : Move) : bool :=
  match m with
  | make_CASTLING _ _ => false
  | _ => negb (nonzero (board_checkers (board_do_move bd us m) us))
  end.

(** [capture(m)]: the destination is occupied, or the move is en passant. *)
Definition board_capture (bd : Board) (m : Move) : bool :=
  match m with
  | make_ENPASSANT _ _ => true
  | make_CASTLING _ _ | make_drop _ _ => false
  | _ => nonzero (board_pieces bd .& square_bb (to_sq m))
  end.

(** The 2x2 cell of grid chess that holds [s]. *)
Definition cell_bb (s : Square) : Bitboard :=
  fold_right
    (fun t acc =>
       if (Z.shiftr (file_of t) 1 =? Z.shiftr (file_of s) 1)
          && (Z.shiftr (rank_of t) 1 =? Z.shiftr (rank_of s) 1)
       then square_bb t .| acc else acc)
    0 all_squares.

(** The position of variant [v] with the placement [fen], [us] to move,
    en-passant square [ep], [can_capture()] and [can_capture_losers()] both
    answering [cc], and [is_variant_end()] answering [ended]. *)
Definition mk_position (v : Variant) (fen : string) (us : Color) (ep : Square)
    (cc ended : bool) : Position :=
  let bd := fen_board fen in
  {| side_to_move := us;
     var := v;
     is_placement := false;
     is_giveaway := false;
     is_variant_end := ended;
     is_horde_color := fun _ => false;
     pieces := board_pieces bd;
     pieces_c := board_pieces_c bd;
     pieces_cp := board_pieces_cp bd;
     pieces_pp := fun pt1 pt2 => board_pieces_pt bd pt1 .| board_pieces_pt bd pt2;
     squares := board_squares bd;
     square_KING := board_square_KING bd;
     piece_on := board_piece_on bd;
     attacks_from := fun pt s => attacks_bb pt s (board_pieces bd);
     attacks_from_PAWN := fun s c => PawnAttacks c s;
     ep_square := ep;
     checkers := board_checkers bd us;
     blockers_for_king := board_blockers_for_king bd;
     check_squares := board_check_squares bd us;
     can_castle := fun _ => false;
     castling_impeded := fun _ => false;
     castling_rook_square := fun _ => SQ_NONE;
     castling_king_square := board_square_KING bd;
     legal := standard_legal bd us;
     capture := board_capture bd;
     can_capture := cc;
     can_capture_losers := cc;
     count_in_hand := fun _ _ => 0;
     grid_bb := cell_bb |}.

(** Square names. *)
Definition sq (file rank : Z) : Square := make_square (file - 1) (rank - 1).


(** The positions used below. *)

(** [4k3/P7/8/8/8/8/8/4K3 w - - 0 1] *)
Definition pos_promotion : Position :=
  mk_position CHESS_VARIANT "4k3/P7/8/8/8/8/8/4K3" WHITE SQ_NONE false false.

(** [4r3/8/8/7k/8/8/4N3/4K3 w - - 0 1]: the knight on e2 is pinned to its
    own king by the rook on e8 and checks from g3 or f4. *)
Definition pos_pinned_knight : Position :=
  mk_position CHESS_VARIANT "4r3/8/8/7k/8/8/4N3/4K3" WHITE SQ_NONE false false.

(** [R2N3k/8/8/4N3/8/8/8/4K3 w - - 0 1]: the knight on d8 stands between
    the rook on a8 and the black king; the knight on e5 checks from f7 or
    g6. *)
Definition pos_discovery : Position :=
  mk_position CHESS_VARIANT "R2N3k/8/8/4N3/8/8/8/4K3" WHITE SQ_NONE false false.

(** [r7/1Pk5/8/8/8/8/8/4K3 w - - 0 1]: b7xa8=N gives check. *)
Definition pos_knight_promotion : Position :=
  mk_position CHESS_VARIANT "r7/1Pk5/8/8/8/8/8/4K3" WHITE SQ_NONE false false.

(** [4k3/8/8/K1pP3r/8/8/8/8 w - c6 0 1] *)
Definition pos_ep_rook : Position :=
  mk_position CHESS_VARIANT "4k3/8/8/K1pP3r/8/8/8/8" WHITE (sq 3 6) false false.

(** [1b2k3/8/8/2pPK3/8/8/8/8 w - c6 0 1]: the pawn that has just moved
    c7-c5 has opened the diagonal of the bishop on b8, which gives check. *)
Definition pos_ep_discovered : Position :=
  mk_position CHESS_VARIANT "1b2k3/8/8/2pPK3/8/8/8/8" WHITE (sq 3 6) false false.

(** [4k3/8/8/1Pp5/3K4/8/8/8 w - c6 0 1]: the pawn that has just moved
    c7-c5 gives check. *)
Definition pos_ep_check : Position :=
  mk_position CHESS_VARIANT "4k3/8/8/1Pp5/3K4/8/8/8" WHITE (sq 3 6) false false.

(** [4k3/8/8/8/1N6/3n4/8/r3K3 w - - 0 1]: double check by the rook on a1
    and the knight on d3. *)
Definition pos_double_check : Position :=
  mk_position CHESS_VARIANT "4k3/8/8/8/1N6/3n4/8/r3K3" WHITE SQ_NONE false false.

(** Atomic chess, [8/8/8/8/1N6/3nk3/8/r3K3 w - - 0 1]: the same double
    check; Nb4xd3 blows up the black king on e3. *)
Definition pos_atomic_double_check : Position :=
  mk_position ATOMIC_VARIANT "8/8/8/8/1N6/3nk3/8/r3K3" WHITE SQ_NONE false false.

(** Antichess, [4k3/8/5p2/3pP3/8/8/8/4K3 w - d6 0 1]: the pawn on e5 can
    capture on f6 and, en passant, on d6. *)
Definition pos_anti_ep : Position :=
  mk_position ANTI_VARIANT "4k3/8/5p2/3pP3/8/8/8/4K3" WHITE (sq 4 6) true false.

(** Antichess, [4k3/8/5p2/4P3/8/8/8/4K3 w - - 0 1]: the pawn on e5 can
    capture on f6. *)
Definition pos_anti_capture : Position :=
  mk_position ANTI_VARIANT "4k3/8/5p2/4P3/8/8/8/4K3" WHITE SQ_NONE true false.

(** Antichess, [r3k3/1P6/8/8/8/8/8/4K3 w - - 0 1]: the pawn on b7 can
    capture on a8 and promote. *)
Definition pos_anti_promotion : Position :=
  mk_position ANTI_VARIANT "r3k3/1P6/8/8/8/8/8/4K3" WHITE SQ_NONE true false.

(** Antichess, [8/8/8/8/8/8/8/k7 w - - 0 1]: White has no piece left, the
    game is over. *)
Definition pos_anti_ended : Position :=
  mk_position ANTI_VARIANT "8/8/8/8/8/8/8/k7" WHITE SQ_NONE false true.

(** ** Notions used in the statements *)

(** The piece bitboards of a position fit together: the occupied squares
    are the white and the black ones, no square is both, and both are
    64-bit words. *)
Definition wf_position (pos : Position) : Prop :=
  pieces pos = pieces_c pos WHITE .| pieces_c pos BLACK
  /\ pieces_c pos WHITE .& pieces_c pos BLACK = 0
  /\ bb_ok (pieces_c pos WHITE)
  /\ bb_ok (pieces_c pos BLACK).

(** The enemy pieces attacked by a pawn of the side to move that stands on
    its seventh rank: the squares of the promotion captures. *)
Definition promotion_captures (pos : Position) : Bitboard :=
  let us := side_to_move pos in
  (shift (UpRight us) (pawnsOn7 us pos) .| shift (UpLeft us) (pawnsOn7 us pos))
  .& pieces_c pos (Color_not us).

(** The horde side of horde chess has no king: [square<KING>] of that side
    has no square to give and answers [SQ_NONE]. *)
Definition horde_side_has_no_king (pos : Position) : Prop :=
  is_horde pos && is_horde_color pos (side_to_move pos) = true ->
  square_KING pos (side_to_move pos) = SQ_NONE.

(** A move "requires validation" in [generate<LEGAL>], in the words of the
    specification: a pinned own piece exists or the variant is GRID, RACE or
    TWOKINGS, or the move starts at the king square [square<KING>(us)], or
    it is an en-passant capture, or (under ATOMIC) it is a capture. *)
Definition requires_validation (pos : Position) (m : Move) : bool :=
  let us := side_to_move pos in
  (nonzero (blockers_for_king pos us .& pieces_c pos us)
   || is_grid pos || is_race pos || is_two_kings pos)
  || (from_sq m =? square_KING pos us)
  || MoveType_eqb (type_of m) ENPASSANT
  || (is_atomic pos && capture pos m).

(** The moves the specification keeps: crazyhouse drops always, any other
    move unless it requires validation and the oracle rejects it. *)
Definition legal_keeps (pos : Position) (m : Move) : bool :=
  (is_house pos && MoveType_eqb (type_of m) DROP)
  || negb (requires_validation pos m && negb (legal pos m)).

(** A move other than an en-passant capture. *)
Definition not_ep (m : Move) : Prop := type_of m <> ENPASSANT.

(** The destination of a move lies in the bitboard [T]. *)
Definition lands_in (T : Bitboard) (m : Move) : Prop :=
  Z.testbit T (to_sq m) = true.

(** A knight promotion. *)
Definition knight_promotion (m : Move) : Prop :=
  exists from to, m = make_PROMOTION from to KNIGHT.

(** The bitboard [n] is the disjoint union of the bitboards [c] and [q]. *)
Definition bb_split (c q n : Bitboard) : Prop :=
  bb_ok c /\ bb_ok q /\ c .& q = 0 /\ n = c .| q.

(** The [target] that [generate<Type>] hands to [generate_all]
    (lines 472-489, 517-518). *)
Definition noncheck_target (Ty : GenType) (pos : Position) : Bitboard :=
  let us := side_to_move pos in
  let target :=
    if GenType_eqb Ty CAPTURES then pieces_c pos (Color_not us)
    else if GenType_eqb Ty QUIETS then .~ pieces pos
    else if GenType_eqb Ty NON_EVASIONS then .~ pieces_c pos us
    else 0 in
  match var pos with
  | ANTI_VARIANT =>
      if can_capture pos then target .& pieces_c pos (Color_not us) else target
  | ATOMIC_VARIANT =>
      if GenType_in Ty [CAPTURES; NON_EVASIONS]
      then target .& .~ (pieces_c pos (Color_not us)
                         .& adjacent_squares_bb (pieces_cp pos us KING))
      else target
  | LOSERS_VARIANT =>
      if can_capture_losers pos then target .& pieces_c pos (Color_not us) else target
  | _ => target
  end.

(** [c] and [q] together hold every move as often as [n] does. *)
Definition msplit (c q n : list Move) : Prop :=
  forall m, (count_occ Move_eq_dec c m + count_occ Move_eq_dec q m
             = count_occ Move_eq_dec n m)%nat.

(** The outcome of the three non-check generators as a partition: all
    three return, and captures and quiets together are the non-evasions as
    multisets; or the captures and the non-evasions both abort on the same
    assertion of the en-passant branch, which the quiets never reach. *)
Definition partition_outcome (c q n : option (list Move)) : Prop :=
  match c, q, n with
  | Some c, Some q, Some n => Permutation (c ++ q) n
  | None, Some _, None => True
  | _, _, _ => False
  end.

(** ** More positions *)

(** The position [p] with the castling rights of the mask [rights], no
    castling path impeded and the rooks on the squares [rook]. *)
Definition with_castling (p : Position) (rights : CastlingRights)
    (rook : CastlingRights -> Square) : Position :=
  {| side_to_move := side_to_move p;
     var := var p;
     is_placement := is_placement p;
     is_giveaway := is_giveaway p;
     is_variant_end := is_variant_end p;
     is_horde_color := is_horde_color p;
     pieces := pieces p;
     pieces_c := pieces_c p;
     pieces_cp := pieces_cp p;
     pieces_pp := pieces_pp p;
     squares := squares p;
     square_KING := square_KING p;
     piece_on := piece_on p;
     attacks_from := attacks_from p;
     attacks_from_PAWN := attacks_from_PAWN p;
     ep_square := ep_square p;
     checkers := checkers p;
     blockers_for_king := blockers_for_king p;
     check_squares := check_squares p;
     can_castle := fun cr => nonzero (rights .& cr);
     castling_impeded := fun _ => false;
     castling_rook_square := rook;
     castling_king_square := castling_king_square p;
     legal := legal p;
     capture := capture p;
     can_capture := can_capture p;
     can_capture_losers := can_capture_losers p;
     count_in_hand := count_in_hand p;
     grid_bb := grid_bb p |}.

(** The position [p] with the pieces in hand that [hand] counts. *)
Definition with_hand (p : Position) (hand : PieceType -> Color -> Z) : Position :=
  {| side_to_move := side_to_move p;
     var := var p;
     is_placement := is_placement p;
     is_giveaway := is_giveaway p;
     is_variant_end := is_variant_end p;
     is_horde_color := is_horde_color p;
     pieces := pieces p;
     pieces_c := pieces_c p;
     pieces_cp := pieces_cp p;
     pieces_pp := pieces_pp p;
     squares := squares p;
     square_KING := square_KING p;
     piece_on := piece_on p;
     attacks_from := attacks_from p;
     attacks_from_PAWN := attacks_from_PAWN p;
     ep_square := ep_square p;
     checkers := checkers p;
     blockers_for_king := blockers_for_king p;
     check_squares := check_squares p;
     can_castle := can_castle p;
     castling_impeded := castling_impeded p;
     castling_rook_square := castling_rook_square p;
     castling_king_square := castling_king_square p;
     legal := legal p;
     capture := capture p;
     can_capture := can_capture p;
     can_capture_losers := can_capture_losers p;
     count_in_hand := hand;
     grid_bb := grid_bb p |}.

(** [4k3/8/8/8/8/8/8/R3K2R w KQ - 0 1] *)
Definition pos_castling : Position :=
  with_castling
    (mk_position CHESS_VARIANT "4k3/8/8/8/8/8/8/R3K2R" WHITE SQ_NONE false false)
    WHITE_CASTLING
    (fun cr => if cr =? Color_and WHITE KING_SIDE then sq 8 1 else sq 1 1).

(** Crazyhouse, [4k3/8/8/8/8/8/8/4K3 w - - 0 1] with a white pawn and a
    white knight in hand. *)
Definition pos_house : Position :=
  with_hand
    (mk_position CRAZYHOUSE_VARIANT "4k3/8/8/8/8/8/8/4K3" WHITE SQ_NONE false false)
    (fun pt c =>
       match c, pt with
       | WHITE, PAWN => 1
       | WHITE, KNIGHT => 1
       | WHITE, ALL_PIECES => 2
       | _, _ => 0
       end).

(** The position [p] during the placement phase. *)
Definition in_placement (p : Position) : Position :=
  {| side_to_move := side_to_move p;
     var := var p;
     is_placement := true;
     is_giveaway := is_giveaway p;
     is_variant_end := is_variant_end p;
     is_horde_color := is_horde_color p;
     pieces := pieces p;
     pieces_c := pieces_c p;
     pieces_cp := pieces_cp p;
     pieces_pp := pieces_pp p;
     squares := squares p;
     square_KING := square_KING p;
     piece_on := piece_on p;
     attacks_from := attacks_from p;
     attacks_from_PAWN := attacks_from_PAWN p;
     ep_square := ep_square p;
     checkers := checkers p;
     blockers_for_king := blockers_for_king p;
     check_squares := check_squares p;
     can_castle := can_castle p;
     castling_impeded := castling_impeded p;
     castling_rook_square := castling_rook_square p;
     castling_king_square := castling_king_square p;
     legal := legal p;
     capture := capture p;
     can_capture := can_capture p;
     can_capture_losers := can_capture_losers p;
     count_in_hand := count_in_hand p;
     grid_bb := grid_bb p |}.

(** Placement, [4k3/8/8/8/8/8/8/2B1K3 w - - 0 1] with a white bishop in
    hand: the bishop on c1 stands on a dark square. *)
Definition pos_placement : Position :=
  in_placement
    (with_hand
       (mk_position CRAZYHOUSE_VARIANT "4k3/8/8/8/8/8/8/2B1K3" WHITE SQ_NONE false false)
       (fun pt c =>
          match c, pt with
          | WHITE, BISHOP => 1
          | WHITE, ALL_PIECES => 1
          | _, _ => 0
          end)).

(** Atomic chess, [4k3/8/8/8/2N5/8/3r4/4K3 w - - 0 1]: the rook on d2
    stands next to the white king, so that neither the knight on c4 nor the
    king may capture it. *)
Definition pos_atomic_rook : Position :=
  mk_position ATOMIC_VARIANT "4k3/8/8/8/2N5/8/3r4/4K3" WHITE SQ_NONE false false.

(** [4k3/8/8/8/2N5/8/3r4/4K3 w - - 0 1]: in standard chess the knight and
    the king can capture the rook on d2. *)
Definition pos_rook_capture : Position :=
  mk_position CHESS_VARIANT "4k3/8/8/8/2N5/8/3r4/4K3" WHITE SQ_NONE false false.

(** Losers chess, [4k3/8/8/8/2N5/8/3r4/4K3 w - - 0 1]: White can capture
    the rook on d2 and therefore must. *)
Definition pos_losers_capture : Position :=
  mk_position LOSERS_VARIANT "4k3/8/8/8/2N5/8/3r4/4K3" WHITE SQ_NONE true false.

(** The position [p] with the legality oracle [oracle] for [pos.legal]. *)
Definition with_legal (p : Position) (oracle : Move -> bool) : Position :=
  {| side_to_move := side_to_move p;
     var := var p;
     is_placement := is_placement p;
     is_giveaway := is_giveaway p;
     is_variant_end := is_variant_end p;
     is_horde_color := is_horde_color p;
     pieces := pieces p;
     pieces_c := pieces_c p;
     pieces_cp := pieces_cp p;
     pieces_pp := pieces_pp p;
     squares := squares p;
     square_KING := square_KING p;
     piece_on := piece_on p;
     attacks_from := attacks_from p;
     attacks_from_PAWN := attacks_from_PAWN p;
     ep_square := ep_square p;
     checkers := checkers p;
     blockers_for_king := blockers_for_king p;
     check_squares := check_squares p;
     can_castle := can_castle p;
     castling_impeded := castling_impeded p;
     castling_rook_square := castling_rook_square p;
     castling_king_square := castling_king_square p;
     legal := oracle;
     capture := capture p;
     can_capture := can_capture p;
     can_capture_losers := can_capture_losers p;
     count_in_hand := count_in_hand p;
     grid_bb := grid_bb p |}.

(** The position [p] of horde chess in which [horde] is the horde side. *)
Definition with_horde_color (p : Position) (horde : Color) : Position :=
  {| side_to_move := side_to_move p;
     var := var p;
     is_placement := is_placement p;
     is_giveaway := is_giveaway p;
     is_variant_end := is_variant_end p;
     is_horde_color := Color_eqb horde;
     pieces := pieces p;
     pieces_c := pieces_c p;
     pieces_cp := pieces_cp p;
     pieces_pp := pieces_pp p;
     squares := squares p;
     square_KING := square_KING p;
     piece_on := piece_on p;
     attacks_from := attacks_from p;
     attacks_from_PAWN := attacks_from_PAWN p;
     ep_square := ep_square p;
     checkers := checkers p;
     blockers_for_king := blockers_for_king p;
     check_squares := check_squares p;
     can_castle := can_castle p;
     castling_impeded := castling_impeded p;
     castling_rook_square := castling_rook_square p;
     castling_king_square := castling_king_square p;
     legal := legal p;
     capture := capture p;
     can_capture := can_capture p;
     can_capture_losers := can_capture_losers p;
     count_in_hand := count_in_hand p;
     grid_bb := grid_bb p |}.

(** Atomic chess, [1b2k3/8/8/2pPK3/8/8/8/8 w - c6 0 1]: the position of
    [pos_ep_discovered]; the bishop on b8 gives check. *)
Definition pos_atomic_ep_discovered : Position :=
  mk_position ATOMIC_VARIANT "1b2k3/8/8/2pPK3/8/8/8/8" WHITE (sq 3 6) false false.

(** Atomic chess, [4k3/8/8/B7/8/2n5/3p4/4K3 w - - 0 1]: the pawn on d2 gives
    check; Ba5xc3 blows up the knight and the bishop, the pawn stays, and
    the king is still in check. *)
Definition pos_atomic_pawn_check : Position :=
  mk_position ATOMIC_VARIANT "4k3/8/8/B7/8/2n5/3p4/4K3" WHITE SQ_NONE false false.

(** Crazyhouse, [4r2k/8/8/8/8/8/4N3/4K3 w - - 0 1] with a white knight in
    hand and a legality oracle that rejects every move: the knight on e2 is
    pinned. *)
Definition pos_house_pinned : Position :=
  with_legal
    (with_hand
       (mk_position CRAZYHOUSE_VARIANT "4r2k/8/8/8/8/8/4N3/4K3" WHITE SQ_NONE false false)
       (fun pt c =>
          match c, pt with
          | WHITE, KNIGHT => 1
          | WHITE, ALL_PIECES => 1
          | _, _ => 0
          end))
    (fun _ => false).

(** Racing kings, [8/8/8/8/8/8/k6K/8 w - - 0 1]: the white king can advance
    to g3 and h3. *)
Definition pos_race_advance : Position :=
  mk_position RACE_VARIANT "8/8/8/8/8/8/k6K/8" WHITE SQ_NONE false false.

(** Horde chess, [4k3/8/8/8/8/8/PPPPPPPP/8 w - - 0 1]: White is the horde
    and has no king. *)
Definition pos_horde : Position :=
  with_horde_color
    (mk_position HORDE_VARIANT "4k3/8/8/8/8/8/PPPPPPPP/8" WHITE SQ_NONE false false)
    WHITE.

(** ** Notions used in the further properties *)

(** A pawn move as the pawn emitter makes it: it starts at a pawn of [Us];
    a promotion starts on the relative seventh rank and goes one step up,
    straight or diagonally; any other move starts elsewhere; a plain move
    goes one or two steps up or one step diagonally; an en-passant capture
    goes to the en-passant square. *)
Definition pawn_move_shape (Us : Color) (pos : Position) (m : Move) : Prop :=
  Z.testbit (pieces_cp pos Us PAWN) (from_sq m) = true
  /\ match m with
     | make_move f t =>
         Z.testbit (TRank7BB Us) f = false
         /\ In (t - f) [pawn_push Us; pawn_push Us + pawn_push Us; UpRight Us; UpLeft Us]
     | make_PROMOTION f t _ =>
         Z.testbit (TRank7BB Us) f = true
         /\ In (t - f) [pawn_push Us; UpRight Us; UpLeft Us]
     | make_ENPASSANT f t =>
         Z.testbit (TRank7BB Us) f = false /\ t = ep_square pos
     | _ => False
     end.

(** A castling move as [generate_all] makes it: from the king square (or
    the castling king square of the variants with several kings) to the
    rook square of a side that has the right to castle and whose path is
    not impeded. *)
Definition castling_shape (Us : Color) (pos : Position) (m : Move) : Prop :=
  exists cr from,
    (cr = Color_and Us KING_SIDE \/ cr = Color_and Us QUEEN_SIDE)
    /\ can_castle pos (Color_and Us KING_SIDE .| Color_and Us QUEEN_SIDE) = true
    /\ can_castle pos cr = true
    /\ castling_impeded pos cr = false
    /\ (from = square_KING pos Us \/ from = castling_king_square pos Us)
    /\ m = make_CASTLING from (castling_rook_square pos cr).

(** A drop as [generate_all] makes it: a piece of [Us] of a type held in
    hand; a pawn not on the first or the eighth rank; a king only in the
    placement phase. *)
Definition drop_shape (Us : Color) (pos : Position) (m : Move) : Prop :=
  exists to pt,
    m = make_drop to (make_piece Us pt)
    /\ In pt [PAWN; KNIGHT; BISHOP; ROOK; QUEEN; KING]
    /\ count_in_hand pos pt Us <> 0
    /\ count_in_hand pos ALL_PIECES Us <> 0
    /\ (pt = PAWN -> Z.testbit (Rank1BB .| Rank8BB) to = false)
    /\ (pt = KING -> is_placement pos = true).

(** The [target] of the blasts of atomic chess in [generate<EVASIONS>]
    (lines 660-671). *)
Definition blasts_target (pos : Position) : Bitboard :=
  let us := side_to_move pos in
  let kingRing := adjacent_squares_bb (pieces_cp pos (Color_not us) KING) in
  ((pieces_c pos (Color_not us) .& (checkers pos .| adjacent_squares_bb (checkers pos)))
   .| kingRing)
  .& (pieces_c pos (Color_not us) .& .~ adjacent_squares_bb (pieces_cp pos us KING)).

(** The [target] of the blocking evasions and of the captures of the
    checking piece in [generate<EVASIONS>] (lines 720-758). *)
Definition evasions_target (pos : Position) : Bitboard :=
  let us := side_to_move pos in
  let ksq := square_KING pos us in
  let checksq := lsb (checkers pos) in
  let target := if is_atomic pos then between_bb checksq ksq
                else between_bb checksq ksq .| square_bb checksq in
  if is_losers pos && can_capture_losers pos
  then target .& pieces_c pos (Color_not us) else target.

(** The calls of [generate_all] that [generate<Ty>] makes, each with its
    mode [Ty'] and its [target]; the variant is that of the position and the
    side is the side to move. *)
Definition calls_generate_all (Ty : GenType) (pos : Position)
    (Ty' : GenType) (target : Bitboard) : Prop :=
  (checkers pos = 0
   /\ ((Ty' = Ty /\ (Ty = CAPTURES \/ Ty = QUIETS \/ Ty = NON_EVASIONS)
        /\ target = noncheck_target Ty pos)
       \/ (Ty = LEGAL /\ Ty' = NON_EVASIONS
           /\ target = noncheck_target NON_EVASIONS pos)
       \/ (Ty = QUIET_CHECKS /\ Ty' = QUIET_CHECKS /\ target = .~ pieces pos)))
  \/ (checkers pos <> 0 /\ (Ty = EVASIONS \/ Ty = LEGAL)
      /\ ((Ty' = EVASIONS /\ more_than_one (checkers pos) = false
           /\ target = evasions_target pos)
          \/ (Ty' = CAPTURES /\ var pos = ATOMIC_VARIANT
              /\ target = blasts_target pos))).

(** The moves that [generate<QUIET_CHECKS>] and [generate<EVASIONS>] emit
    themselves: the discovered checks of the pieces other than pawns
    (lines 575-592) and the king evasions (lines 673-715). *)
Definition emits_itself (Ty : GenType) (pos : Position) (m : Move) : Prop :=
  let us := side_to_move pos in
  exists from to,
    m = make_move from to
    /\ ((Ty = QUIET_CHECKS /\ checkers pos = 0
         /\ In from (bb_squares (blockers_for_king pos (Color_not us) .& pieces_c pos us))
         /\ type_of_piece (piece_on pos from) <> PAWN
         /\ Z.testbit (attacks_from pos (type_of_piece (piece_on pos from)) from) to = true
         /\ Z.testbit (pieces pos) to = false)
        \/ ((Ty = EVASIONS \/ Ty = LEGAL) /\ checkers pos <> 0
            /\ (if is_two_kings pos then In from (bb_squares (pieces_cp pos us KING))
                else from = square_KING pos us)
            /\ Z.testbit (attacks_from pos KING from) to = true
            /\ Z.testbit (if is_atomic pos then pieces pos else pieces_c pos us) to = false
            /\ (is_losers pos && can_capture_losers pos = true ->
                Z.testbit (pieces_c pos (Color_not us)) to = true))).

(** Where a move of [generate_all] lands, by the emitter it comes from: a
    piece or king move in [target] (in racing kings, among the captures,
    also a move of the king to an empty square), a pawn push in the empty squares
    of the push block (and in [target] among the evasions and in losers
    chess), a pawn capture in [enemies], a promotion in [enemies] or in the
    empty squares of the promotion block. *)
Definition lands_by_emitter (V : Variant) (Us : Color) (Ty : GenType)
    (pos : Position) (target : Bitboard) (m : Move) : Prop :=
  match m with
  | make_move from to =>
      Z.testbit target to = true
      \/ (Ty <> CAPTURES
          /\ Z.testbit (push_emptySquares V Ty pos target) to = true
          /\ (Ty = EVASIONS \/ V = LOSERS_VARIANT -> Z.testbit target to = true))
      \/ (GenType_in Ty [CAPTURES; EVASIONS; NON_EVASIONS] = true
          /\ Z.testbit (pawn_enemies V Us Ty pos target) to = true)
      \/ (V = RACE_VARIANT /\ Ty = CAPTURES /\ from = square_KING pos Us
          /\ Z.testbit (pieces pos) to = false)
  | make_PROMOTION _ to _ =>
      Z.testbit (pawn_enemies V Us Ty pos target) to = true
      \/ Z.testbit (promo_emptySquares V Ty pos target) to = true
  | _ => True
  end.

(** An en-passant capture as the pawn emitter makes it (lines 284-300): to
    the en-passant square, which lies on the sixth rank of the side to move,
    by a pawn of that side, not on its seventh rank, that attacks it. *)
Definition en_passant_shape (Us : Color) (pos : Position) (m : Move) : Prop :=
  ep_square pos <> SQ_NONE
  /\ rank_of (ep_square pos) = relative_rank Us RANK_6
  /\ exists from,
      m = make_ENPASSANT from (ep_square pos)
      /\ Z.testbit (pieces_cp pos Us PAWN) from = true
      /\ Z.testbit (TRank7BB Us) from = false
      /\ Z.testbit (attacks_from_PAWN pos (ep_square pos) (Color_not Us)) from = true.

(** Why a move of [generate<QUIET_CHECKS>] is emitted: it starts at a
    blocker for the enemy king (a discovered check), or it brings a piece to
    a check square of its type or a pawn to a square from which it attacks
    the enemy king (a direct check); a promotion is to a knight that attacks
    the enemy king.  In the two-kings variant the king moves are emitted as
    well. *)
Definition quiet_check_shape (pos : Position) (m : Move) : Prop :=
  let us := side_to_move pos in
  let them := Color_not us in
  let ksq := pawn_ksq (var pos) us pos in
  match m with
  | make_move from to =>
      In from (bb_squares (blockers_for_king pos them .& pieces_c pos us))
      \/ (Z.testbit (pieces_cp pos us PAWN) from = true
          /\ (Z.testbit (blockers_for_king pos them) from = true
              \/ Z.testbit (attacks_from_PAWN pos ksq them) to = true))
      \/ (exists pt,
             In pt [KNIGHT; BISHOP; ROOK; QUEEN]
             /\ In from (squares pos pt us)
             /\ Z.testbit (check_squares pos pt) to = true)
      \/ (var pos = TWOKINGS_VARIANT /\ In from (bb_squares (pieces_cp pos us KING)))
  | make_PROMOTION _ to pt =>
      pt = KNIGHT /\ nonzero (PseudoAttacks KNIGHT to .& square_bb ksq) = true
  | make_drop to pc =>
      exists pt, pc = make_piece us pt /\ Z.testbit (check_squares pos pt) to = true
  | _ => False
  end.

(** Whose piece a move moves: a pawn of the side to move, a piece on one
    of its piece lists, its king, or one of its blockers for the enemy king;
    a castling move starts at the king square or at the castling king
    square; a drop is of a piece of the side to move. *)
Definition own_origin (pos : Position) (m : Move) : Prop :=
  let us := side_to_move pos in
  match m with
  | make_move from _ =>
      Z.testbit (pieces_cp pos us PAWN) from = true
      \/ (exists pt, In pt [KNIGHT; BISHOP; ROOK; QUEEN] /\ In from (squares pos pt us))
      \/ from = square_KING pos us
      \/ In from (bb_squares (pieces_cp pos us KING))
      \/ In from (bb_squares (blockers_for_king pos (Color_not us) .& pieces_c pos us))
  | make_PROMOTION from _ _ | make_ENPASSANT from _ =>
      Z.testbit (pieces_cp pos us PAWN) from = true
  | make_CASTLING from _ =>
      from = square_KING pos us \/ from = castling_king_square pos us
  | make_drop _ pc => exists pt, pc = make_piece us pt
  end.

(** * Properties *)

(** ** Bitboards as sets of squares *)

Lemma testbit_AllSquares (i : Z) :
  Z.testbit AllSquares i = (0 <=? i) && (i <? 64).
Proof. unfold AllSquares. apply Z.testbit_ones. lia. Qed.

Lemma bb_ok_bits (b : Z) :
  bb_ok b <-> (forall i, Z.testbit b i = true -> 0 <= i < 64).
Proof.
  unfold bb_ok. split.
  - intros H i Hi. rewrite <- H in Hi.
    rewrite Z.land_spec, testbit_AllSquares in Hi.
    apply andb_prop in Hi as [_ Hi]. lia.
  - intros H. apply Z.bits_inj'. intros i Hi.
    rewrite Z.land_spec, testbit_AllSquares.
    destruct (Z.testbit b i) eqn:E; [|reflexivity].
    apply H in E. simpl. lia.
Qed.

Lemma bb_ok_land_r (a b : Z) : bb_ok b -> bb_ok (a .& b).
Proof. unfold bb_ok. intros H. rewrite <- Z.land_assoc, H. reflexivity. Qed.

Lemma bb_ok_land_l (a b : Z) : bb_ok a -> bb_ok (a .& b).
Proof. rewrite Z.land_comm. apply bb_ok_land_r. Qed.

Lemma bb_ok_lor (a b : Z) : bb_ok a -> bb_ok b -> bb_ok (a .| b).
Proof.
  unfold bb_ok. intros Ha Hb. rewrite Z.land_lor_distr_l, Ha, Hb. reflexivity.
Qed.

Lemma bb_ok_AllSquares : bb_ok AllSquares.
Proof. unfold bb_ok. apply Z.land_diag. Qed.

Lemma bb_ok_not (b : Z) : bb_ok (.~ b).
Proof. unfold bb_not. apply bb_ok_land_r, bb_ok_AllSquares. Qed.

Lemma bb_ok_shift (D : Direction) (b : Z) : bb_ok (shift D b).
Proof. unfold shift. apply bb_ok_land_r, bb_ok_AllSquares. Qed.

Lemma bb_ok_0 : bb_ok 0.
Proof. reflexivity. Qed.

Create HintDb bb.
#[local] Hint Resolve bb_ok_land_r bb_ok_land_l bb_ok_lor bb_ok_not
  bb_ok_shift bb_ok_0 : bb.

Lemma testbit_bb_not (b : Z) (i : Z) :
  Z.testbit (.~ b) i = negb (Z.testbit b i) && (0 <=? i) && (i <? 64).
Proof.
  unfold bb_not. rewrite Z.land_spec, testbit_AllSquares.
  destruct (Z.leb_spec 0 i).
  - rewrite Z.lnot_spec by assumption. simpl.
    destruct (Z.testbit b i), (i <? 64); reflexivity.
  - rewrite !Z.testbit_neg_r by assumption. reflexivity.
Qed.

Lemma In_all_squares (s : Z) : In s all_squares <-> 0 <= s < 64.
Proof.
  unfold all_squares. rewrite in_map_iff. split.
  - intros (n & <- & Hn). apply in_seq in Hn. lia.
  - intros H. exists (Z.to_nat s). split; [lia|]. apply in_seq. lia.
Qed.

Lemma NoDup_all_squares : NoDup all_squares.
Proof.
  unfold all_squares. apply Finite.Injective_map_NoDup.
  - intros a b H. lia.
  - apply seq_NoDup.
Qed.

Lemma find_app_skip {A} (f : A -> bool) (pre l : list A) :
  (forall x, In x pre -> f x = false) -> find f (pre ++ l) = find f l.
Proof.
  induction pre as [|a pre IH]; simpl; intros H; [reflexivity|].
  rewrite (H a) by (left; reflexivity). apply IH. intros x Hx. apply H. right. exact Hx.
Qed.

Lemma bb_zero_of_bits (b : Z) :
  bb_ok b -> (forall i, In i all_squares -> Z.testbit b i = false) -> b = 0.
Proof.
  intros Hok H. apply Z.bits_inj'. intros i Hi. rewrite Z.bits_0.
  destruct (Z.testbit b i) eqn:E; [|reflexivity].
  rewrite <- E. apply H, In_all_squares. apply (proj1 (bb_ok_bits b) Hok), E.
Qed.

Lemma bb_ok_clearbit (b s : Z) : bb_ok b -> bb_ok (Z.clearbit b s).
Proof.
  rewrite !bb_ok_bits. intros H i Hi. apply Z.clearbit_iff in Hi. apply H, Hi.
Qed.

(** The [pop_lsb] loop enumerates the set squares in increasing order. *)
Lemma pop_lsb_loop_filter (l pre : list Z) :
  all_squares = pre ++ l ->
  forall (fuel : nat) (b : Z),
    bb_ok b ->
    (forall i, In i pre -> Z.testbit b i = false) ->
    (List.length l <= fuel)%nat ->
    pop_lsb_loop fuel b = filter (Z.testbit b) l.
Proof.
  revert pre. induction l as [|x l IH]; intros pre Hall fuel b Hok Hpre Hfuel.
  - rewrite app_nil_r in Hall. subst pre.
    rewrite (bb_zero_of_bits b Hok Hpre). destruct fuel; reflexivity.
  - destruct fuel as [|k]; [simpl in Hfuel; lia|].
    assert (Hnd : NoDup (pre ++ x :: l)) by (rewrite <- Hall; apply NoDup_all_squares).
    assert (Hx : ~ In x l).
    { apply NoDup_remove_2 in Hnd. intros C. apply Hnd. apply in_or_app. right. exact C. }
    assert (Hall' : all_squares = (pre ++ [x]) ++ l) by (rewrite <- app_assoc; exact Hall).
    simpl filter. destruct (Z.testbit b x) eqn:Ex.
    + assert (Hnz : nonzero b = true).
      { unfold nonzero. destruct (Z.eqb_spec b 0) as [->|]; [|reflexivity].
        rewrite Z.bits_0 in Ex. discriminate. }
      assert (Hlsb : lsb b = x).
      { unfold lsb. rewrite Hall, find_app_skip by exact Hpre. simpl. rewrite Ex. reflexivity. }
      simpl. rewrite Hnz. unfold pop_lsb. rewrite Hlsb. f_equal.
      rewrite (IH (pre ++ [x]) Hall' k (Z.clearbit b x)).
      * apply filter_ext_in. intros a Ha. apply Z.clearbit_neq. intros ->. contradiction.
      * apply bb_ok_clearbit, Hok.
      * intros i Hi. rewrite Z.clearbit_eqb. apply in_app_or in Hi as [Hi|[<-|[]]].
        -- rewrite (Hpre i Hi). reflexivity.
        -- rewrite Z.eqb_refl. apply andb_false_r.
      * simpl in Hfuel. lia.
    + apply (IH (pre ++ [x]) Hall'); [exact Hok| |simpl in Hfuel; lia].
      intros i Hi. apply in_app_or in Hi as [Hi|[<-|[]]]; [apply Hpre, Hi|exact Ex].
Qed.

Lemma bb_squares_filter (b : Z) :
  bb_ok b -> bb_squares b = filter (Z.testbit b) all_squares.
Proof.
  intros Hok. unfold bb_squares.
  apply (pop_lsb_loop_filter all_squares []); auto; try reflexivity; intros i [].
Qed.

Lemma In_bb_squares (b s : Z) :
  bb_ok b -> (In s (bb_squares b) <-> Z.testbit b s = true).
Proof.
  intros Hok. rewrite bb_squares_filter by exact Hok. rewrite filter_In. split.
  - intros [_ H]. exact H.
  - intros H. split; [|exact H]. apply In_all_squares, (proj1 (bb_ok_bits b) Hok), H.
Qed.

Lemma square_bb_spec (s i : Z) :
  0 <= s -> Z.testbit (square_bb s) i = (i =? s).
Proof.
  intros Hs. unfold square_bb. rewrite Z.shiftl_1_l.
  destruct (Z.eqb_spec i s) as [->|Hne].
  - apply Z.pow2_bits_true. exact Hs.
  - apply Z.pow2_bits_false. congruence.
Qed.

(** [b & s] as a truth value is membership of the square. *)
Lemma nonzero_land_square_bb (b s : Z) :
  0 <= s -> nonzero (b .& square_bb s) = Z.testbit b s.
Proof.
  intros Hs. unfold nonzero. destruct (Z.testbit b s) eqn:E.
  - destruct (Z.eqb_spec (b .& square_bb s) 0) as [H0|]; [|reflexivity].
    assert (H : Z.testbit (b .& square_bb s) s = true).
    { rewrite Z.land_spec, E, square_bb_spec, Z.eqb_refl by exact Hs. reflexivity. }
    rewrite H0, Z.bits_0 in H. discriminate.
  - destruct (Z.eqb_spec (b .& square_bb s) 0) as [|Hn]; [reflexivity|].
    exfalso. apply Hn. apply Z.bits_inj'. intros i Hi.
    rewrite Z.land_spec, square_bb_spec, Z.bits_0 by exact Hs.
    destruct (Z.eqb_spec i s) as [->|]; [rewrite E|]; auto using andb_false_r.
Qed.

(** ** Lists of moves *)

Lemma Permutation_filter {A} (f : A -> bool) (l l' : list A) :
  Permutation l l' -> Permutation (filter f l) (filter f l').
Proof.
  induction 1 as [|x l l' _ IH|x y l|l l' l'' _ IH1 _ IH2]; simpl.
  - constructor.
  - destruct (f x); [constructor|]; exact IH.
  - destruct (f x), (f y); try reflexivity. constructor.
  - etransitivity; eassumption.
Qed.

Lemma Permutation_last_removelast {A} (x : A) (l : list A) (d : A) :
  Permutation (last (x :: l) d :: removelast (x :: l)) (x :: l).
Proof.
  rewrite (app_removelast_last d (l := x :: l)) at 3 by discriminate.
  apply Permutation_cons_append.
Qed.

Lemma length_removelast_cons {A} (x : A) (l : list A) :
  List.length (removelast (x :: l)) = List.length l.
Proof.
  revert x. induction l as [|y l IH]; intros x; [reflexivity|].
  change (S (List.length (removelast (y :: l))) = S (List.length l)).
  rewrite IH. reflexivity.
Qed.

Lemma legal_loop_step (pos : Position) (k : nat) (cur : Move) (rest : list Move) :
  legal_loop (S k) pos (cur :: rest) =
  if legal_rejects pos cur then
    match rest with
    | [] => []
    | _ :: _ => legal_loop k pos (last rest cur :: removelast rest)
    end
  else cur :: legal_loop k pos rest.
Proof. reflexivity. Qed.

(** The in-place filter of [generate<LEGAL>] keeps exactly the moves that
    are not rejected, in some order. *)
Lemma legal_loop_Permutation (pos : Position) (fuel : nat) :
  forall range,
    (List.length range <= fuel)%nat ->
    Permutation (legal_loop fuel pos range)
                (filter (fun m => negb (legal_rejects pos m)) range).
Proof.
  induction fuel as [|k IH]; intros range Hlen.
  - destruct range; [constructor|simpl in Hlen; lia].
  - destruct range as [|cur rest]; [constructor|].
    rewrite legal_loop_step. cbn [filter].
    destruct (legal_rejects pos cur) eqn:E; cbn [negb].
    + destruct rest as [|y rest]; [constructor|].
      etransitivity.
      * apply IH. cbn [List.length] in *. rewrite length_removelast_cons. lia.
      * apply Permutation_filter, Permutation_last_removelast.
    + constructor. apply IH. cbn [List.length] in Hlen. lia.
Qed.

Lemma house_not_atomic (pos : Position) :
  (is_house pos = true -> is_atomic pos = false).
Proof.
  unfold is_house, is_atomic. destruct (var pos); cbv; congruence.
Qed.

(** [validate] is the specification's disjunction. *)
Lemma validate_eq (pos : Position) :
  validate pos
  = nonzero (blockers_for_king pos (side_to_move pos) .& pieces_c pos (side_to_move pos))
    || is_grid pos || is_race pos || is_two_kings pos.
Proof.
  unfold validate.
  destruct (nonzero _), (is_grid pos), (is_race pos), (is_two_kings pos); reflexivity.
Qed.

(** The square that the loop compares with is the king square; for the
    king-less horde side it is [SQ_NONE]. *)
Lemma legal_ksq_square_KING (pos : Position) :
  horde_side_has_no_king pos ->
  legal_ksq pos = square_KING pos (side_to_move pos).
Proof.
  unfold horde_side_has_no_king, legal_ksq. intros H.
  destruct (is_horde pos && is_horde_color pos (side_to_move pos));
    [symmetry; apply H|]; reflexivity.
Qed.

(** The loop's condition is the specification's: a move is rejected iff it
    is not kept. *)
Lemma legal_rejects_keeps (pos : Position) (m : Move) :
  horde_side_has_no_king pos ->
  legal_rejects pos m = negb (legal_keeps pos m).
Proof.
  intros Hk. unfold legal_rejects, legal_keeps, requires_validation. cbv zeta.
  rewrite <- validate_eq, <- (legal_ksq_square_KING pos Hk).
  pose proof (house_not_atomic pos) as Hv.
  destruct (is_house pos); [rewrite Hv by reflexivity|];
    destruct (validate pos), (from_sq m =? legal_ksq pos),
      (MoveType_eqb (type_of m) ENPASSANT), (MoveType_eqb (type_of m) DROP),
      (legal pos m); simpl; try reflexivity;
    destruct (is_atomic pos), (capture pos m); reflexivity.
Qed.

Lemma Variant_eqb_eq (a b : Variant) : Variant_eqb a b = true <-> a = b.
Proof.
  unfold Variant_eqb. destruct (Variant_eq_dec a b); split; congruence.
Qed.

Lemma nonzero_true (b : Z) : nonzero b = true <-> b <> 0.
Proof.
  unfold nonzero. destruct (Z.eqb_spec b 0); simpl; split; congruence.
Qed.

Lemma validate_spec (pos : Position) :
  validate pos = true <->
  (blockers_for_king pos (side_to_move pos) .& pieces_c pos (side_to_move pos) <> 0
   \/ var pos = GRID_VARIANT \/ var pos = RACE_VARIANT \/ var pos = TWOKINGS_VARIANT).
Proof.
  unfold validate, is_grid, is_race, is_two_kings. rewrite <- nonzero_true.
  destruct (nonzero _); destruct (var pos); cbv; intuition congruence.
Qed.

(** ** generate<LEGAL> *)

(** C9. On a position whose variant has ended, [generate<LEGAL>] returns
    the empty move list: the end pointer it returns is the buffer pointer it
    was given.  Nothing else of the position is consulted, so no emitter
    runs. *)
Theorem generate_LEGAL_variant_end (pos : Position)
    (Hend : is_variant_end pos = true) :
  generate LEGAL pos = Some [].
Proof.
  unfold generate, generate_LEGAL. rewrite Hend. reflexivity.
Qed.

Lemma generate_LEGAL_variant_end_witness :
  is_variant_end pos_anti_ended = true /\ generate LEGAL pos_anti_ended = Some [].
Proof.
  split; [reflexivity|]. apply generate_LEGAL_variant_end. reflexivity.
Defined.

(** C2. In LEGAL mode, on a position that is not variant-ended, the output
    is the list of candidates (the evasions if in check, the non-evasions
    otherwise) without the moves that require validation and that
    [pos.legal] rejects, each kept move as often as it was generated; a move
    requires validation when [validate] holds (a pinned own piece exists, or
    the variant is GRID, RACE or TWOKINGS), or it starts at the king square
    [square<KING>(us)], or it is an en-passant capture, or under ATOMIC it
    is a capture; crazyhouse drops are always kept.  The horde side of horde
    chess has no king, the code compares with [SQ_NONE] there, and so does
    the statement when [square<KING>] answers [SQ_NONE] for that side. *)
Theorem generate_LEGAL_filter (pos : Position) (cands : list Move)
    (Hend : is_variant_end pos = false)
    (Hking : horde_side_has_no_king pos)
    (Hgen : (if nonzero (checkers pos) then generate EVASIONS pos
             else generate NON_EVASIONS pos) = Some cands) :
  (validate pos = true <->
   (blockers_for_king pos (side_to_move pos) .& pieces_c pos (side_to_move pos) <> 0
    \/ var pos = GRID_VARIANT \/ var pos = RACE_VARIANT \/ var pos = TWOKINGS_VARIANT))
  /\ exists out,
      generate LEGAL pos = Some out
      /\ Permutation out (filter (legal_keeps pos) cands)
      /\ (forall m, In m out <->
                    In m cands
                    /\ (requires_validation pos m = true -> legal pos m = false ->
                        is_house pos = true /\ type_of m = DROP)).
Proof.
  split; [apply validate_spec|].
  exists (legal_loop (List.length cands) pos cands).
  assert (Hperm : Permutation (legal_loop (List.length cands) pos cands)
                              (filter (legal_keeps pos) cands)).
  { etransitivity; [apply legal_loop_Permutation; lia|].
    erewrite filter_ext; [reflexivity|].
    intros m. rewrite (legal_rejects_keeps pos m Hking). apply negb_involutive. }
  split; [|split; [exact Hperm|]].
  - unfold generate in *. unfold generate_LEGAL. rewrite Hend.
    destruct (nonzero (checkers pos)); rewrite Hgen; reflexivity.
  - intros m. split.
    + intros Hm. apply (Permutation_in _ Hperm) in Hm. apply filter_In in Hm as [Hin Hk].
      split; [exact Hin|]. intros Hr Hl. unfold legal_keeps in Hk.
      rewrite Hr, Hl in Hk. simpl in Hk. rewrite orb_false_r in Hk.
      apply andb_prop in Hk as [Hh Hd]. split; [exact Hh|].
      unfold MoveType_eqb in Hd. destruct (MoveType_eq_dec (type_of m) DROP); congruence.
    + intros [Hin Hk]. apply (Permutation_in _ (Permutation_sym Hperm)).
      apply filter_In. split; [exact Hin|]. unfold legal_keeps.
      destruct (requires_validation pos m) eqn:Hr; [|apply orb_true_r].
      destruct (legal pos m) eqn:Hl; [apply orb_true_r|].
      destruct (Hk eq_refl eq_refl) as [Hh Hd]. rewrite Hh, Hd. reflexivity.
Qed.

(** The filter at work.  In [4k3/8/8/K1pP3r/8/8/8/8 w - c6 0 1] no piece is
    pinned: the king move a5-b4 and the en-passant capture d5xc6 are
    validated and removed, the push d5-d6 is kept without validation.  In
    the atomic position the capture Ba5xc3 is validated, as a capture, and
    removed.  In the crazyhouse position the oracle rejects every move and
    the drops are kept all the same, while the moves of the board are
    removed.  In the horde position the side to move has no king. *)
Lemma generate_LEGAL_filter_witness :
  (validate pos_ep_rook = false
   /\ exists out,
       generate LEGAL pos_ep_rook = Some out
       /\ In (make_move (sq 4 5) (sq 4 6)) out
       /\ In (make_move (sq 1 5) (sq 1 4)) out
       /\ ~ In (make_move (sq 1 5) (sq 2 4)) out
       /\ ~ In (make_ENPASSANT (sq 4 5) (sq 3 6)) out)
  /\ (validate pos_atomic_pawn_check = false
      /\ exists out,
          generate LEGAL pos_atomic_pawn_check = Some out
          /\ In (make_move (sq 5 1) (sq 6 1)) out
          /\ ~ In (make_move (sq 1 5) (sq 3 3)) out)
  /\ (validate pos_house_pinned = true
      /\ exists out,
          generate LEGAL pos_house_pinned = Some out
          /\ In (make_drop (sq 1 1) (make_piece WHITE KNIGHT)) out
          /\ ~ In (make_move (sq 5 2) (sq 7 3)) out
          /\ ~ In (make_move (sq 5 1) (sq 4 1)) out)
  /\ (is_horde_color pos_horde WHITE = true
      /\ square_KING pos_horde WHITE = SQ_NONE
      /\ exists out,
          generate LEGAL pos_horde = Some out
          /\ In (make_move (sq 1 2) (sq 1 4)) out).
Proof.
  assert (K1 : horde_side_has_no_king pos_ep_rook) by (intros H; discriminate H).
  assert (K2 : horde_side_has_no_king pos_atomic_pawn_check) by (intros H; discriminate H).
  assert (K3 : horde_side_has_no_king pos_house_pinned) by (intros H; discriminate H).
  assert (K4 : horde_side_has_no_king pos_horde) by (intros _; reflexivity).
  assert (G1 : (if nonzero (checkers pos_ep_rook) then generate EVASIONS pos_ep_rook
                else generate NON_EVASIONS pos_ep_rook)
               = Some [ make_move 35 43; make_ENPASSANT 35 42; make_move 32 24;
                        make_move 32 25; make_move 32 33; make_move 32 40;
                        make_move 32 41 ]) by (vm_compute; reflexivity).
  assert (G2 : (if nonzero (checkers pos_atomic_pawn_check)
                then generate EVASIONS pos_atomic_pawn_check
                else generate NON_EVASIONS pos_atomic_pawn_check)
               = Some [ make_move 32 18; make_move 4 3; make_move 4 5;
                        make_move 4 12; make_move 4 13 ]) by (vm_compute; reflexivity).
  assert (G3 : (if nonzero (checkers pos_house_pinned)
                then generate EVASIONS pos_house_pinned
                else generate NON_EVASIONS pos_house_pinned)
               = Some (match generate NON_EVASIONS pos_house_pinned with
                       | Some l => l
                       | None => []
                       end)) by (vm_compute; reflexivity).
  assert (G4 : (if nonzero (checkers pos_horde) then generate EVASIONS pos_horde
                else generate NON_EVASIONS pos_horde)
               = Some (match generate NON_EVASIONS pos_horde with
                       | Some l => l
                       | None => []
                       end)) by (vm_compute; reflexivity).
  destruct (generate_LEGAL_filter pos_ep_rook _ eq_refl K1 G1) as (_ & o1 & E1 & _ & I1).
  destruct (generate_LEGAL_filter pos_atomic_pawn_check _ eq_refl K2 G2)
    as (_ & o2 & E2 & _ & I2).
  destruct (generate_LEGAL_filter pos_house_pinned _ eq_refl K3 G3)
    as (_ & o3 & E3 & _ & I3).
  destruct (generate_LEGAL_filter pos_horde _ eq_refl K4 G4) as (_ & o4 & E4 & _ & I4).
  assert (kept : forall pos cands out m,
             (forall m, In m out <->
                        In m cands
                        /\ (requires_validation pos m = true -> legal pos m = false ->
                            is_house pos = true /\ type_of m = DROP)) ->
             In m cands ->
             (requires_validation pos m = false \/ legal pos m = true
              \/ (is_house pos = true /\ type_of m = DROP)) ->
             In m out).
  { intros pos cands out m I Hin [H|[H|H]]; apply I; (split; [exact Hin|]);
      intros Hr Hl; congruence. }
  assert (removed : forall pos cands out m,
             (forall m, In m out <->
                        In m cands
                        /\ (requires_validation pos m = true -> legal pos m = false ->
                            is_house pos = true /\ type_of m = DROP)) ->
             requires_validation pos m = true -> legal pos m = false ->
             type_of m <> DROP ->
             ~ In m out).
  { intros pos cands out m I Hr Hl Hd Hin. apply I in Hin. destruct Hin as [_ Hin].
    destruct (Hin Hr Hl) as [_ Hd']. exact (Hd Hd'). }
  split; [|split; [|split]].
  - split; [reflexivity|]. exists o1. split; [exact E1|].
    split; [|split; [|split]].
    + apply (kept _ _ _ _ I1); [vm_compute; tauto|left; vm_compute; reflexivity].
    + apply (kept _ _ _ _ I1); [vm_compute; tauto|right; left; vm_compute; reflexivity].
    + apply (removed _ _ _ _ I1); [vm_compute; reflexivity..|discriminate].
    + apply (removed _ _ _ _ I1); [vm_compute; reflexivity..|discriminate].
  - split; [reflexivity|]. exists o2. split; [exact E2|]. split.
    + apply (kept _ _ _ _ I2); [vm_compute; tauto|right; left; vm_compute; reflexivity].
    + apply (removed _ _ _ _ I2); [vm_compute; reflexivity..|discriminate].
  - split; [reflexivity|]. exists o3. split; [exact E3|]. split; [|split].
    + apply (kept _ _ _ _ I3); [vm_compute; tauto|right; right; split; reflexivity].
    + apply (removed _ _ _ _ I3); [vm_compute; reflexivity..|discriminate].
    + apply (removed _ _ _ _ I3); [vm_compute; reflexivity..|discriminate].
  - split; [reflexivity|]. split; [reflexivity|]. exists o4. split; [exact E4|].
    apply (kept _ _ _ _ I4); [vm_compute; tauto|right; left; vm_compute; reflexivity].
Defined.

(** ** Walking the emitters *)

Ltac forall_walk :=
  repeat match goal with
    | |- Forall _ (_ ++ _) => apply Forall_app; split
    | |- Forall _ (map _ _) => apply Forall_map
    | |- Forall _ (flat_map _ _) => apply Forall_flat_map
    | |- Forall _ [] => constructor
    | |- Forall _ (_ :: _) => constructor
    | |- Forall _ (if ?c then _ else _) => destruct c eqn:?
    | |- Forall _ (let '(_, _) := ?p in _) => destruct p eqn:?
    | |- Forall _ (match ?x with _ => _ end) => destruct x eqn:?
    end.

Ltac forall_trivial :=
  repeat (forall_walk; try (apply Forall_forall; intros ? ?));
  simpl; try discriminate; auto.

Lemma make_promotions_not_ep V Ty D to ksq :
  Forall not_ep (make_promotions V Ty D to ksq).
Proof. unfold make_promotions, not_ep. forall_trivial. Qed.

Lemma pawn_pushes_not_ep V Us Ty pos target :
  Forall not_ep (pawn_pushes V Us Ty pos target).
Proof. unfold pawn_pushes, not_ep. forall_trivial. Qed.

Lemma pawn_promotions_not_ep V Us Ty pos target :
  Forall not_ep (pawn_promotions V Us Ty pos target).
Proof.
  unfold pawn_promotions. forall_walk;
    apply Forall_forall; intros; apply make_promotions_not_ep.
Qed.

Lemma generate_moves_not_ep V Pt Checks pos us target :
  Forall not_ep (generate_moves V Pt Checks pos us target).
Proof. unfold generate_moves, not_ep. forall_trivial. Qed.

Lemma generate_drops_not_ep Us Pt Checks pos b :
  Forall not_ep (generate_drops Us Pt Checks pos b).
Proof. unfold generate_drops, not_ep. forall_trivial. Qed.

Lemma generate_all_drops_not_ep V Us Ty pos target :
  Forall not_ep (generate_all_drops V Us Ty pos target).
Proof.
  unfold generate_all_drops. forall_walk; apply generate_drops_not_ep.
Qed.

Lemma generate_king_moves_not_ep V Us Ty pos target :
  Forall not_ep (generate_king_moves V Us Ty pos target).
Proof. unfold generate_king_moves, not_ep. forall_trivial. Qed.

Lemma generate_all_castling_not_ep V Us Ty pos :
  Forall not_ep (generate_all_castling V Us Ty pos).
Proof. unfold generate_all_castling, not_ep. forall_trivial. Qed.

Lemma generate_all_king_not_ep V Us Ty pos target :
  Forall not_ep (generate_all_king V Us Ty pos target).
Proof.
  unfold generate_all_king.
  destruct V; forall_walk;
    try apply generate_king_moves_not_ep; try apply generate_all_castling_not_ep;
    unfold not_ep; forall_trivial.
Qed.

Lemma GenType_eqb_eq (a b : GenType) : GenType_eqb a b = true <-> a = b.
Proof.
  unfold GenType_eqb. destruct (GenType_eq_dec a b); split; congruence.
Qed.

Lemma Forall_impl_not_ep (Q : Prop) (l : list Move) :
  Forall not_ep l -> Forall (fun m => type_of m = ENPASSANT -> Q) l.
Proof.
  apply Forall_impl. intros m H E. contradiction.
Qed.

(** ** En passant among the evasions *)

Lemma pawn_captures_EVASIONS_ep V Us pos target l :
  pawn_captures V Us EVASIONS pos target = Some l ->
  Forall (fun m => type_of m = ENPASSANT ->
                   ep_square pos <> SQ_NONE
                   /\ nonzero (target .& square_bb (ep_square pos - pawn_push Us)) = true) l.
Proof.
  unfold pawn_captures.
  change (GenType_in EVASIONS [CAPTURES; EVASIONS; NON_EVASIONS]) with true.
  change (GenType_eqb EVASIONS EVASIONS) with true. cbv iota. cbn [andb].
  set (caps := map _ _ ++ map _ _).
  assert (Hcaps : Forall not_ep caps) by (subst caps; unfold not_ep; forall_trivial).
  destruct (ep_square pos =? SQ_NONE) eqn:Hep; cbn [negb].
  - intros [= <-]. apply Forall_impl_not_ep, Hcaps.
  - destruct (rank_of (ep_square pos) =? relative_rank Us RANK_6); [|discriminate].
    destruct (nonzero (target .& square_bb (ep_square pos - pawn_push Us))) eqn:Ht; cbn [negb].
    + destruct (nonzero (pawnsNotOn7 Us pos .& _)); [|discriminate].
      intros [= <-]. apply Forall_forall. intros m _ _. split; [|reflexivity].
      apply Z.eqb_neq, Hep.
    + intros [= <-]. apply Forall_impl_not_ep, Hcaps.
Qed.

Lemma generate_all_EVASIONS_ep V Us pos target l :
  generate_all V Us EVASIONS pos target = Some l ->
  Forall (fun m => type_of m = ENPASSANT ->
                   ep_square pos <> SQ_NONE
                   /\ nonzero (target .& square_bb (ep_square pos - pawn_push Us)) = true) l.
Proof.
  unfold generate_all, generate_pawn_moves.
  destruct (Variant_eqb V CRAZYHOUSE_VARIANT && is_placement pos
            && nonzero (count_in_hand pos ALL_PIECES Us)).
  - intros [= <-]. apply Forall_impl_not_ep. forall_walk;
      auto using generate_all_drops_not_ep, generate_all_king_not_ep.
  - destruct (pawn_captures V Us EVASIONS pos target) as [caps|] eqn:Hc; [|discriminate].
    intros [= <-]. apply pawn_captures_EVASIONS_ep in Hc.
    forall_walk; try exact Hc; apply Forall_impl_not_ep;
      auto using pawn_pushes_not_ep, pawn_promotions_not_ep, generate_moves_not_ep,
        generate_all_drops_not_ep, generate_all_king_not_ep.
Qed.

Lemma nonzero_land_weaken (a b s : Z) :
  nonzero (a .& b .& s) = true -> nonzero (a .& s) = true.
Proof.
  rewrite !nonzero_true. intros H C. apply H.
  rewrite <- Z.land_assoc, (Z.land_comm b s), Z.land_assoc, C. reflexivity.
Qed.

(** C6, as amended.  In EVASIONS mode an ENPASSANT move is emitted only
    when the position exposes an en-passant square and [ep_square - Up] lies
    in the evasion target: for [generate_all] in EVASIONS mode with any
    target, and for [generate<EVASIONS>] outside atomic chess with the
    target it computes (the checker's square and the squares between it and
    the king).  From [4k3/8/8/K1pP3r/8/8/8/8 w - c6 0 1] the side to move is
    not in check, [generate<EVASIONS>] stops at its assertion, and the pawn
    emitter in EVASIONS mode emits nothing en passant there whatever the
    evasion target, as long as it does not hold c5. *)
Theorem evasions_en_passant :
  (forall V Us pos target l,
      generate_all V Us EVASIONS pos target = Some l ->
      Forall (fun m => type_of m = ENPASSANT ->
                       ep_square pos <> SQ_NONE
                       /\ nonzero (target .& square_bb (ep_square pos - pawn_push Us)) = true) l)
  /\ (forall pos l,
         is_atomic pos = false ->
         generate EVASIONS pos = Some l ->
         Forall (fun m => type_of m = ENPASSANT ->
                          ep_square pos <> SQ_NONE
                          /\ nonzero ((between_bb (lsb (checkers pos))
                                                   (square_KING pos (side_to_move pos))
                                       .| square_bb (lsb (checkers pos)))
                                      .& square_bb (ep_square pos
                                                    - pawn_push (side_to_move pos))) = true) l)
  /\ (checkers pos_ep_rook = 0
      /\ generate EVASIONS pos_ep_rook = None
      /\ forall target l,
          nonzero (target .& square_bb (sq 3 5)) = false ->
          generate_all CHESS_VARIANT WHITE EVASIONS pos_ep_rook target = Some l ->
          Forall not_ep l).
Proof.
  split; [exact generate_all_EVASIONS_ep|]. split.
  - intros pos l Hat. unfold generate, generate_EVASIONS. rewrite Hat.
    destruct (is_anti pos); [intros [= <-]; constructor|].
    destruct (is_extinction pos); [intros [= <-]; constructor|].
    destruct (is_placement pos && _); [intros [= <-]; constructor|].
    destruct (is_race pos); [intros [= <-]; constructor|].
    destruct (negb (nonzero (checkers pos))); [discriminate|].
    set (king := if is_two_kings pos then _ else _).
    assert (Hking : Forall not_ep king) by (subst king; unfold not_ep; forall_trivial).
    destruct (more_than_one (checkers pos)).
    { intros [= <-]. apply Forall_impl_not_ep. exact Hking. }
    set (tgt := between_bb _ _ .| square_bb _).
    match goal with
    | |- match ?r with _ => _ end = _ -> _ => destruct r as [rest|] eqn:Hrest; [|discriminate]
    end.
    intros [= <-]. cbn [app]. apply Forall_app. split.
    { apply Forall_impl_not_ep. exact Hking. }
    revert Hrest.
    repeat match goal with
      | |- (if ?c then _ else _) = _ -> _ => destruct c
      end;
      intros Hrest; apply generate_all_EVASIONS_ep in Hrest;
      try exact Hrest.
    revert Hrest. apply Forall_impl. intros m H E. destruct (H E) as [H1 H2].
    split; [exact H1|]. destruct (can_capture_losers pos); [|exact H2].
    eapply nonzero_land_weaken. exact H2.
  - split; [reflexivity|]. split; [reflexivity|].
    intros target l Ht Hgen. apply generate_all_EVASIONS_ep in Hgen.
    revert Hgen. apply Forall_impl. intros m H E. apply H in E as [_ E].
    change (ep_square pos_ep_rook - pawn_push WHITE) with (sq 3 5) in E. congruence.
Qed.

Lemma evasions_en_passant_witness :
  generate_all CHESS_VARIANT WHITE EVASIONS pos_ep_check (square_bb (sq 3 5))
  = Some [make_ENPASSANT (sq 2 5) (sq 3 6)]
  /\ nonzero (square_bb (sq 3 5)
              .& square_bb (ep_square pos_ep_check - pawn_push WHITE)) = true.
Proof.
  split; [reflexivity|].
  assert (H := proj1 evasions_en_passant CHESS_VARIANT WHITE pos_ep_check
                 (square_bb (sq 3 5)) _ eq_refl).
  apply (Forall_inv H). reflexivity.
Defined.

(** C6 as stated fails twice.  In atomic chess the blasts that
    [generate<EVASIONS>] emits first are generated in CAPTURES mode, where
    the en-passant branch has no test of the target: in
    [1b2k3/8/8/2pPK3/8/8/8/8 w - c6 0 1] the bishop on b8 is the only
    checker, c5 is neither among the blast squares nor between the bishop
    and the king, and d5xc6 e.p. is the first evasion.  And in
    [4k3/8/8/K1pP3r/8/8/8/8 w - c6 0 1] the rook gives no check, as both
    pawns stand between it and the king; were it the checker, the evasion
    target would be the squares from b5 to h5, which hold c5, and the
    emitter would give d5xc6 e.p. as the evasion. *)
Lemma evasions_en_passant_atomic_counterexample :
  (is_atomic pos_atomic_ep_discovered = true
   /\ bb_squares (checkers pos_atomic_ep_discovered) = [sq 2 8]
   /\ ep_square pos_atomic_ep_discovered - pawn_push WHITE = sq 3 5
   /\ bb_squares (blasts_target pos_atomic_ep_discovered) = [sq 2 8]
   /\ bb_squares (between_bb (sq 2 8) (square_KING pos_atomic_ep_discovered WHITE))
      = [sq 4 6; sq 3 7]
   /\ generate EVASIONS pos_atomic_ep_discovered
      = Some [ make_ENPASSANT (sq 4 5) (sq 3 6);
               make_move (sq 5 5) (sq 4 4); make_move (sq 5 5) (sq 5 4);
               make_move (sq 5 5) (sq 6 5); make_move (sq 5 5) (sq 5 6);
               make_move (sq 5 5) (sq 6 6); make_move (sq 4 5) (sq 4 6) ])
  /\ (checkers pos_ep_rook = 0
      /\ generate EVASIONS pos_ep_rook = None
      /\ piece_on pos_ep_rook (sq 8 5) = Some (BLACK, ROOK)
      /\ square_KING pos_ep_rook WHITE = sq 1 5
      /\ bb_squares (between_bb (sq 8 5) (sq 1 5) .| square_bb (sq 8 5))
         = [sq 2 5; sq 3 5; sq 4 5; sq 5 5; sq 6 5; sq 7 5; sq 8 5]
      /\ generate_all CHESS_VARIANT WHITE EVASIONS pos_ep_rook
           (between_bb (sq 8 5) (sq 1 5) .| square_bb (sq 8 5))
         = Some [ make_ENPASSANT (sq 4 5) (sq 3 6) ]).
Proof. repeat split; vm_compute; reflexivity. Qed.

(** A discovered check in which the en-passant capture is no evasion: from
    [1b2k3/8/8/2pPK3/8/8/8/8 w - c6 0 1] the bishop on b8 checks, the
    evasions are five king moves and the block d5-d6, and d5xc6 e.p. is not
    among them, though it is among the non-evasion moves of the pawn. *)
Example en_passant_discovered_check :
  bb_squares (checkers pos_ep_discovered) = [sq 2 8]
  /\ generate EVASIONS pos_ep_discovered
     = Some [ make_move (sq 5 5) (sq 4 4); make_move (sq 5 5) (sq 5 4);
              make_move (sq 5 5) (sq 6 5); make_move (sq 5 5) (sq 5 6);
              make_move (sq 5 5) (sq 6 6); make_move (sq 4 5) (sq 4 6) ]
  /\ pawn_captures CHESS_VARIANT WHITE NON_EVASIONS pos_ep_discovered
       (.~ pieces_c pos_ep_discovered WHITE)
     = Some [ make_ENPASSANT (sq 4 5) (sq 3 6) ].
Proof. repeat split; vm_compute; reflexivity. Qed.

(** ** Double check *)

Lemma more_than_one_nonzero (b : Z) : more_than_one b = true -> nonzero b = true.
Proof.
  intros H. apply nonzero_true. intros ->. vm_compute in H. discriminate.
Qed.

(** C7, as amended.  Outside atomic chess, in double check
    ([popcount(checkers) > 1]) [generate<EVASIONS>] returns, and every move
    it emits starts at a king square of the side to move: [square<KING>(us)],
    or under TWOKINGS any square of [pieces(us, KING)]. *)
Theorem double_check_only_king_moves (pos : Position)
    (Hat : is_atomic pos = false)
    (Hdc : more_than_one (checkers pos) = true) :
  exists l,
    generate EVASIONS pos = Some l
    /\ Forall (fun m => In (from_sq m)
                           (square_KING pos (side_to_move pos)
                            :: bb_squares (pieces_cp pos (side_to_move pos) KING))) l.
Proof.
  unfold generate, generate_EVASIONS. rewrite Hat, Hdc.
  rewrite (more_than_one_nonzero _ Hdc). cbn [negb].
  destruct (is_anti pos); [eexists; split; [reflexivity|constructor]|].
  destruct (is_extinction pos); [eexists; split; [reflexivity|constructor]|].
  destruct (is_placement pos && _); [eexists; split; [reflexivity|constructor]|].
  destruct (is_race pos); [eexists; split; [reflexivity|constructor]|].
  eexists; split; [reflexivity|]. cbn [app].
  destruct (is_two_kings pos).
  - apply Forall_flat_map, Forall_forall. intros ksq2 Hk.
    apply Forall_map, Forall_forall. intros t _. right. exact Hk.
  - apply Forall_map, Forall_forall. intros t _. left. reflexivity.
Qed.

Lemma double_check_only_king_moves_witness :
  is_atomic pos_double_check = false
  /\ more_than_one (checkers pos_double_check) = true
  /\ exists l,
      generate EVASIONS pos_double_check = Some l
      /\ Forall (fun m => In (from_sq m)
                             (square_KING pos_double_check WHITE
                              :: bb_squares (pieces_cp pos_double_check WHITE KING))) l.
Proof.
  split; [reflexivity|]. split; [reflexivity|].
  exact (double_check_only_king_moves pos_double_check eq_refl eq_refl).
Defined.

(** C7 as stated fails in atomic chess: in the double check of
    [8/8/8/8/1N6/3nk3/8/r3K3 w - - 0 1] the capture Nb4xd3, which is no king
    move, is emitted ahead of the king moves. *)
Lemma double_check_atomic_counterexample :
  more_than_one (checkers pos_atomic_double_check) = true
  /\ generate EVASIONS pos_atomic_double_check
     = Some [ make_move (sq 2 4) (sq 4 3); make_move (sq 5 1) (sq 4 2);
              make_move (sq 5 1) (sq 5 2); make_move (sq 5 1) (sq 6 2) ]
  /\ piece_on pos_atomic_double_check (sq 2 4) = Some (WHITE, KNIGHT)
  /\ square_KING pos_atomic_double_check WHITE = sq 5 1
  /\ bb_squares (pieces_cp pos_atomic_double_check WHITE KING) = [sq 5 1].
Proof. repeat split; vm_compute; reflexivity. Qed.

(** ** The piece emitter in QUIET_CHECKS mode *)

(** C4, as amended.  With [Checks] set, the emitter for knights, bishops,
    rooks and queens skips every piece that is a blocker for the enemy king
    ([blockers_for_king(~us)], the discovered-check candidates): no move it
    emits starts at the square of such a piece. *)
Theorem generate_moves_skips_enemy_king_blockers
    (V : Variant) (Pt : PieceType) (pos : Position) (us : Color)
    (target : Bitboard) (s : Square)
    (Hs : 0 <= s)
    (Hb : Z.testbit (blockers_for_king pos (Color_not us)) s = true) :
  Forall (fun m => from_sq m <> s) (generate_moves V Pt true pos us target).
Proof.
  unfold generate_moves. apply Forall_flat_map, Forall_forall. intros from _.
  cbn [andb].
  destruct (_ || nonzero (blockers_for_king pos (Color_not us) .& square_bb from)) eqn:E;
    [constructor|].
  apply Forall_map, Forall_forall. intros t _. simpl. intros ->.
  apply orb_false_iff in E as [_ E].
  rewrite nonzero_land_square_bb in E by exact Hs. congruence.
Qed.

Lemma generate_moves_skips_enemy_king_blockers_witness :
  0 <= sq 4 8
  /\ Z.testbit (blockers_for_king pos_discovery (Color_not WHITE)) (sq 4 8) = true
  /\ In (sq 4 8) (squares pos_discovery KNIGHT WHITE)
  /\ Forall (fun m => from_sq m <> sq 4 8)
       (generate_moves CHESS_VARIANT KNIGHT true pos_discovery WHITE
          (.~ pieces pos_discovery)).
Proof.
  split; [discriminate|]. split; [reflexivity|]. split; [left; reflexivity|].
  apply generate_moves_skips_enemy_king_blockers; [discriminate|reflexivity].
Defined.

(** C4 as stated fails: in [4r3/8/8/7k/8/8/4N3/4K3 w - - 0 1] White is not
    in check, the knight on e2 is a blocker for White's own king and for no
    other, and the emitter gives its two checking moves. *)
Lemma generate_moves_own_king_blocker_counterexample :
  checkers pos_pinned_knight = 0
  /\ side_to_move pos_pinned_knight = WHITE
  /\ squares pos_pinned_knight KNIGHT WHITE = [sq 5 2]
  /\ bb_squares (blockers_for_king pos_pinned_knight WHITE) = [sq 5 2]
  /\ bb_squares (blockers_for_king pos_pinned_knight BLACK) = []
  /\ generate_moves CHESS_VARIANT KNIGHT true pos_pinned_knight WHITE
       (.~ pieces pos_pinned_knight)
     = [ make_move (sq 5 2) (sq 7 3); make_move (sq 5 2) (sq 6 4) ]
  /\ generate QUIET_CHECKS pos_pinned_knight
     = Some [ make_move (sq 5 2) (sq 7 3); make_move (sq 5 2) (sq 6 4) ].
Proof. repeat split; vm_compute; reflexivity. Qed.

(** ** The promotion scenario *)

(** C3 as stated fails: from [4k3/P7/8/8/8/8/8/4K3 w - - 0 1]
    [generate<CAPTURES>] emits the queen promotion. *)
Lemma promotion_scenario_counterexample :
  generate CAPTURES pos_promotion = Some [ make_PROMOTION (sq 1 7) (sq 1 8) QUEEN ]
  /\ ~ In (make_PROMOTION (sq 1 7) (sq 1 8) QUEEN)
          (match generate QUIETS pos_promotion with Some q => q | None => [] end)
  /\ List.length (match generate QUIETS pos_promotion with Some q => q | None => [] end)
     = 8%nat.
Proof.
  split; [reflexivity|]. split; [|reflexivity].
  vm_compute. intros H. repeat (destruct H as [H|H]; [discriminate H|]). exact H.
Qed.

(** C3, as amended.  From [4k3/P7/8/8/8/8/8/4K3 w - - 0 1],
    [generate<CAPTURES>] emits exactly the queen promotion a7a8=Q, and
    [generate<QUIETS>] emits exactly the three underpromotions a7a8=R,
    a7a8=B, a7a8=N and the five king moves Kd1, Kf1, Kd2, Ke2, Kf2. *)
Theorem promotion_scenario :
  generate CAPTURES pos_promotion = Some [ make_PROMOTION (sq 1 7) (sq 1 8) QUEEN ]
  /\ generate QUIETS pos_promotion
     = Some [ make_PROMOTION (sq 1 7) (sq 1 8) ROOK;
              make_PROMOTION (sq 1 7) (sq 1 8) BISHOP;
              make_PROMOTION (sq 1 7) (sq 1 8) KNIGHT;
              make_move (sq 5 1) (sq 4 1); make_move (sq 5 1) (sq 6 1);
              make_move (sq 5 1) (sq 4 2); make_move (sq 5 1) (sq 5 2);
              make_move (sq 5 1) (sq 6 2) ].
Proof. split; reflexivity. Qed.

(** The start position: sixteen pawn moves and four knight moves. *)
Example start_position_moves :
  option_map (@List.length Move)
    (generate NON_EVASIONS
       (mk_position CHESS_VARIANT "rnbqkbnr/pppppppp/8/8/8/8/PPPPPPPP/RNBQKBNR"
          WHITE SQ_NONE false false))
  = Some 20%nat.
Proof. reflexivity. Qed.

(** ** Where the emitted moves land *)

(** Membership in a bitboard built with [&] and [|] is decided bit by bit. *)
Ltac bits_in H :=
  repeat (rewrite Z.land_spec in H || rewrite Z.lor_spec in H);
  repeat match type of H with
    | context [Z.testbit ?a ?b] => destruct (Z.testbit a b) eqn:?
    end;
  cbn [andb orb negb] in H; try discriminate H; try reflexivity; auto.

Ltac split_ifs :=
  repeat match goal with
    | |- context [if ?c then _ else _] => destruct c eqn:?
    end.

Ltac lands_solve :=
  repeat (split_ifs; forall_walk; try (apply Forall_forall; intros ? ?));
  split_ifs; unfold lands_in; cbn [to_sq];
  match goal with
  | H : In ?t (bb_squares _) |- Z.testbit _ ?t = true =>
      apply In_bb_squares in H; [|solve [auto 10 with bb]]; bits_in H
  end.

Lemma generate_moves_lands V Pt Checks pos us target :
  bb_ok target -> Forall (lands_in target) (generate_moves V Pt Checks pos us target).
Proof. intros Hok. unfold generate_moves. lands_solve. Qed.

Lemma generate_king_moves_lands V Us Ty pos target :
  bb_ok target -> Forall (lands_in target) (generate_king_moves V Us Ty pos target).
Proof. intros Hok. unfold generate_king_moves. lands_solve. Qed.

Lemma generate_drops_lands Us Pt Checks pos b :
  bb_ok b -> Forall (lands_in b) (generate_drops Us Pt Checks pos b).
Proof. intros Hok. unfold generate_drops. lands_solve. Qed.

Lemma pawn_pushes_lands V Us Ty pos target :
  Ty = QUIET_CHECKS \/ V = ANTI_VARIANT ->
  bb_ok target -> Forall (lands_in target) (pawn_pushes V Us Ty pos target).
Proof.
  intros [->| ->] Hok; unfold pawn_pushes, push_emptySquares; simpl.
  - lands_solve.
  - lands_solve.
Qed.

Lemma lands_in_land_l (a b : Z) (m : Move) : lands_in (a .& b) m -> lands_in a m.
Proof.
  unfold lands_in. rewrite Z.land_spec. intros H. apply andb_prop in H. apply H.
Qed.

Lemma generate_all_drops_lands V Us Ty pos target :
  Ty = QUIET_CHECKS -> bb_ok target ->
  Forall (lands_in target) (generate_all_drops V Us Ty pos target).
Proof.
  intros -> Hok. unfold generate_all_drops. simpl.
  split_ifs; forall_walk;
    try (eapply Forall_impl; [|apply generate_drops_lands; auto with bb];
         intros m Hm; repeat apply lands_in_land_l in Hm; exact Hm).
Qed.

Lemma generate_all_castling_QUIET_CHECKS V Us pos :
  generate_all_castling V Us QUIET_CHECKS pos = [].
Proof. reflexivity. Qed.

Lemma generate_all_king_QUIET_CHECKS_lands V Us pos target :
  bb_ok target ->
  Forall (lands_in target) (generate_all_king V Us QUIET_CHECKS pos target).
Proof.
  intros Hok. unfold generate_all_king.
  destruct V; rewrite generate_all_castling_QUIET_CHECKS; simpl;
    forall_walk; auto using generate_king_moves_lands.
Qed.

Lemma make_promotions_QUIET_CHECKS V D to ksq :
  Forall knight_promotion (make_promotions V QUIET_CHECKS D to ksq).
Proof.
  unfold make_promotions. simpl. forall_walk; eexists; eexists; reflexivity.
Qed.

Lemma pawn_promotions_QUIET_CHECKS V Us pos target :
  Forall knight_promotion (pawn_promotions V Us QUIET_CHECKS pos target).
Proof.
  unfold pawn_promotions. forall_walk;
    apply Forall_forall; intros; apply make_promotions_QUIET_CHECKS.
Qed.

Lemma generate_all_QUIET_CHECKS_lands V Us pos target l :
  bb_ok target ->
  generate_all V Us QUIET_CHECKS pos target = Some l ->
  Forall (fun m => lands_in target m \/ knight_promotion m) l.
Proof.
  intros Hok. unfold generate_all, generate_pawn_moves.
  change (pawn_captures V Us QUIET_CHECKS pos target) with (Some (@nil Move)).
  destruct (Variant_eqb V CRAZYHOUSE_VARIANT && is_placement pos
            && nonzero (count_in_hand pos ALL_PIECES Us));
    intros [= <-]; forall_walk;
    first [ eapply Forall_impl; [intros m Hm; left; exact Hm|];
            solve [ auto using pawn_pushes_lands, generate_moves_lands,
                      generate_all_drops_lands, generate_all_king_QUIET_CHECKS_lands ]
          | eapply Forall_impl; [intros m Hm; right; exact Hm|];
            apply pawn_promotions_QUIET_CHECKS ].
Qed.

Lemma wf_them (pos : Position) (c : Color) (i : Z) :
  wf_position pos ->
  Z.testbit (pieces pos) i = false -> Z.testbit (pieces_c pos c) i = false.
Proof.
  intros (Hp & _ & _ & _) H. rewrite Hp, Z.lor_spec in H.
  apply orb_false_iff in H. destruct c; apply H.
Qed.

(** ** Quiet checks *)

(** C5, as amended.  Every move emitted by [generate<QUIET_CHECKS>] lands
    on an empty square, hence on no enemy piece, or is a knight promotion
    (which a pawn may make by capturing onto the last rank). *)
Theorem quiet_checks_destinations (pos : Position) (l : list Move)
    (Hwf : wf_position pos)
    (Hgen : generate QUIET_CHECKS pos = Some l) :
  Forall (fun m =>
            (Z.testbit (pieces pos) (to_sq m) = false
             /\ Z.testbit (pieces_c pos (Color_not (side_to_move pos))) (to_sq m) = false)
            \/ knight_promotion m) l.
Proof.
  assert (H : Forall (fun m => lands_in (.~ pieces pos) m \/ knight_promotion m) l).
  { revert Hgen. unfold generate, generate_QUIET_CHECKS.
    repeat match goal with
      | |- (if ?c then Some [] else _) = _ -> _ =>
          destruct c; [intros [= <-]; constructor|]
      end.
    destruct (nonzero (checkers pos)); [discriminate|].
    match goal with
    | |- match ?g with _ => _ end = _ -> _ => destruct g as [direct|] eqn:Hd; [|discriminate]
    end.
    apply generate_all_QUIET_CHECKS_lands in Hd; [|apply bb_ok_not].
    match goal with
    | |- Some (?d ++ _) = _ -> _ =>
        assert (Hdisc : Forall (lands_in (.~ pieces pos)) d) by lands_solve;
        revert Hdisc; generalize d
    end.
    intros disc Hdisc [= <-]. apply Forall_app. split; [|exact Hd].
    revert Hdisc. apply Forall_impl. intros m Hm. left. exact Hm. }
  revert H. apply Forall_impl. intros m [Hm|Hm]; [left|right; exact Hm].
  unfold lands_in in Hm. rewrite testbit_bb_not in Hm.
  destruct (Z.testbit (pieces pos) (to_sq m)) eqn:E; [discriminate|].
  split; [reflexivity|]. apply wf_them; assumption.
Qed.

Lemma quiet_checks_destinations_witness :
  wf_position pos_discovery
  /\ generate QUIET_CHECKS pos_discovery
     = Some [ make_move (sq 4 8) (sq 3 6); make_move (sq 4 8) (sq 5 6);
              make_move (sq 4 8) (sq 2 7); make_move (sq 4 8) (sq 6 7);
              make_move (sq 5 5) (sq 7 6); make_move (sq 5 5) (sq 6 7) ]
  /\ Forall (fun m =>
               (Z.testbit (pieces pos_discovery) (to_sq m) = false
                /\ Z.testbit (pieces_c pos_discovery BLACK) (to_sq m) = false)
               \/ knight_promotion m)
       [ make_move (sq 4 8) (sq 3 6); make_move (sq 4 8) (sq 5 6);
         make_move (sq 4 8) (sq 2 7); make_move (sq 4 8) (sq 6 7);
         make_move (sq 5 5) (sq 7 6); make_move (sq 5 5) (sq 6 7) ].
Proof.
  assert (Hwf : wf_position pos_discovery) by (repeat split; reflexivity).
  split; [exact Hwf|]. split; [reflexivity|].
  exact (quiet_checks_destinations pos_discovery _ Hwf eq_refl).
Defined.

(** C5 as stated fails: in [r7/1Pk5/8/8/8/8/8/4K3 w - - 0 1] White is not in
    check and [generate<QUIET_CHECKS>] emits b7xa8=N+, whose destination
    holds the black rook. *)
Lemma quiet_checks_capture_counterexample :
  checkers pos_knight_promotion = 0
  /\ generate QUIET_CHECKS pos_knight_promotion
     = Some [ make_PROMOTION (sq 2 7) (sq 1 8) KNIGHT ]
  /\ piece_on pos_knight_promotion (sq 1 8) = Some (BLACK, ROOK)
  /\ Z.testbit (pieces_c pos_knight_promotion BLACK) (sq 1 8) = true.
Proof. repeat split; vm_compute; reflexivity. Qed.

(** ** Mandatory captures in antichess *)

Section AntiCaptures.

Variables (Us : Color) (pos : Position) (target : Bitboard).

Hypothesis Hok : bb_ok target.
Hypothesis HE : bb_ok (pieces_c pos (Color_not Us)).
Hypothesis Hsub :
  forall i, Z.testbit target i = true
            -> Z.testbit (pieces_c pos (Color_not Us)) i = true.

Lemma lands_target_enemy (l : list Move) :
  Forall (lands_in target) l -> Forall (lands_in (pieces_c pos (Color_not Us))) l.
Proof. apply Forall_impl. intros m. apply Hsub. Qed.

Lemma anti_pawn_promotions_land (Ty : GenType) :
  Ty = CAPTURES \/ Ty = QUIETS \/ Ty = NON_EVASIONS ->
  Forall (lands_in (pieces_c pos (Color_not Us)))
         (pawn_promotions ANTI_VARIANT Us Ty pos target).
Proof.
  intros [->|[->| ->]];
    unfold pawn_promotions, promo_emptySquares, push_emptySquares, pawn_enemies,
      make_promotions; simpl; lands_solve.
Qed.

Lemma anti_pawn_captures_land (Ty : GenType) (l : list Move) :
  pawn_captures ANTI_VARIANT Us Ty pos target = Some l ->
  Forall (fun m => type_of m = ENPASSANT \/ lands_in (pieces_c pos (Color_not Us)) m) l.
Proof.
  unfold pawn_captures, pawn_enemies.
  destruct (GenType_in Ty [CAPTURES; EVASIONS; NON_EVASIONS]);
    [|intros [= <-]; constructor].
  change (Variant_eqb ANTI_VARIANT ATOMIC_VARIANT) with false. cbv iota.
  set (caps := map _ _ ++ map _ _).
  assert (Hcaps : Forall (fun m => type_of m = ENPASSANT
                                   \/ lands_in (pieces_c pos (Color_not Us)) m) caps).
  { subst caps. eapply Forall_impl; [intros m Hm; right; exact Hm|]. lands_solve. }
  clearbody caps.
  repeat match goal with
    | |- (if ?c then _ else _) = _ -> _ => destruct c
    end; intros [= <-]; try exact Hcaps.
  apply Forall_app. split; [exact Hcaps|].
  apply Forall_map, Forall_forall. intros from _. left. reflexivity.
Qed.

Lemma anti_generate_all_land (Ty : GenType) (l : list Move) :
  Ty = CAPTURES \/ Ty = QUIETS \/ Ty = NON_EVASIONS ->
  can_capture pos = true ->
  generate_all ANTI_VARIANT Us Ty pos target = Some l ->
  Forall (fun m => type_of m = ENPASSANT \/ lands_in (pieces_c pos (Color_not Us)) m) l.
Proof.
  intros HTy Hcc. unfold generate_all, generate_pawn_moves, generate_all_king.
  rewrite Hcc.
  change (Variant_eqb ANTI_VARIANT CRAZYHOUSE_VARIANT) with false. cbn [andb].
  replace (generate_all_drops ANTI_VARIANT Us Ty pos target) with (@nil Move)
    by (unfold generate_all_drops; reflexivity).
  destruct (pawn_captures ANTI_VARIANT Us Ty pos target) as [caps|] eqn:Hc;
    [|discriminate].
  apply anti_pawn_captures_land in Hc.
  intros [= <-]. forall_walk; try exact Hc;
    (eapply Forall_impl; [intros m Hm; right; exact Hm|]);
    first [ apply anti_pawn_promotions_land; exact HTy
          | apply lands_target_enemy;
            auto using pawn_pushes_lands, generate_moves_lands,
              generate_king_moves_lands ].
Qed.

End AntiCaptures.

(** C8, as amended.  Under ANTI, when [pos.can_capture()] holds, [generate]
    in CAPTURES, QUIETS and NON_EVASIONS mode hands the emitters a target
    inside the enemy pieces, and every move emitted lands on an enemy piece
    or is an en-passant capture (whose destination is the empty en-passant
    square). *)
Theorem anti_mandatory_captures (Ty : GenType) (pos : Position) (l : list Move)
    (Hwf : wf_position pos)
    (HTy : Ty = CAPTURES \/ Ty = QUIETS \/ Ty = NON_EVASIONS)
    (Hanti : is_anti pos = true)
    (Hcc : can_capture pos = true)
    (Hgen : generate Ty pos = Some l) :
  (exists target,
      target .& pieces_c pos (Color_not (side_to_move pos)) = target
      /\ generate_all ANTI_VARIANT (side_to_move pos) Ty pos target = Some l)
  /\ Forall (fun m => type_of m = ENPASSANT
                      \/ lands_in (pieces_c pos (Color_not (side_to_move pos))) m) l.
Proof.
  assert (HE : bb_ok (pieces_c pos (Color_not (side_to_move pos)))).
  { destruct Hwf as (_ & _ & Hw & Hb). destruct (side_to_move pos); assumption. }
  assert (Hg : generate Ty pos = generate_noncheck Ty pos)
    by (destruct HTy as [->|[->| ->]]; reflexivity).
  rewrite Hg in Hgen. unfold generate_noncheck in Hgen. rewrite Hanti, Hcc in Hgen.
  destruct (nonzero (checkers pos)); [discriminate|].
  match type of Hgen with
  | generate_all _ _ _ _ ?t = _ => set (target := t) in *
  end.
  assert (Hsub : forall i, Z.testbit target i = true
                           -> Z.testbit (pieces_c pos (Color_not (side_to_move pos))) i = true).
  { intros i Hi. subst target. rewrite Z.land_spec in Hi. apply andb_prop in Hi. apply Hi. }
  split.
  - exists target. split; [|exact Hgen].
    subst target. rewrite <- Z.land_assoc, Z.land_diag. reflexivity.
  - eapply anti_generate_all_land with (target := target); eauto.
    subst target. auto with bb.
Qed.

Lemma anti_mandatory_captures_witness :
  wf_position pos_anti_capture
  /\ is_anti pos_anti_capture = true
  /\ can_capture pos_anti_capture = true
  /\ generate CAPTURES pos_anti_capture = Some [ make_move (sq 5 5) (sq 6 6) ]
  /\ Forall (fun m => type_of m = ENPASSANT
                      \/ lands_in (pieces_c pos_anti_capture BLACK) m)
       [ make_move (sq 5 5) (sq 6 6) ].
Proof.
  assert (Hwf : wf_position pos_anti_capture) by (repeat split; reflexivity).
  split; [exact Hwf|]. split; [reflexivity|]. split; [reflexivity|].
  split; [reflexivity|].
  exact (proj2 (anti_mandatory_captures CAPTURES pos_anti_capture _ Hwf
                  (or_introl eq_refl) eq_refl eq_refl eq_refl)).
Defined.

(** C8 as stated fails: in the antichess position
    [4k3/8/5p2/3pP3/8/8/8/4K3 w - d6 0 1], where a capture exists,
    [generate<CAPTURES>] and [generate<NON_EVASIONS>] emit the en-passant
    capture e5xd6, whose destination d6 is empty. *)
Lemma anti_en_passant_counterexample :
  is_anti pos_anti_ep = true
  /\ can_capture pos_anti_ep = true
  /\ generate CAPTURES pos_anti_ep
     = Some [ make_move (sq 5 5) (sq 6 6); make_ENPASSANT (sq 5 5) (sq 4 6) ]
  /\ generate NON_EVASIONS pos_anti_ep
     = Some [ make_move (sq 5 5) (sq 6 6); make_ENPASSANT (sq 5 5) (sq 4 6) ]
  /\ piece_on pos_anti_ep (sq 4 6) = None
  /\ Z.testbit (pieces_c pos_anti_ep BLACK) (sq 4 6) = false.
Proof. repeat split; vm_compute; reflexivity. Qed.

(** ** Splitting move lists *)

Lemma msplit_Permutation (c q n : list Move) :
  msplit c q n <-> Permutation (c ++ q) n.
Proof.
  unfold msplit. rewrite (Permutation_count_occ Move_eq_dec).
  split; intros H m; specialize (H m); rewrite count_occ_app in *; exact H.
Qed.

Lemma msplit_nil : msplit [] [] [].
Proof. intros m. reflexivity. Qed.

Lemma msplit_left (l : list Move) : msplit l [] l.
Proof. intros m. simpl. lia. Qed.

Lemma msplit_right (l : list Move) : msplit [] l l.
Proof. intros m. reflexivity. Qed.

Lemma msplit_app (c1 q1 n1 c2 q2 n2 : list Move) :
  msplit c1 q1 n1 -> msplit c2 q2 n2 -> msplit (c1 ++ c2) (q1 ++ q2) (n1 ++ n2).
Proof.
  intros H1 H2 m. specialize (H1 m). specialize (H2 m).
  rewrite !count_occ_app. lia.
Qed.

Lemma msplit_flat_map {A} (f g h : A -> list Move) (l : list A) :
  (forall x, In x l -> msplit (f x) (g x) (h x)) ->
  msplit (flat_map f l) (flat_map g l) (flat_map h l).
Proof.
  induction l as [|a l IH]; intros H; [apply msplit_nil|].
  simpl. apply msplit_app; [apply H; left; reflexivity|].
  apply IH. intros x Hx. apply H. right. exact Hx.
Qed.

Lemma filter_split_Permutation {A} (f g : A -> bool) (l : list A) :
  (forall x, In x l -> f x && g x = false) ->
  Permutation (filter f l ++ filter g l) (filter (fun x => f x || g x) l).
Proof.
  induction l as [|a l IH]; intros H; [constructor|].
  assert (IH' := IH (fun x Hx => H x (or_intror Hx))).
  assert (Ha := H a (or_introl eq_refl)).
  simpl. destruct (f a), (g a); simpl in *; try discriminate.
  - constructor. exact IH'.
  - etransitivity; [apply Permutation_sym, Permutation_middle|].
    constructor. exact IH'.
  - exact IH'.
Qed.

(** The squares of a disjoint union are those of its two parts. *)
Lemma bb_squares_split (c q n : Bitboard) :
  bb_split c q n -> Permutation (bb_squares c ++ bb_squares q) (bb_squares n).
Proof.
  intros (Hc & Hq & Hd & ->).
  rewrite !bb_squares_filter by auto with bb.
  etransitivity; [apply filter_split_Permutation|].
  - intros x _. rewrite <- Z.land_spec, Hd. apply Z.bits_0.
  - erewrite filter_ext; [reflexivity|]. intros x. symmetry. apply Z.lor_spec.
Qed.

Lemma msplit_map_bb (f : Square -> Move) (c q n : Bitboard) :
  bb_split c q n ->
  msplit (map f (bb_squares c)) (map f (bb_squares q)) (map f (bb_squares n)).
Proof.
  intros H. apply msplit_Permutation. rewrite <- map_app.
  apply Permutation_map, bb_squares_split, H.
Qed.

Lemma bb_split_land (a c q n : Bitboard) :
  bb_split c q n -> bb_split (a .& c) (a .& q) (a .& n).
Proof.
  intros (Hc & Hq & Hd & ->). repeat split; auto with bb.
  - rewrite (Z.land_comm a q), Z.land_assoc, <- (Z.land_assoc a c q), Hd.
    rewrite Z.land_0_r. reflexivity.
  - apply Z.land_lor_distr_r.
Qed.

Lemma bb_squares_0 : bb_squares 0 = [].
Proof. reflexivity. Qed.

(** ** Bitboard equations, bit by bit

    [bb_blast] proves an equation between bitboards built with [&], [|],
    [^] and [~] from the equations between bitboards in the context. *)

Lemma testbit_eq (a b i : Z) : a = b -> Z.testbit a i = Z.testbit b i.
Proof. intros ->. reflexivity. Qed.

Ltac bb_bits :=
  repeat (rewrite Z.land_spec || rewrite Z.lor_spec || rewrite Z.lxor_spec
          || rewrite testbit_bb_not || rewrite testbit_AllSquares
          || rewrite Z.bits_0).

Ltac bb_blast :=
  repeat match goal with
    | H : bb_ok _ |- _ => unfold bb_ok in H
    end;
  apply Z.bits_inj';
  let i := fresh "i" in
  let Hi := fresh "Hi" in
  intros i Hi;
  repeat match goal with
    | H : @eq ?T ?a ?b |- _ =>
        let T' := eval hnf in T in
        constr_eq T' Z; apply (testbit_eq a b i) in H; revert H
    end;
  bb_bits;
  repeat match goal with
    | |- context [Z.testbit ?a i] => destruct (Z.testbit a i)
    end;
  (destruct (Z.leb_spec 0 i); [|lia]);
  destruct (Z.ltb_spec i 64);
  cbn [andb orb negb xorb]; intros; congruence.


(** Tests on known generation types and variants are evaluated. *)
Ltac eval_tests :=
  repeat match goal with
    | |- context [GenType_eqb ?a ?b] =>
        let v := eval vm_compute in (GenType_eqb a b) in
        lazymatch v with true => idtac | false => idtac end;
        change (GenType_eqb a b) with v
    | |- context [GenType_in ?a ?l] =>
        let v := eval vm_compute in (GenType_in a l) in
        lazymatch v with true => idtac | false => idtac end;
        change (GenType_in a l) with v
    | |- context [Variant_eqb ?a ?b] =>
        let v := eval vm_compute in (Variant_eqb a b) in
        lazymatch v with true => idtac | false => idtac end;
        change (Variant_eqb a b) with v
    end;
  cbn [andb orb negb].

(** ** Captures and quiets partition the non-evasions *)

Lemma generate_all_castling_CAPTURES V Us pos :
  generate_all_castling V Us CAPTURES pos = [].
Proof.
  unfold generate_all_castling. eval_tests.
  destruct (Variant_eqb V LOSERS_VARIANT && can_capture_losers pos); reflexivity.
Qed.

Lemma generate_all_castling_QUIETS V Us pos :
  generate_all_castling V Us QUIETS pos = generate_all_castling V Us NON_EVASIONS pos.
Proof. reflexivity. Qed.

Lemma generate_moves_msplit V Pt pos us tC tQ tN :
  bb_split tC tQ tN ->
  msplit (generate_moves V Pt false pos us tC) (generate_moves V Pt false pos us tQ)
         (generate_moves V Pt false pos us tN).
Proof.
  intros H. unfold generate_moves. apply msplit_flat_map. intros from _.
  cbn [andb]. apply msplit_map_bb, bb_split_land, H.
Qed.

Lemma generate_king_moves_msplit V Us pos tC tQ tN :
  bb_split tC tQ tN ->
  msplit (generate_king_moves V Us CAPTURES pos tC)
         (generate_king_moves V Us QUIETS pos tQ)
         (generate_king_moves V Us NON_EVASIONS pos tN).
Proof.
  intros H. unfold generate_king_moves. apply msplit_flat_map. intros ksq _.
  apply msplit_map_bb, bb_split_land, H.
Qed.

(** The promotions of one pawn: queen in CAPTURES, the others in QUIETS. *)
Lemma make_promotions_msplit V D to ksq :
  V <> ANTI_VARIANT -> V <> LOSERS_VARIANT ->
  msplit (make_promotions V CAPTURES D to ksq) (make_promotions V QUIETS D to ksq)
         (make_promotions V NON_EVASIONS D to ksq).
Proof.
  intros Ha Hl. apply msplit_Permutation.
  destruct V; try congruence; unfold make_promotions; eval_tests;
    try destruct (ksq =? SQ_NONE); reflexivity.
Qed.

Lemma make_promotions_QUIETS_same V D to ksq :
  V = ANTI_VARIANT \/ V = LOSERS_VARIANT ->
  make_promotions V QUIETS D to ksq = make_promotions V NON_EVASIONS D to ksq.
Proof. intros [->| ->]; reflexivity. Qed.

Section Partition.

Variables (V : Variant) (Us : Color) (pos : Position) (tC tQ tN : Bitboard).

Hypothesis Hsplit : bb_split tC tQ tN.
Hypothesis HeC :
  pawn_enemies V Us CAPTURES pos tC = pawn_enemies V Us NON_EVASIONS pos tN.
Hypothesis HeQ :
  pawn_enemies V Us QUIETS pos tQ = pawn_enemies V Us NON_EVASIONS pos tN.
Hypothesis Hpush :
  V <> LOSERS_VARIANT ->
  push_emptySquares V QUIETS pos tQ = push_emptySquares V NON_EVASIONS pos tN.
Hypothesis Hlosers :
  V = LOSERS_VARIANT ->
  (push_emptySquares V QUIETS pos tQ = push_emptySquares V NON_EVASIONS pos tN
   /\ push_emptySquares V NON_EVASIONS pos tN .& tQ
      = push_emptySquares V NON_EVASIONS pos tN .& tN)
  \/ (push_emptySquares V QUIETS pos tQ .& tQ = 0
      /\ push_emptySquares V NON_EVASIONS pos tN .& tN = 0).
Hypothesis HpromoQ :
  promo_emptySquares V QUIETS pos tQ = promo_emptySquares V NON_EVASIONS pos tN.
Hypothesis HpromoC :
  (V <> ANTI_VARIANT /\ V <> LOSERS_VARIANT
   /\ promo_emptySquares V CAPTURES pos tC = promo_emptySquares V NON_EVASIONS pos tN)
  \/ ((V = ANTI_VARIANT \/ V = LOSERS_VARIANT)
      /\ promo_emptySquares V CAPTURES pos tC = 0
      /\ shift (UpRight Us) (pawnsOn7 Us pos)
         .& pawn_enemies V Us NON_EVASIONS pos tN = 0
      /\ shift (UpLeft Us) (pawnsOn7 Us pos)
         .& pawn_enemies V Us NON_EVASIONS pos tN = 0).
Hypothesis Hdrops :
  V = CRAZYHOUSE_VARIANT -> tQ = tN .^ pieces_c pos (Color_not Us).
Hypothesis Hking :
  bb_split (default_king_bb V Us CAPTURES pos tC)
           (default_king_bb V Us QUIETS pos tQ)
           (default_king_bb V Us NON_EVASIONS pos tN).

Lemma pawn_pushes_partition :
  pawn_pushes V Us CAPTURES pos tC = []
  /\ pawn_pushes V Us QUIETS pos tQ = pawn_pushes V Us NON_EVASIONS pos tN.
Proof.
  split; [reflexivity|]. unfold pawn_pushes. eval_tests.
  destruct (Variant_eqb V LOSERS_VARIANT) eqn:Hl.
  - apply Variant_eqb_eq in Hl.
    destruct (Hlosers Hl) as [[He Ht]|[HQ HN]].
    + rewrite He. set (e := push_emptySquares V NON_EVASIONS pos tN) in *.
      assert (H : forall x, x .& e .& tQ = x .& e .& tN).
      { intros x. rewrite <- !Z.land_assoc, Ht. reflexivity. }
      destruct (Variant_eqb V HORDE_VARIANT); rewrite !H; reflexivity.
    + assert (H1 : forall x, x .& push_emptySquares V QUIETS pos tQ .& tQ = 0).
      { intros x. rewrite <- Z.land_assoc, HQ. apply Z.land_0_r. }
      assert (H2 : forall x, x .& push_emptySquares V NON_EVASIONS pos tN .& tN = 0).
      { intros x. rewrite <- Z.land_assoc, HN. apply Z.land_0_r. }
      destruct (Variant_eqb V HORDE_VARIANT); rewrite !H1, !H2; reflexivity.
  - rewrite Hpush; [reflexivity|]. intros ->. discriminate Hl.
Qed.

Lemma pawn_promotions_partition :
  msplit (pawn_promotions V Us CAPTURES pos tC) (pawn_promotions V Us QUIETS pos tQ)
         (pawn_promotions V Us NON_EVASIONS pos tN).
Proof.
  unfold pawn_promotions. rewrite HeC, HeQ, HpromoQ.
  destruct (nonzero (pawnsOn7 Us pos)); [|apply msplit_nil].
  destruct HpromoC as [(Ha & Hl & ->)|(HV & -> & -> & ->)].
  - repeat apply msplit_app; apply msplit_flat_map; intros to _;
      apply make_promotions_msplit; assumption.
  - rewrite Z.land_0_r, bb_squares_0. cbn [flat_map app].
    erewrite flat_map_ext; [apply msplit_right|].
    intros to. apply make_promotions_QUIETS_same, HV.
Qed.

Lemma pawn_captures_partition :
  pawn_captures V Us QUIETS pos tQ = Some []
  /\ pawn_captures V Us CAPTURES pos tC = pawn_captures V Us NON_EVASIONS pos tN.
Proof.
  split; [reflexivity|]. unfold pawn_captures. eval_tests. rewrite HeC. reflexivity.
Qed.

Lemma generate_all_drops_partition :
  generate_all_drops V Us CAPTURES pos tC = []
  /\ generate_all_drops V Us QUIETS pos tQ
     = generate_all_drops V Us NON_EVASIONS pos tN.
Proof.
  unfold generate_all_drops. eval_tests. rewrite andb_false_r.
  split; [reflexivity|].
  destruct (Variant_eqb V CRAZYHOUSE_VARIANT) eqn:Hv; cbn [andb]; [|reflexivity].
  apply Variant_eqb_eq in Hv. rewrite (Hdrops Hv). reflexivity.
Qed.

Lemma generate_all_king_partition :
  msplit (generate_all_king V Us CAPTURES pos tC) (generate_all_king V Us QUIETS pos tQ)
         (generate_all_king V Us NON_EVASIONS pos tN).
Proof.
  unfold generate_all_king.
  rewrite generate_all_castling_CAPTURES, generate_all_castling_QUIETS.
  assert (Hdef : msplit
            (map (make_move (square_KING pos Us))
                 (bb_squares (default_king_bb V Us CAPTURES pos tC)) ++ [])
            (map (make_move (square_KING pos Us))
                 (bb_squares (default_king_bb V Us QUIETS pos tQ))
             ++ generate_all_castling V Us NON_EVASIONS pos)
            (map (make_move (square_KING pos Us))
                 (bb_squares (default_king_bb V Us NON_EVASIONS pos tN))
             ++ generate_all_castling V Us NON_EVASIONS pos)).
  { apply msplit_app; [apply msplit_map_bb, Hking|apply msplit_right]. }
  destruct V; try exact Hdef; eval_tests;
    (apply msplit_app; [apply generate_king_moves_msplit, Hsplit|]);
    try apply msplit_right.
  destruct (can_capture pos); [apply msplit_nil|apply msplit_right].
Qed.

Lemma generate_all_partition :
  partition_outcome (generate_all V Us CAPTURES pos tC)
                    (generate_all V Us QUIETS pos tQ)
                    (generate_all V Us NON_EVASIONS pos tN).
Proof.
  unfold generate_all, generate_pawn_moves.
  destruct pawn_captures_partition as [HcQ HcC].
  destruct pawn_pushes_partition as [HpC HpQ].
  destruct generate_all_drops_partition as [HdC HdQ].
  rewrite HcQ, HcC, HpC, HpQ, HdC, HdQ.
  assert (Hrest : msplit
            (if is_horde pos && is_horde_color pos Us then []
             else generate_all_king V Us CAPTURES pos tC)
            (if is_horde pos && is_horde_color pos Us then []
             else generate_all_king V Us QUIETS pos tQ)
            (if is_horde pos && is_horde_color pos Us then []
             else generate_all_king V Us NON_EVASIONS pos tN)).
  { destruct (is_horde pos && is_horde_color pos Us);
      [apply msplit_nil|apply generate_all_king_partition]. }
  destruct (Variant_eqb V CRAZYHOUSE_VARIANT && is_placement pos
            && nonzero (count_in_hand pos ALL_PIECES Us)).
  - cbn [partition_outcome]. apply msplit_Permutation.
    apply msplit_app; [apply msplit_nil|].
    apply msplit_app; [apply msplit_right|exact Hrest].
  - destruct (pawn_captures V Us NON_EVASIONS pos tN) as [caps|];
      cbn [partition_outcome]; [|exact I].
    apply msplit_Permutation.
    apply msplit_app; [apply msplit_app|].
    + apply msplit_app; [apply msplit_right|].
      apply msplit_app; [apply pawn_promotions_partition|apply msplit_left].
    + repeat (apply msplit_app; [apply generate_moves_msplit, Hsplit|]).
      apply generate_moves_msplit, Hsplit.
    + apply msplit_app; [apply msplit_right|exact Hrest].
Qed.

End Partition.

Lemma generate_noncheck_target (Ty : GenType) (pos : Position) :
  checkers pos = 0 ->
  generate_noncheck Ty pos
  = generate_all (var pos) (side_to_move pos) Ty pos (noncheck_target Ty pos).
Proof.
  intros H. unfold generate_noncheck, noncheck_target, is_anti, is_atomic, is_house,
    is_extinction, is_grid, is_horde, is_losers, is_race, is_two_kings.
  rewrite H. change (nonzero 0) with false. cbv iota.
  destruct (var pos); eval_tests; reflexivity.
Qed.

(** The facts about the three targets that the partition rests on, variant
    by variant. *)
Ltac partition_fact :=
  lazymatch goal with
  | |- bb_split _ _ _ =>
      repeat split; [auto 10 with bb|auto 10 with bb|bb_blast|bb_blast]
  | |- _ <> _ -> _ =>
      let H := fresh in
      intros H; first [ exfalso; apply H; reflexivity | bb_blast ]
  | |- _ = _ -> _ \/ _ =>
      let H := fresh in
      intros H; first [ discriminate H
                      | left; split; bb_blast
                      | right; split; bb_blast ]
  | |- _ = _ -> _ =>
      let H := fresh in
      intros H; first [ discriminate H | bb_blast ]
  | |- _ = _ => bb_blast
  end.

Ltac partition_promotion_fact :=
  first [ left; split; [discriminate|]; split; [discriminate|]; bb_blast
        | right; split; [auto|]; repeat split; bb_blast ].

Lemma pawn_captures_without_ep V Us Ty pos target :
  ep_square pos = SQ_NONE -> pawn_captures V Us Ty pos target <> None.
Proof.
  intros Hep. unfold pawn_captures. rewrite Hep. change (SQ_NONE =? SQ_NONE) with true.
  cbn [negb]. destruct (GenType_in Ty _); discriminate.
Qed.

Lemma generate_all_without_ep V Us Ty pos target :
  ep_square pos = SQ_NONE -> generate_all V Us Ty pos target <> None.
Proof.
  intros Hep. unfold generate_all, generate_pawn_moves.
  pose proof (pawn_captures_without_ep V Us Ty pos target Hep) as H.
  destruct (pawn_captures V Us Ty pos target); [|congruence].
  destruct (_ && _ && _); discriminate.
Qed.

(** C1, as amended.  For every position that is not in check, and in which,
    under ANTI or LOSERS, no pawn on its seventh rank attacks an enemy piece,
    the moves of [generate<CAPTURES>] and of [generate<QUIETS>] together are
    the moves of [generate<NON_EVASIONS>], as multisets.  The captures and
    the non-evasions run into the same assertions of the en-passant branch:
    when one stops there, so does the other; without an en-passant square
    all three generators return. *)
Theorem generate_partition (pos : Position)
    (Hwf : wf_position pos)
    (Hchk : checkers pos = 0)
    (Hpromo : is_anti pos || is_losers pos = true -> promotion_captures pos = 0) :
  partition_outcome (generate CAPTURES pos) (generate QUIETS pos)
                    (generate NON_EVASIONS pos)
  /\ (ep_square pos = SQ_NONE ->
      exists c q n,
        generate CAPTURES pos = Some c /\ generate QUIETS pos = Some q
        /\ generate NON_EVASIONS pos = Some n /\ Permutation (c ++ q) n).
Proof.
  assert (Hout : partition_outcome (generate CAPTURES pos) (generate QUIETS pos)
                                   (generate NON_EVASIONS pos)).
  { unfold generate. rewrite !generate_noncheck_target by exact Hchk.
    destruct Hwf as (Hp & Hd & HW & HB).
    unfold is_anti, is_losers, promotion_captures in Hpromo.
    apply generate_all_partition; revert Hpromo;
      unfold noncheck_target, pawn_enemies, promo_emptySquares, push_emptySquares,
        default_king_bb;
      rewrite ?Hchk; change (nonzero 0) with false; clear Hchk;
      destruct (var pos); destruct (side_to_move pos); cbn [Color_not];
      eval_tests; intros Hpromo;
      first [specialize (Hpromo eq_refl)|clear Hpromo];
      split_ifs;
      lazymatch goal with
      | |- _ \/ _ => partition_promotion_fact
      | |- _ => try clear Hpromo; partition_fact
      end. }
  split; [exact Hout|]. intros Hep.
  assert (Hc : generate CAPTURES pos <> None).
  { unfold generate. rewrite generate_noncheck_target by exact Hchk.
    apply generate_all_without_ep, Hep. }
  destruct (generate CAPTURES pos) as [c|]; [|congruence].
  destruct (generate QUIETS pos) as [q|]; [|contradiction].
  destruct (generate NON_EVASIONS pos) as [n|]; [|contradiction].
  exists c, q, n. repeat split; try reflexivity. exact Hout.
Qed.

Lemma generate_partition_witness :
  wf_position pos_anti_capture
  /\ checkers pos_anti_capture = 0
  /\ is_anti pos_anti_capture || is_losers pos_anti_capture = true
  /\ promotion_captures pos_anti_capture = 0
  /\ generate CAPTURES pos_anti_capture = Some [ make_move (sq 5 5) (sq 6 6) ]
  /\ generate QUIETS pos_anti_capture = Some []
  /\ partition_outcome (generate CAPTURES pos_anti_capture)
                       (generate QUIETS pos_anti_capture)
                       (generate NON_EVASIONS pos_anti_capture).
Proof.
  assert (Hwf : wf_position pos_anti_capture) by (repeat split; reflexivity).
  split; [exact Hwf|]. repeat (split; [reflexivity|]).
  exact (proj1 (generate_partition pos_anti_capture Hwf eq_refl (fun _ => eq_refl))).
Defined.

(** C1 as stated fails in antichess: in [r3k3/1P6/8/8/8/8/8/4K3 w - - 0 1],
    not in check, the five promotions of b7xa8 are emitted by
    [generate<CAPTURES>] and again by [generate<QUIETS>], but once only by
    [generate<NON_EVASIONS>]. *)
Lemma generate_partition_anti_counterexample :
  checkers pos_anti_promotion = 0
  /\ generate CAPTURES pos_anti_promotion
     = Some [ make_PROMOTION (sq 2 7) (sq 1 8) QUEEN; make_PROMOTION (sq 2 7) (sq 1 8) ROOK;
              make_PROMOTION (sq 2 7) (sq 1 8) BISHOP;
              make_PROMOTION (sq 2 7) (sq 1 8) KNIGHT;
              make_PROMOTION (sq 2 7) (sq 1 8) KING ]
  /\ generate QUIETS pos_anti_promotion = generate CAPTURES pos_anti_promotion
  /\ generate NON_EVASIONS pos_anti_promotion = generate CAPTURES pos_anti_promotion
  /\ ~ partition_outcome (generate CAPTURES pos_anti_promotion)
                         (generate QUIETS pos_anti_promotion)
                         (generate NON_EVASIONS pos_anti_promotion).
Proof.
  repeat (split; [reflexivity|]).
  vm_compute. intros H. apply Permutation_length in H. discriminate H.
Qed.

(** ** The assertion of the en-passant branch *)

(** Once the en-passant branch is reached, [assert(b1)] holds exactly when
    a pawn of the side to move that is not on its seventh rank attacks the
    en-passant square, and then one ENPASSANT move per such pawn is
    emitted after the captures. *)
Lemma en_passant_assertion V Us Ty pos target :
  GenType_in Ty [CAPTURES; EVASIONS; NON_EVASIONS] = true ->
  ep_square pos <> SQ_NONE ->
  rank_of (ep_square pos) = relative_rank Us RANK_6 ->
  (Ty = EVASIONS ->
   nonzero (target .& square_bb (ep_square pos - pawn_push Us)) = true) ->
  let b1 := pawnsNotOn7 Us pos .& attacks_from_PAWN pos (ep_square pos) (Color_not Us) in
  if nonzero b1 then
    exists captures,
      pawn_captures V Us Ty pos target
      = Some (captures ++ map (fun from => make_ENPASSANT from (ep_square pos))
                              (bb_squares b1))
      /\ bb_squares b1 <> []
  else pawn_captures V Us Ty pos target = None.
Proof.
  intros HTy Hep Hrank Hev b1. unfold pawn_captures. rewrite HTy.
  apply Z.eqb_neq in Hep. rewrite Hep. apply Z.eqb_eq in Hrank. rewrite Hrank.
  cbn [negb].
  assert (Hgate : GenType_eqb Ty EVASIONS
                  && negb (nonzero (target .& square_bb (ep_square pos - pawn_push Us)))
                  = false).
  { destruct (GenType_eqb Ty EVASIONS) eqn:E; [|reflexivity].
    apply GenType_eqb_eq in E. rewrite (Hev E). reflexivity. }
  rewrite Hgate. fold b1. destruct (nonzero b1) eqn:Hb; [|reflexivity].
  eexists. split; [reflexivity|].
  assert (Hok : bb_ok b1) by (unfold b1, pawnsNotOn7; auto with bb).
  rewrite bb_squares_filter by exact Hok. intros Hnil.
  apply nonzero_true in Hb. apply Hb. apply bb_zero_of_bits; [exact Hok|].
  intros i Hi. destruct (Z.testbit b1 i) eqn:E; [|reflexivity].
  assert (Hin : In i (filter (Z.testbit b1) all_squares)) by (apply filter_In; auto).
  rewrite Hnil in Hin. destruct Hin.
Qed.

(** * Further properties *)

(** ** Where pawn moves start *)

Lemma shift_spec (D : Direction) (b : Bitboard) (t : Z) :
  Z.testbit (shift D b) t = true -> Z.testbit b (t - D) = true.
Proof.
  unfold shift. rewrite Z.land_spec, testbit_AllSquares. intros H.
  apply andb_prop in H as [H Hr]. apply andb_prop in Hr as [Hr _].
  apply Z.leb_le in Hr. revert H.
  unfold NORTH, SOUTH, EAST, WEST, NORTH_EAST, NORTH_WEST, SOUTH_EAST, SOUTH_WEST.
  repeat match goal with
    | |- Z.testbit (if ?c then _ else _) _ = _ -> _ =>
        let E := fresh in destruct c eqn:E; [apply Z.eqb_eq in E; subst D|clear E]
    end;
    rewrite ?Z.shiftl_spec, ?Z.shiftr_spec, ?Z.land_spec by exact Hr;
    try (rewrite Z.bits_0; discriminate);
    intros H; try (apply andb_prop in H as [H _]);
    match goal with
    | H : Z.testbit b ?x = true |- Z.testbit b ?y = true =>
        replace y with x by lia; exact H
    end.
Qed.

Ltac bits_split :=
  repeat match goal with
    | H : Z.testbit (_ .& _) _ = true |- _ =>
        rewrite Z.land_spec in H; apply andb_prop in H; destruct H
    | H : Z.testbit (_ .| _) _ = true |- _ =>
        rewrite Z.lor_spec in H; apply orb_prop in H; destruct H
    | H : Z.testbit (shift _ _) _ = true |- _ => apply shift_spec in H
    | H : Z.testbit (.~ _) _ = true |- _ =>
        rewrite testbit_bb_not in H; apply andb_prop in H; destruct H as [H _];
        apply andb_prop in H; destruct H as [H _]; apply negb_true_iff in H
    end.

Lemma bb_ok_pawnsNotOn7 Us pos : bb_ok (pawnsNotOn7 Us pos).
Proof. unfold pawnsNotOn7. auto with bb. Qed.

#[local] Hint Resolve bb_ok_pawnsNotOn7 : bb.

Ltac pawn_leaf :=
  match goal with
  | H : In ?t (bb_squares _) |- _ =>
      apply In_bb_squares in H; [|solve [auto 10 with bb]];
      bits_split; unfold pawnsNotOn7, pawnsOn7 in *; bits_split
  end.

Lemma pawn_pushes_shape V Us Ty pos target :
  Forall (pawn_move_shape Us pos) (pawn_pushes V Us Ty pos target).
Proof.
  unfold pawn_pushes, push_emptySquares. split_ifs; cbv iota;
    repeat (forall_walk; try (apply Forall_forall; intros ? ?));
    pawn_leaf; unfold pawn_move_shape; cbn [from_sq];
    (split; [assumption|split; [assumption|]]);
    first [ left; lia | right; left; lia ].
Qed.

Lemma make_promotions_from V Ty D to ksq :
  Forall (fun m => exists pt, m = make_PROMOTION (to - D) to pt)
         (make_promotions V Ty D to ksq).
Proof.
  unfold make_promotions. forall_walk; eexists; reflexivity.
Qed.

Lemma pawn_promotions_shape V Us Ty pos target :
  Forall (pawn_move_shape Us pos) (pawn_promotions V Us Ty pos target).
Proof.
  unfold pawn_promotions.
  destruct (nonzero (pawnsOn7 Us pos)); [|constructor].
  repeat (apply Forall_app; split);
    apply Forall_flat_map, Forall_forall; intros to Hto;
    (eapply Forall_impl; [|apply make_promotions_from]);
    intros m [pt ->]; pawn_leaf; unfold pawn_move_shape; cbn [from_sq];
    (split; [assumption|split; [assumption|]]);
    first [ left; lia | right; left; lia | right; right; left; lia ].
Qed.

Lemma pawn_captures_shape V Us Ty pos target l :
  pawn_captures V Us Ty pos target = Some l ->
  Forall (pawn_move_shape Us pos) l.
Proof.
  unfold pawn_captures.
  destruct (GenType_in Ty [CAPTURES; EVASIONS; NON_EVASIONS]);
    [|intros [= <-]; constructor].
  set (caps := map _ _ ++ map _ _).
  assert (Hcaps : Forall (pawn_move_shape Us pos) caps).
  { subst caps. apply Forall_app; split; apply Forall_map, Forall_forall;
      intros to Hto; pawn_leaf; unfold pawn_move_shape; cbn [from_sq];
      (split; [assumption|split; [assumption|]]);
      first [ right; right; left; lia | right; right; right; left; lia ]. }
  clearbody caps.
  repeat match goal with
    | |- (if ?c then _ else _) = _ -> _ => destruct c
    end; intros [= <-]; try exact Hcaps.
  apply Forall_app. split; [exact Hcaps|].
  apply Forall_map, Forall_forall. intros from Hfrom. pawn_leaf.
  unfold pawn_move_shape. cbn [from_sq]. auto.
Qed.

(** X1.  Every move of the pawn emitter starts at a pawn of the side to move.  A
    plain move starts off the seventh rank and goes one or two squares up or
    one square up and to a side; a promotion starts on the seventh rank; an
    en-passant capture starts off the seventh rank and goes to the
    en-passant square.  The pawn emitter makes no other kind of move. *)
Theorem pawn_moves_start_at_pawns V Us Ty pos target l :
  generate_pawn_moves V Us Ty pos target = Some l ->
  Forall (pawn_move_shape Us pos) l.
Proof.
  unfold generate_pawn_moves.
  destruct (pawn_captures V Us Ty pos target) as [caps|] eqn:Hc; [|discriminate].
  intros [= <-]. apply pawn_captures_shape in Hc.
  repeat (apply Forall_app; split);
    auto using pawn_pushes_shape, pawn_promotions_shape.
Qed.

Lemma pawn_moves_start_at_pawns_witness :
  generate_pawn_moves ANTI_VARIANT WHITE CAPTURES pos_anti_ep (pieces_c pos_anti_ep BLACK)
  = Some [ make_move (sq 5 5) (sq 6 6); make_ENPASSANT (sq 5 5) (sq 4 6) ]
  /\ Forall (pawn_move_shape WHITE pos_anti_ep)
       [ make_move (sq 5 5) (sq 6 6); make_ENPASSANT (sq 5 5) (sq 4 6) ].
Proof.
  split; [reflexivity|].
  exact (pawn_moves_start_at_pawns ANTI_VARIANT WHITE CAPTURES pos_anti_ep
           (pieces_c pos_anti_ep BLACK) _ eq_refl).
Defined.

(** The origin and the kind of a pawn move. *)
Lemma pawn_move_shape_kind Us pos m :
  pawn_move_shape Us pos m ->
  Z.testbit (pieces_cp pos Us PAWN) (from_sq m) = true
  /\ (type_of m = NORMAL \/ type_of m = PROMOTION \/ type_of m = ENPASSANT).
Proof. intros [Hf H]. split; [exact Hf|]. destruct m; simpl; auto; contradiction. Qed.

Lemma generate_pawn_moves_origin V Us Ty pos target l :
  generate_pawn_moves V Us Ty pos target = Some l ->
  Forall (fun m =>
            Z.testbit (pieces_cp pos Us PAWN) (from_sq m) = true
            /\ (type_of m = NORMAL \/ type_of m = PROMOTION \/ type_of m = ENPASSANT)) l.
Proof.
  unfold generate_pawn_moves.
  destruct (pawn_captures V Us Ty pos target) as [caps|] eqn:Hc; [|discriminate].
  intros [= <-]. apply pawn_captures_shape in Hc.
  repeat (apply Forall_app; split);
    (eapply Forall_impl; [intros m; apply pawn_move_shape_kind|]);
    auto using pawn_pushes_shape, pawn_promotions_shape.
Qed.

(** ** The emitters of [generate_all], one by one *)

(** What holds of the moves of every emitter holds of the moves of
    [generate_all]. *)
Lemma generate_all_Forall (P : Move -> Prop) V Us Ty pos target l :
  generate_all V Us Ty pos target = Some l ->
  (forall lp, generate_pawn_moves V Us Ty pos target = Some lp -> Forall P lp) ->
  (forall Pt, In Pt [KNIGHT; BISHOP; ROOK; QUEEN] ->
              Forall P (generate_moves V Pt (GenType_eqb Ty QUIET_CHECKS) pos Us target)) ->
  Forall P (generate_all_drops V Us Ty pos target) ->
  (is_horde pos && is_horde_color pos Us = false ->
   Forall P (generate_all_king V Us Ty pos target)) ->
  Forall P l.
Proof.
  intros Hgen Hpawn Hmoves Hdrops Hking. revert Hgen. unfold generate_all.
  assert (Hrest : Forall P (generate_all_drops V Us Ty pos target
                            ++ (if is_horde pos && is_horde_color pos Us then []
                                else generate_all_king V Us Ty pos target))).
  { apply Forall_app. split; [exact Hdrops|].
    destruct (is_horde pos && is_horde_color pos Us); [constructor|auto]. }
  destruct (Variant_eqb V CRAZYHOUSE_VARIANT && is_placement pos
            && nonzero (count_in_hand pos ALL_PIECES Us)).
  - intros [= <-]. exact Hrest.
  - destruct (generate_pawn_moves V Us Ty pos target) as [lp|]; [|discriminate].
    intros [= <-]. apply Forall_app. split; [|exact Hrest].
    repeat (apply Forall_app; split); auto; apply Hmoves; cbn [In]; auto.
Qed.

Lemma generate_moves_NORMAL V Pt Checks pos us target :
  Forall (fun m => type_of m = NORMAL) (generate_moves V Pt Checks pos us target).
Proof. unfold generate_moves. forall_trivial. Qed.

Lemma generate_king_moves_NORMAL V Us Ty pos target :
  Forall (fun m => type_of m = NORMAL) (generate_king_moves V Us Ty pos target).
Proof. unfold generate_king_moves. forall_trivial. Qed.

(** *** The castling moves of [generate_all] *)

Lemma generate_all_castling_shape V Us Ty pos :
  Forall (fun m =>
            Ty <> CAPTURES /\ Ty <> QUIET_CHECKS /\ Ty <> EVASIONS
            /\ (V = LOSERS_VARIANT -> can_capture_losers pos = false)
            /\ castling_shape Us pos m)
         (generate_all_castling V Us Ty pos).
Proof.
  unfold generate_all_castling.
  destruct (negb (GenType_eqb Ty QUIET_CHECKS) && negb (GenType_eqb Ty EVASIONS)) eqn:H1;
    [|constructor].
  destruct (Variant_eqb V LOSERS_VARIANT && can_capture_losers pos) eqn:H2; [constructor|].
  destruct (negb (GenType_eqb Ty CAPTURES)
            && can_castle pos (Color_and Us KING_SIDE .| Color_and Us QUEEN_SIDE)) eqn:H3;
    [|constructor].
  apply andb_prop in H1 as [Hq He]. apply andb_prop in H3 as [Hc Hcc].
  assert (HTy : Ty <> CAPTURES /\ Ty <> QUIET_CHECKS /\ Ty <> EVASIONS).
  { repeat split; intros ->; discriminate. }
  assert (Hl : V = LOSERS_VARIANT -> can_capture_losers pos = false).
  { intros ->. exact H2. }
  assert (Hk : forall k,
             k = (if Variant_eqb V TWOKINGS_VARIANT then castling_king_square pos Us
                  else if Variant_eqb V EXTINCTION_VARIANT then castling_king_square pos Us
                  else if Variant_eqb V ANTI_VARIANT && is_giveaway pos
                  then castling_king_square pos Us else square_KING pos Us) ->
             k = square_KING pos Us \/ k = castling_king_square pos Us).
  { intros k ->. split_ifs; auto. }
  apply Forall_app; split;
    match goal with
    | |- Forall _ (if ?c then _ else _) => destruct c eqn:Hs; [|constructor]
    end;
    constructor; [|constructor| |constructor];
    (split; [apply HTy|split; [apply HTy|split; [apply HTy|split; [exact Hl|]]]]);
    apply andb_prop in Hs as [Hi Hr]; apply negb_true_iff in Hi;
    eexists; eexists; (split; [|split; [exact Hcc|split; [exact Hr|split; [exact Hi|
       split; [apply Hk; reflexivity|reflexivity]]]]]); auto.
Qed.

Lemma Forall_kind_impl (k : MoveType) (P : Move -> Prop) (l : list Move) :
  Forall (fun m => type_of m = k) l ->
  (forall m, type_of m = k -> P m) -> Forall P l.
Proof. intros H HP. revert H. apply Forall_impl. exact HP. Qed.

Lemma generate_all_king_castling V Us Ty pos target :
  Forall (fun m =>
            type_of m = CASTLING ->
            Ty <> CAPTURES /\ Ty <> QUIET_CHECKS /\ Ty <> EVASIONS
            /\ (V = LOSERS_VARIANT -> can_capture_losers pos = false)
            /\ (V = ANTI_VARIANT -> can_capture pos = false)
            /\ castling_shape Us pos m)
         (generate_all_king V Us Ty pos target).
Proof.
  unfold generate_all_king.
  destruct V;
    repeat match goal with
      | |- Forall _ (_ ++ _) => apply Forall_app; split
      | |- Forall _ (if ?c then _ else _) => destruct c eqn:?
      | |- Forall _ [] => constructor
      end;
    first [ eapply Forall_kind_impl; [apply generate_king_moves_NORMAL|]; congruence
          | apply Forall_map, Forall_forall; intros t _ E; discriminate E
          | eapply Forall_impl; [|apply generate_all_castling_shape];
            intros m (H1 & H2 & H3 & H4 & H5) _;
            repeat split; auto; intros; first [discriminate | assumption] ].
Qed.

Lemma generate_all_castling_moves V Us Ty pos target l :
  generate_all V Us Ty pos target = Some l ->
  Forall (fun m =>
            type_of m = CASTLING ->
            Ty <> CAPTURES /\ Ty <> QUIET_CHECKS /\ Ty <> EVASIONS
            /\ (V = LOSERS_VARIANT -> can_capture_losers pos = false)
            /\ (V = ANTI_VARIANT -> can_capture pos = false)
            /\ castling_shape Us pos m
            /\ is_horde pos && is_horde_color pos Us = false) l.
Proof.
  intros Hgen. eapply generate_all_Forall; [exact Hgen| | | |].
  - intros lp Hp. apply generate_pawn_moves_origin in Hp. revert Hp.
    apply Forall_impl. intros m [_ Hm] E.
    rewrite E in Hm. destruct Hm as [Hm|[Hm|Hm]]; discriminate.
  - intros Pt HPt. eapply Forall_kind_impl; [apply generate_moves_NORMAL|]. congruence.
  - unfold generate_all_drops. forall_walk; unfold generate_drops; forall_trivial.
  - intros Hh. eapply Forall_impl; [|apply generate_all_king_castling].
    intros m Hm E. destruct (Hm E) as (H1 & H2 & H3 & H4 & H5 & H6). auto 10.
Qed.

(** ** The entry points, one by one *)

Lemma nonzero_false (b : Z) : nonzero b = false <-> b = 0.
Proof.
  unfold nonzero. destruct (Z.eqb_spec b 0); simpl; split; congruence.
Qed.

Lemma legal_loop_incl (pos : Position) (moves : list Move) (m : Move) :
  In m (legal_loop (List.length moves) pos moves) ->
  In m moves /\ legal_rejects pos m = false.
Proof.
  intros H.
  apply (Permutation_in _ (legal_loop_Permutation pos _ moves (le_n _))) in H.
  apply filter_In in H as [H1 H2]. apply negb_true_iff in H2. auto.
Qed.

Ltac hyp_ifs :=
  repeat match goal with
    | H : context [if ?c then _ else _] |- _ => destruct c eqn:?
    end.

Lemma two_kings_not_atomic (pos : Position) :
  is_two_kings pos = true -> is_atomic pos = false.
Proof.
  unfold is_two_kings, is_atomic. intros H. apply Variant_eqb_eq in H. rewrite H.
  reflexivity.
Qed.

Lemma two_kings_not_losers (pos : Position) :
  is_two_kings pos = true -> is_losers pos = false.
Proof.
  unfold is_two_kings, is_losers. intros H. apply Variant_eqb_eq in H. rewrite H.
  reflexivity.
Qed.

(** What holds of the moves of every call of [generate_all] that an entry
    point makes, and of the moves that the entry point emits itself, holds
    of the moves generated. *)
Lemma generate_calls (P : Move -> Prop) (Ty : GenType) (pos : Position) (l : list Move) :
  generate Ty pos = Some l ->
  (forall Ty' target la,
      calls_generate_all Ty pos Ty' target ->
      generate_all (var pos) (side_to_move pos) Ty' pos target = Some la ->
      Forall P la) ->
  (forall m, emits_itself Ty pos m -> P m) ->
  Forall P l.
Proof.
  intros Hgen Hall Hmove.
  assert (Hnc : forall Ty' l',
             Ty' = CAPTURES \/ Ty' = QUIETS \/ Ty' = NON_EVASIONS ->
             (Ty' = Ty \/ (Ty = LEGAL /\ Ty' = NON_EVASIONS)) ->
             generate_noncheck Ty' pos = Some l' -> Forall P l').
  { intros Ty' l' HT HTy H.
    assert (Hc : nonzero (checkers pos) = false).
    { unfold generate_noncheck in H. destruct (nonzero (checkers pos)); [discriminate|reflexivity]. }
    apply nonzero_false in Hc.
    rewrite generate_noncheck_target in H by exact Hc.
    eapply Hall; [|exact H]. left. split; [exact Hc|].
    destruct HTy as [<-|[H1 ->]]; [left|right; left]; auto. }
  assert (Hev : forall l', (Ty = EVASIONS \/ Ty = LEGAL) ->
                generate_EVASIONS pos = Some l' -> Forall P l').
  { intros l' HTy. unfold generate_EVASIONS.
    repeat match goal with
      | |- (if ?c then Some [] else _) = _ -> _ =>
          destruct c eqn:?; [intros [= <-]; constructor|]
      end.
    destruct (nonzero (checkers pos)) eqn:Hc; [|discriminate]. cbn [negb].
    apply nonzero_true in Hc.
    match goal with
    | |- match ?b with _ => _ end = _ -> _ => destruct b as [blasts|] eqn:Hb; [|discriminate]
    end.
    assert (Hblasts : Forall P blasts).
    { destruct (is_atomic pos) eqn:Hv.
      - eapply Hall; [|apply Variant_eqb_eq in Hv; rewrite Hv; exact Hb].
        right. split; [exact Hc|]. split; [exact HTy|]. right.
        split; [reflexivity|]. split; [apply Variant_eqb_eq, Hv|reflexivity].
      - injection Hb as <-. constructor. }
    clear Hb.
    match goal with
    | |- (if _ then Some (_ ++ ?k) else _) = _ -> _ =>
        assert (Hking : Forall P k);
        [ | revert Hking; generalize k; intros kmoves Hking ]
    end.
    { destruct (is_two_kings pos) eqn:H2k.
      - apply Forall_flat_map, Forall_forall. intros from Hfrom.
        apply Forall_map, Forall_forall. intros to Hto.
        apply In_bb_squares in Hto; [|solve [auto 10 with bb]]. bits_split.
        apply Hmove. exists from, to. split; [reflexivity|]. right.
        rewrite H2k, (two_kings_not_atomic pos H2k), (two_kings_not_losers pos H2k).
        repeat (split; [solve [auto]|]). intros E. discriminate E.
      - apply Forall_map, Forall_forall. intros to Hto.
        apply Hmove. exists (square_KING pos (side_to_move pos)), to.
        split; [reflexivity|]. right. rewrite H2k.
        split; [exact HTy|]. split; [exact Hc|]. split; [reflexivity|].
        hyp_ifs; (apply In_bb_squares in Hto; [|solve [auto 10 with bb]]);
          bits_split; (split; [assumption|split; [assumption|]]);
          first [ intros _; assumption | intros E; discriminate E ]. }
    destruct (more_than_one (checkers pos)) eqn:Hmore.
    { intros [= <-]. apply Forall_app. split; assumption. }
    match goal with
    | |- match ?r with _ => _ end = _ -> _ => destruct r as [rest|] eqn:Hrest; [|discriminate]
    end.
    intros [= <-]. repeat (apply Forall_app; split); try assumption.
    eapply Hall.
    { right. split; [exact Hc|]. split; [exact HTy|]. left.
      split; [reflexivity|]. split; [exact Hmore|reflexivity]. }
    rewrite <- Hrest. unfold evasions_target.
    unfold is_anti, is_extinction, is_race, is_atomic, is_house, is_grid, is_horde,
      is_losers, is_two_kings in *.
    generalize (between_bb (lsb (checkers pos)) (square_KING pos (side_to_move pos))).
    intros btw.
    destruct (var pos) eqn:Hv; try discriminate; eval_tests; cbv iota; reflexivity. }
  destruct Ty; cbn [generate] in Hgen.
  - eapply Hnc; [| |exact Hgen]; tauto.
  - eapply Hnc; [| |exact Hgen]; tauto.
  - (* QUIET_CHECKS *)
    revert Hgen. unfold generate_QUIET_CHECKS.
    repeat match goal with
      | |- (if ?c then Some [] else _) = _ -> _ =>
          destruct c eqn:?; [intros [= <-]; constructor|]
      end.
    destruct (nonzero (checkers pos)) eqn:Hc; [discriminate|].
    apply nonzero_false in Hc.
    match goal with
    | |- match ?g with _ => _ end = _ -> _ => destruct g as [direct|] eqn:Hd; [|discriminate]
    end.
    match goal with
    | |- Some (?d ++ _) = _ -> _ =>
        assert (Hdisc : Forall P d); [|revert Hdisc; generalize d]
    end.
    { apply Forall_flat_map, Forall_forall. intros from Hfrom.
      destruct (PieceType_eqb _ PAWN) eqn:Hp; [constructor|].
      apply Forall_map, Forall_forall. intros to Hto.
      apply Hmove. exists from, to. split; [reflexivity|]. left.
      split; [reflexivity|]. split; [exact Hc|]. split; [exact Hfrom|].
      split; [intros E; rewrite E in Hp; discriminate Hp|].
      hyp_ifs; (apply In_bb_squares in Hto; [|solve [auto 10 with bb]]);
        bits_split; auto. }
    intros disc Hdisc [= <-]. apply Forall_app. split; [exact Hdisc|].
    eapply Hall.
    { left. split; [exact Hc|]. right. right. repeat split; reflexivity. }
    rewrite <- Hd.
    unfold is_anti, is_extinction, is_race, is_atomic, is_house, is_grid, is_horde,
      is_losers, is_two_kings in *.
    destruct (var pos) eqn:Hv; try discriminate; eval_tests; cbv iota; reflexivity.
  - apply Hev; [tauto|exact Hgen].
  - eapply Hnc; [| |exact Hgen]; tauto.
  - (* LEGAL *)
    revert Hgen. unfold generate_LEGAL.
    destruct (is_variant_end pos); [intros [= <-]; constructor|].
    match goal with
    | |- match ?g with _ => _ end = _ -> _ => destruct g as [moves|] eqn:Hm; [|discriminate]
    end.
    intros [= <-].
    assert (Hmoves : Forall P moves).
    { destruct (nonzero (checkers pos)).
      - apply Hev; [tauto|exact Hm].
      - eapply Hnc; [| |exact Hm]; tauto. }
    apply Forall_forall. intros m Hin. apply legal_loop_incl in Hin as [Hin _].
    revert m Hin. apply Forall_forall. exact Hmoves.
Qed.

Lemma generate_Forall (P : Move -> Prop) (Ty : GenType) (pos : Position) (l : list Move) :
  generate Ty pos = Some l ->
  (forall Ty' target la,
      calls_generate_all Ty pos Ty' target ->
      generate_all (var pos) (side_to_move pos) Ty' pos target = Some la ->
      Forall P la) ->
  (forall from to, P (make_move from to)) ->
  Forall P l.
Proof.
  intros Hgen Hall Hmove. eapply generate_calls; [exact Hgen|exact Hall|].
  intros m (from & to & -> & _). apply Hmove.
Qed.

(** ** Castling *)

(** X2.  A castling move is generated only when the side to move is not in
    check, in the modes QUIETS, NON_EVASIONS and LEGAL, for a castling right
    that the side to move holds and whose path is not impeded, from the king
    square (or the castling king square) to the rook of that right; never
    while a capture is mandatory in antichess or losers chess, and never
    for the horde. *)
Theorem castling_moves (Ty : GenType) (pos : Position) (l : list Move) :
  generate Ty pos = Some l ->
  Forall (fun m =>
            type_of m = CASTLING ->
            checkers pos = 0
            /\ (Ty = QUIETS \/ Ty = NON_EVASIONS \/ Ty = LEGAL)
            /\ (var pos = LOSERS_VARIANT -> can_capture_losers pos = false)
            /\ (var pos = ANTI_VARIANT -> can_capture pos = false)
            /\ is_horde pos && is_horde_color pos (side_to_move pos) = false
            /\ castling_shape (side_to_move pos) pos m) l.
Proof.
  intros Hgen. eapply generate_Forall; [exact Hgen| |].
  - intros Ty' target la Hcall Hla.
    apply generate_all_castling_moves in Hla. revert Hla. apply Forall_impl.
    intros m Hm E. destruct (Hm E) as (H1 & H2 & H3 & H4 & H5 & H6 & H7).
    destruct Hcall as [(Hc & Hcall)|(_ & _ & [(HT & _)|(HT & _)])]; [|congruence|congruence].
    split; [exact Hc|]. split; [|auto 10].
    destruct Hcall as [(HT & [HTy|HTy] & _)|[(HTy & _)|(HT & HTy & _)]];
      [congruence|tauto|tauto|congruence].
  - intros from to E. discriminate E.
Qed.

Lemma castling_moves_witness :
  generate NON_EVASIONS pos_castling
  = Some [ make_move (sq 1 1) (sq 2 1); make_move (sq 1 1) (sq 3 1);
           make_move (sq 1 1) (sq 4 1); make_move (sq 1 1) (sq 1 2);
           make_move (sq 1 1) (sq 1 3); make_move (sq 1 1) (sq 1 4);
           make_move (sq 1 1) (sq 1 5); make_move (sq 1 1) (sq 1 6);
           make_move (sq 1 1) (sq 1 7); make_move (sq 1 1) (sq 1 8);
           make_move (sq 8 1) (sq 6 1); make_move (sq 8 1) (sq 7 1);
           make_move (sq 8 1) (sq 8 2); make_move (sq 8 1) (sq 8 3);
           make_move (sq 8 1) (sq 8 4); make_move (sq 8 1) (sq 8 5);
           make_move (sq 8 1) (sq 8 6); make_move (sq 8 1) (sq 8 7);
           make_move (sq 8 1) (sq 8 8);
           make_move (sq 5 1) (sq 4 1); make_move (sq 5 1) (sq 6 1);
           make_move (sq 5 1) (sq 4 2); make_move (sq 5 1) (sq 5 2);
           make_move (sq 5 1) (sq 6 2);
           make_CASTLING (sq 5 1) (sq 8 1); make_CASTLING (sq 5 1) (sq 1 1) ]
  /\ castling_shape WHITE pos_castling (make_CASTLING (sq 5 1) (sq 8 1)).
Proof.
  assert (Hgen : generate NON_EVASIONS pos_castling
                 = Some [ make_move (sq 1 1) (sq 2 1); make_move (sq 1 1) (sq 3 1);
           make_move (sq 1 1) (sq 4 1); make_move (sq 1 1) (sq 1 2);
           make_move (sq 1 1) (sq 1 3); make_move (sq 1 1) (sq 1 4);
           make_move (sq 1 1) (sq 1 5); make_move (sq 1 1) (sq 1 6);
           make_move (sq 1 1) (sq 1 7); make_move (sq 1 1) (sq 1 8);
           make_move (sq 8 1) (sq 6 1); make_move (sq 8 1) (sq 7 1);
           make_move (sq 8 1) (sq 8 2); make_move (sq 8 1) (sq 8 3);
           make_move (sq 8 1) (sq 8 4); make_move (sq 8 1) (sq 8 5);
           make_move (sq 8 1) (sq 8 6); make_move (sq 8 1) (sq 8 7);
           make_move (sq 8 1) (sq 8 8);
           make_move (sq 5 1) (sq 4 1); make_move (sq 5 1) (sq 6 1);
           make_move (sq 5 1) (sq 4 2); make_move (sq 5 1) (sq 5 2);
           make_move (sq 5 1) (sq 6 2);
           make_CASTLING (sq 5 1) (sq 8 1); make_CASTLING (sq 5 1) (sq 1 1) ])
    by (vm_compute; reflexivity).
  split; [exact Hgen|].
  pose proof (castling_moves NON_EVASIONS pos_castling _ Hgen) as H.
  rewrite Forall_forall in H.
  apply (H (make_CASTLING (sq 5 1) (sq 8 1))); [|reflexivity].
  do 24 right. left. reflexivity.
Defined.

(** ** More bitboards that fit 64 bits *)

Lemma bb_ok_lxor (a b : Z) : bb_ok a -> bb_ok b -> bb_ok (a .^ b).
Proof.
  unfold bb_ok. intros Ha Hb. apply Z.bits_inj'. intros i Hi.
  apply (testbit_eq _ _ i) in Ha. apply (testbit_eq _ _ i) in Hb. revert Ha Hb.
  rewrite !Z.land_spec, Z.lxor_spec.
  destruct (Z.testbit a i), (Z.testbit b i), (Z.testbit AllSquares i); simpl; congruence.
Qed.

Lemma bb_ok_square_bb (s : Z) : 0 <= s < 64 -> bb_ok (square_bb s).
Proof.
  intros Hs. apply bb_ok_bits. intros i Hi.
  rewrite square_bb_spec in Hi by lia. apply Z.eqb_eq in Hi. lia.
Qed.

Lemma make_square_on_board (f r : Z) :
  on_board f r = true -> 0 <= make_square f r < 64.
Proof.
  unfold on_board, make_square. intros H.
  apply andb_prop in H as [H H4]. apply andb_prop in H as [H H3].
  apply andb_prop in H as [H1 H2].
  apply Z.leb_le in H1, H3. apply Z.ltb_lt in H2, H4.
  rewrite Z.shiftl_mul_pow2 by lia. change (2 ^ 3) with 8. lia.
Qed.

Lemma bb_ok_steps_bb (s : Square) (ds : list (Z * Z)) : bb_ok (steps_bb s ds).
Proof.
  unfold steps_bb. induction ds as [|d ds IH]; simpl; [apply bb_ok_0|].
  apply bb_ok_lor; [|exact IH]. unfold step_bb.
  destruct (on_board _ _) eqn:E; [|apply bb_ok_0].
  apply bb_ok_square_bb, make_square_on_board, E.
Qed.

Lemma bb_ok_ray_bb (fuel : nat) (f r : Z) (d : Z * Z) (occ : Bitboard) :
  bb_ok (ray_bb fuel f r d occ).
Proof.
  revert f r. induction fuel as [|k IH]; intros f r; simpl; [apply bb_ok_0|].
  destruct (on_board _ _) eqn:E; [|apply bb_ok_0].
  pose proof (bb_ok_square_bb _ (make_square_on_board _ _ E)) as Hs.
  destruct (nonzero _); [exact Hs|]. apply bb_ok_lor; [exact Hs|apply IH].
Qed.

Lemma bb_ok_rays_bb (s : Square) (ds : list (Z * Z)) (occ : Bitboard) :
  bb_ok (rays_bb s ds occ).
Proof.
  unfold rays_bb. induction ds as [|d ds IH]; [apply bb_ok_0|].
  cbn [fold_right]. apply bb_ok_lor; [apply bb_ok_ray_bb|exact IH].
Qed.

Lemma bb_ok_attacks_bb (pt : PieceType) (s : Square) (occ : Bitboard) :
  bb_ok (attacks_bb pt s occ).
Proof.
  destruct pt; cbn [attacks_bb];
    auto using bb_ok_0, bb_ok_steps_bb, bb_ok_rays_bb, bb_ok_lor.
Qed.

Lemma bb_ok_between_bb (s1 s2 : Square) : bb_ok (between_bb s1 s2).
Proof.
  unfold between_bb.
  repeat match goal with |- bb_ok (if ?c then _ else _) => destruct c end;
    auto using bb_ok_0, bb_ok_land_l, bb_ok_attacks_bb.
Qed.

Lemma lsb_range (b : Bitboard) : bb_ok b -> b <> 0 -> 0 <= lsb b < 64.
Proof.
  intros Hok Hnz. unfold lsb. destruct (find (Z.testbit b) all_squares) as [s|] eqn:E.
  - apply find_some in E as [E _]. apply In_all_squares, E.
  - exfalso. apply Hnz. apply bb_zero_of_bits; [exact Hok|].
    intros i Hi. destruct (Z.testbit b i) eqn:Hb; [|reflexivity].
    exfalso. exact (eq_true_false_abs _ Hb (find_none _ _ E i Hi)).
Qed.


(** *** Drops *)

(** A piece is dropped from the hand. *)
Lemma generate_drops_hand Us Pt Checks pos b :
  Forall (fun m => exists to,
              m = make_drop to (make_piece Us Pt) /\ count_in_hand pos Pt Us <> 0)
         (generate_drops Us Pt Checks pos b).
Proof.
  unfold generate_drops.
  destruct (nonzero (count_in_hand pos Pt Us)) eqn:E; [|constructor].
  apply nonzero_true in E. apply Forall_map, Forall_forall. intros to _.
  exists to. auto.
Qed.

(** The drops of [generate_all], and the bitboard [b] (lines 362-367) in
    which they land. *)
Lemma generate_all_drops_shape V Us Ty pos target :
  Forall (fun m =>
            V = CRAZYHOUSE_VARIANT /\ Ty <> CAPTURES /\ drop_shape Us pos m
            /\ let b := if GenType_eqb Ty EVASIONS then target .^ checkers pos
                        else if GenType_eqb Ty NON_EVASIONS
                             then target .^ pieces_c pos (Color_not Us)
                             else target in
               (bb_ok b -> lands_in b m))
         (generate_all_drops V Us Ty pos target).
Proof.
  unfold generate_all_drops.
  destruct (Variant_eqb V CRAZYHOUSE_VARIANT && negb (GenType_eqb Ty CAPTURES)
            && nonzero (count_in_hand pos ALL_PIECES Us)) eqn:E; [|constructor].
  apply andb_prop in E as [E Hall]. apply andb_prop in E as [HV HTy].
  apply Variant_eqb_eq in HV. apply nonzero_true in Hall.
  assert (HTy' : Ty <> CAPTURES) by (intros ->; discriminate HTy).
  set (b0 := if GenType_eqb Ty EVASIONS then _ else _).
  set (b := if is_placement pos then _ else b0).
  assert (Hb : bb_ok b0 -> bb_ok b) by (subst b; destruct (is_placement pos); auto with bb).
  assert (Hin : forall m, lands_in b m -> lands_in b0 m).
  { subst b. destruct (is_placement pos); [apply lands_in_land_l|auto]. }
  assert (Hone : forall Pt bp,
             In Pt [PAWN; KNIGHT; BISHOP; ROOK; QUEEN; KING] ->
             (Pt = KING -> is_placement pos = true) ->
             (Pt = PAWN ->
              bb_ok bp
              /\ forall m, lands_in bp m ->
                           Z.testbit (Rank1BB .| Rank8BB) (to_sq m) = false) ->
             (bb_ok b0 -> bb_ok bp) ->
             (forall m, lands_in bp m -> lands_in b m) ->
             Forall (fun m =>
                       V = CRAZYHOUSE_VARIANT /\ Ty <> CAPTURES /\ drop_shape Us pos m
                       /\ (bb_ok b0 -> lands_in b0 m))
                    (generate_drops Us Pt (GenType_eqb Ty QUIET_CHECKS) pos bp)).
  { intros Pt bp HPt Hk Hrank Hokp Hl.
    pose proof (generate_drops_hand Us Pt (GenType_eqb Ty QUIET_CHECKS) pos bp) as H1.
    apply Forall_forall. intros m Hm.
    pose proof (proj1 (Forall_forall _ _) H1 m Hm) as (to & Em & Hhand).
    split; [exact HV|]. split; [exact HTy'|]. split.
    - exists to, Pt. repeat split; auto.
      intros HP. destruct (Hrank HP) as [Hok Hr].
      pose proof (generate_drops_lands Us Pt (GenType_eqb Ty QUIET_CHECKS) pos bp Hok) as H2.
      pose proof (Hr m (proj1 (Forall_forall _ _) H2 _ Hm)) as H3.
      rewrite Em in H3. exact H3.
    - intros Hok.
      pose proof (generate_drops_lands Us Pt (GenType_eqb Ty QUIET_CHECKS) pos bp (Hokp Hok)) as H2.
      apply Hin, Hl. exact (proj1 (Forall_forall _ _) H2 _ Hm). }
  repeat (apply Forall_app; split);
    try (destruct (is_placement pos) eqn:Hpl; [|constructor]);
    apply Hone; cbn [In]; auto 10; try discriminate.
  - intros _. split; [auto with bb|]. intros m Hm. unfold lands_in in Hm.
    rewrite Z.land_spec, testbit_bb_not in Hm.
    destruct (Z.testbit (Rank1BB .| Rank8BB) (to_sq m)); [|reflexivity].
    rewrite andb_false_r in Hm. discriminate Hm.
  - auto with bb.
  - intros m. apply lands_in_land_l.
Qed.

Lemma generate_all_castling_kind V Us Ty pos :
  Forall (fun m => type_of m = CASTLING) (generate_all_castling V Us Ty pos).
Proof. unfold generate_all_castling. forall_trivial. Qed.

Lemma generate_all_king_kinds V Us Ty pos target :
  Forall (fun m => type_of m = NORMAL \/ type_of m = CASTLING)
         (generate_all_king V Us Ty pos target).
Proof.
  unfold generate_all_king.
  destruct V; forall_walk;
    first [ eapply Forall_impl; [|apply generate_king_moves_NORMAL]; intros m Hm; left; exact Hm
          | eapply Forall_impl; [|apply generate_all_castling_kind]; intros m Hm; right; exact Hm
          | apply Forall_forall; intros t _; left; reflexivity ].
Qed.

Lemma generate_all_drop_moves V Us Ty pos target l :
  generate_all V Us Ty pos target = Some l ->
  Forall (fun m =>
            type_of m = DROP ->
            V = CRAZYHOUSE_VARIANT /\ Ty <> CAPTURES /\ drop_shape Us pos m
            /\ let b := if GenType_eqb Ty EVASIONS then target .^ checkers pos
                        else if GenType_eqb Ty NON_EVASIONS
                             then target .^ pieces_c pos (Color_not Us)
                             else target in
               (bb_ok b -> lands_in b m)) l.
Proof.
  intros Hgen. eapply generate_all_Forall; [exact Hgen| | | |].
  - intros lp Hp. apply generate_pawn_moves_origin in Hp. revert Hp.
    apply Forall_impl. intros m [_ Hm] E.
    destruct Hm as [Hm|[Hm|Hm]]; congruence.
  - intros Pt HPt. eapply Forall_kind_impl; [apply generate_moves_NORMAL|]. congruence.
  - eapply Forall_impl; [|apply generate_all_drops_shape]. intros m Hm _. exact Hm.
  - intros _. eapply Forall_impl; [|apply generate_all_king_kinds].
    intros m [Hm|Hm]; congruence.
Qed.

Lemma calls_drop_empty Ty pos Ty' target la :
  wf_position pos -> checkers pos = 0 ->
  calls_generate_all Ty pos Ty' target ->
  generate_all (var pos) (side_to_move pos) Ty' pos target = Some la ->
  Forall (fun m => type_of m = DROP -> Z.testbit (pieces pos) (to_sq m) = false) la.
Proof.
  intros Hwf Hc Hcall Hla.
  apply generate_all_drop_moves in Hla. revert Hla. apply Forall_impl.
  intros m Hm E. destruct (Hm E) as (HV & HTy & Hshape & Hland).
  destruct Hwf as (Hp & Hdisj & Hw & Hb).
  destruct Hcall as [(_ & Hcall)|(Hc' & _)]; [|contradiction].
  assert (Hthem : bb_ok (pieces_c pos (Color_not (side_to_move pos))))
    by (destruct (side_to_move pos); assumption).
  assert (Hus : Z.testbit (pieces_c pos (side_to_move pos)) (to_sq m) = true ->
                Z.testbit (pieces_c pos (Color_not (side_to_move pos))) (to_sq m) = true ->
                False).
  { intros H1 H2. apply (testbit_eq _ _ (to_sq m)) in Hdisj.
    rewrite Z.land_spec, Z.bits_0 in Hdisj.
    destruct (side_to_move pos); cbn [Color_not] in *;
      rewrite H1, H2 in Hdisj; discriminate Hdisj. }
  assert (Hpieces : Z.testbit (pieces pos) (to_sq m)
                    = Z.testbit (pieces_c pos (side_to_move pos)) (to_sq m)
                      || Z.testbit (pieces_c pos (Color_not (side_to_move pos))) (to_sq m)).
  { rewrite Hp, Z.lor_spec. destruct (side_to_move pos); cbn [Color_not];
      [reflexivity|apply orb_comm]. }
  cbv zeta in Hland. revert Hland.
  destruct Hcall as [(-> & HT & ->)|[(_ & -> & ->)|(_ & -> & ->)]];
    [destruct HT as [->|[->| ->]]; [contradiction| |]| |];
    unfold noncheck_target; rewrite ?HV; eval_tests; cbv iota;
    intros Hland;
    (assert (Hl : lands_in (.~ pieces pos) m
                  \/ lands_in (.~ pieces_c pos (side_to_move pos)
                               .^ pieces_c pos (Color_not (side_to_move pos))) m)
      by (first [left; apply Hland | right; apply Hland];
          auto using bb_ok_lxor with bb));
    clear Hland; unfold lands_in in Hl;
    rewrite ?Z.lxor_spec, ?testbit_bb_not, Hpieces in Hl; rewrite Hpieces;
    destruct (Z.testbit (pieces_c pos (side_to_move pos)) (to_sq m)) eqn:E1;
    destruct (Z.testbit (pieces_c pos (Color_not (side_to_move pos))) (to_sq m)) eqn:E2;
    try reflexivity; try (exfalso; apply Hus; reflexivity);
    pose proof (proj1 (bb_ok_bits _) Hthem (to_sq m)) as Hr;
    destruct (Z.leb_spec 0 (to_sq m)); destruct (Z.ltb_spec (to_sq m) 64);
    cbn [orb negb andb xorb] in Hl; destruct Hl as [Hl|Hl];
    try discriminate Hl; specialize (Hr E2); lia.
Qed.

(** X3.  A piece is dropped only in crazyhouse and never among the captures: a
    piece of a type that the side to move holds in hand, a pawn not on the
    first or the last rank, a king only during placement; and, when the side
    to move is not in check, on an empty square. *)
Theorem drop_moves (Ty : GenType) (pos : Position) (l : list Move) :
  generate Ty pos = Some l ->
  Forall (fun m =>
            type_of m = DROP ->
            var pos = CRAZYHOUSE_VARIANT /\ Ty <> CAPTURES
            /\ drop_shape (side_to_move pos) pos m
            /\ (wf_position pos -> checkers pos = 0 ->
                Z.testbit (pieces pos) (to_sq m) = false)) l.
Proof.
  intros Hgen. eapply generate_Forall; [exact Hgen| |].
  - intros Ty' target la Hcall Hla.
    pose proof (generate_all_drop_moves _ _ _ _ _ _ Hla) as H1.
    apply Forall_forall. intros m Hm E.
    destruct (proj1 (Forall_forall _ _) H1 m Hm E) as (HV & HTy & Hshape & _).
    split; [exact HV|]. split; [|split; [exact Hshape|]].
    + intros ->.
      destruct Hcall as [(_ & [(HT & _)|[(HT & _)|(HT & _)]])
                        |(_ & [HT|HT] & _)]; congruence.
    + intros Hwf Hc.
      exact (proj1 (Forall_forall _ _) (calls_drop_empty _ _ _ _ _ Hwf Hc Hcall Hla) m Hm E).
  - intros from to E. discriminate E.
Qed.

Lemma drop_moves_witness :
  generate QUIET_CHECKS pos_house
  = Some [ make_drop (sq 4 7) (make_piece WHITE PAWN);
           make_drop (sq 6 7) (make_piece WHITE PAWN);
           make_drop (sq 4 6) (make_piece WHITE KNIGHT);
           make_drop (sq 6 6) (make_piece WHITE KNIGHT);
           make_drop (sq 3 7) (make_piece WHITE KNIGHT);
           make_drop (sq 7 7) (make_piece WHITE KNIGHT) ]
  /\ drop_shape WHITE pos_house (make_drop (sq 4 7) (make_piece WHITE PAWN)).
Proof.
  assert (Hgen : generate QUIET_CHECKS pos_house
                 = Some [ make_drop (sq 4 7) (make_piece WHITE PAWN);
                          make_drop (sq 6 7) (make_piece WHITE PAWN);
                          make_drop (sq 4 6) (make_piece WHITE KNIGHT);
                          make_drop (sq 6 6) (make_piece WHITE KNIGHT);
                          make_drop (sq 3 7) (make_piece WHITE KNIGHT);
                          make_drop (sq 7 7) (make_piece WHITE KNIGHT) ])
    by (vm_compute; reflexivity).
  split; [exact Hgen|].
  pose proof (drop_moves QUIET_CHECKS pos_house _ Hgen) as H.
  rewrite Forall_forall in H.
  apply (H (make_drop (sq 4 7) (make_piece WHITE PAWN))); [|reflexivity].
  left. reflexivity.
Defined.

(** ** Where the moves of [generate_all] land *)

Lemma make_promotions_to V Ty D to ksq :
  Forall (fun m => exists from pt, m = make_PROMOTION from to pt)
         (make_promotions V Ty D to ksq).
Proof.
  unfold make_promotions. forall_walk; eexists; eexists; reflexivity.
Qed.

Ltac dest_leaf :=
  match goal with
  | H : In ?t (bb_squares _) |- _ =>
      apply In_bb_squares in H; [|solve [auto 10 with bb]]; bits_split
  end.

Lemma pawn_pushes_dest V Us Ty pos target :
  Forall (fun m =>
            exists from to,
              m = make_move from to /\ Ty <> CAPTURES
              /\ Z.testbit (push_emptySquares V Ty pos target) to = true
              /\ (Ty = EVASIONS \/ V = LOSERS_VARIANT -> Z.testbit target to = true))
         (pawn_pushes V Us Ty pos target).
Proof.
  unfold pawn_pushes.
  set (E := push_emptySquares V Ty pos target).
  destruct Ty; eval_tests; cbv iota; try constructor;
    destruct (Variant_eqb V LOSERS_VARIANT) eqn:HL;
    split_ifs; cbv iota;
    repeat (forall_walk; try (apply Forall_forall; intros ? ?));
    dest_leaf; eexists; eexists;
    (split; [reflexivity|split; [discriminate|split; [assumption|]]]);
    first [ intros _; assumption
          | intros [HT|HV];
            [discriminate HT|rewrite HV in HL; vm_compute in HL; discriminate HL]
          | intros _;
            match goal with
            | H : Z.testbit E _ = true |- _ =>
                revert H; subst E; unfold push_emptySquares; eval_tests; cbv iota;
                split_ifs; intros H; bits_split; assumption
            end ].
Qed.

Lemma pawn_promotions_dest V Us Ty pos target :
  Forall (fun m =>
            exists from to pt,
              m = make_PROMOTION from to pt
              /\ (Z.testbit (pawn_enemies V Us Ty pos target) to = true
                  \/ Z.testbit (promo_emptySquares V Ty pos target) to = true))
         (pawn_promotions V Us Ty pos target).
Proof.
  unfold pawn_promotions.
  destruct (nonzero (pawnsOn7 Us pos)); [|constructor].
  set (E := promo_emptySquares V Ty pos target).
  set (En := pawn_enemies V Us Ty pos target).
  repeat (apply Forall_app; split);
    apply Forall_flat_map, Forall_forall; intros to Hto;
    (eapply Forall_impl; [|apply make_promotions_to]);
    intros m (from & pt & ->); dest_leaf;
    exists from, to, pt; (split; [reflexivity|]); auto.
Qed.

Lemma pawn_captures_dest V Us Ty pos target l :
  pawn_captures V Us Ty pos target = Some l ->
  Forall (fun m =>
            (exists from to,
                m = make_move from to
                /\ GenType_in Ty [CAPTURES; EVASIONS; NON_EVASIONS] = true
                /\ Z.testbit (pawn_enemies V Us Ty pos target) to = true)
            \/ type_of m = ENPASSANT) l.
Proof.
  unfold pawn_captures.
  destruct (GenType_in Ty [CAPTURES; EVASIONS; NON_EVASIONS]) eqn:HTy;
    [|intros [= <-]; constructor].
  set (En := pawn_enemies V Us Ty pos target).
  set (caps := map _ _ ++ map _ _).
  match goal with |- _ -> Forall ?P _ => assert (Hcaps : Forall P caps) end.
  { subst caps. apply Forall_app; split; apply Forall_map, Forall_forall;
      intros to Hto; dest_leaf; left; eexists; eexists; auto. }
  clearbody caps.
  repeat match goal with
    | |- (if ?c then _ else _) = _ -> _ => destruct c
    end; intros [= <-]; try exact Hcaps.
  apply Forall_app. split; [exact Hcaps|].
  apply Forall_map, Forall_forall. intros from Hfrom. right. reflexivity.
Qed.

Lemma generate_all_king_dest V Us Ty pos target :
  bb_ok target ->
  Forall (fun m =>
            type_of m = CASTLING
            \/ exists from to,
                m = make_move from to
                /\ (Z.testbit target to = true
                    \/ (V = RACE_VARIANT /\ Ty = CAPTURES
                        /\ from = square_KING pos Us
                        /\ Z.testbit (pieces pos) to = false)))
         (generate_all_king V Us Ty pos target).
Proof.
  intros Hok.
  assert (Hk : Forall (fun m =>
            type_of m = CASTLING
            \/ exists from to,
                m = make_move from to
                /\ (Z.testbit target to = true
                    \/ (V = RACE_VARIANT /\ Ty = CAPTURES
                        /\ from = square_KING pos Us
                        /\ Z.testbit (pieces pos) to = false)))
            (generate_king_moves V Us Ty pos target)).
  { unfold generate_king_moves. apply Forall_flat_map, Forall_forall. intros ksq _.
    apply Forall_map, Forall_forall. intros to Hto. dest_leaf.
    right. eexists; eexists; auto. }
  assert (Hc : Forall (fun m =>
            type_of m = CASTLING
            \/ exists from to,
                m = make_move from to
                /\ (Z.testbit target to = true
                    \/ (V = RACE_VARIANT /\ Ty = CAPTURES
                        /\ from = square_KING pos Us
                        /\ Z.testbit (pieces pos) to = false)))
            (generate_all_castling V Us Ty pos)).
  { eapply Forall_impl; [|apply generate_all_castling_kind]. intros m Hm. left. exact Hm. }
  unfold generate_all_king, default_king_bb.
  destruct V; repeat (apply Forall_app; split); try exact Hk; try exact Hc;
    try (destruct (can_capture pos); [constructor|exact Hc]);
    eval_tests; cbv iota;
    (destruct (negb _ && negb _) eqn:HT || destruct (negb _) eqn:HT);
    try constructor; try exact Hk;
    apply Forall_map, Forall_forall; intros to Hto;
    destruct Ty; try discriminate HT; revert Hto; eval_tests; cbv iota; intros Hto;
    dest_leaf; right; eexists; eexists; (split; [reflexivity|]); auto 8.
Qed.

Lemma generate_all_dest V Us Ty pos target l :
  bb_ok target ->
  generate_all V Us Ty pos target = Some l ->
  Forall (lands_by_emitter V Us Ty pos target) l.
Proof.
  intros Hok Hgen. eapply generate_all_Forall; [exact Hgen| | | |].
  - intros lp. unfold generate_pawn_moves.
    destruct (pawn_captures V Us Ty pos target) as [caps|] eqn:Hc; [|discriminate].
    intros [= <-]. apply pawn_captures_dest in Hc.
    repeat (apply Forall_app; split).
    + eapply Forall_impl; [|apply pawn_pushes_dest].
      intros m (from & to & -> & H). cbn. auto.
    + eapply Forall_impl; [|apply pawn_promotions_dest].
      intros m (from & to & pt & -> & H). exact H.
    + revert Hc. apply Forall_impl.
      intros m [(from & to & -> & H)|H]; [cbn; auto|].
      destruct m; try discriminate H. exact I.
  - intros Pt HPt. apply Forall_forall. intros m Hm.
    pose proof (proj1 (Forall_forall _ _) (generate_moves_NORMAL V Pt _ pos Us target) m Hm) as Hk.
    pose proof (proj1 (Forall_forall _ _)
                  (generate_moves_lands V Pt _ pos Us target Hok) m Hm) as Hl.
    destruct m; try discriminate Hk. left. exact Hl.
  - eapply Forall_impl; [|apply generate_all_drops_shape].
    intros m (_ & _ & (to & pt & -> & _) & _). exact I.
  - intros _. eapply Forall_impl; [|apply generate_all_king_dest; exact Hok].
    intros m [H|(from & to & -> & [H|H])]; [destruct m; try discriminate H; exact I| |];
      cbn; auto.
Qed.

Ltac bits_goal :=
  repeat (rewrite Z.land_spec || rewrite Z.lor_spec || rewrite testbit_bb_not).

(** *** Captures *)

(** X4.  The generated captures are captures: a piece or pawn move lands on an
    enemy piece (in racing kings a move of the king, and no other move, may
    also go to an empty square), a promotion lands on an enemy piece or on an empty square, and
    the other moves are en-passant captures; no castling and no drop is
    among them. *)
Theorem captures_capture (pos : Position) (l : list Move) :
  wf_position pos ->
  generate CAPTURES pos = Some l ->
  Forall (fun m =>
            let enemy := Z.testbit (pieces_c pos (Color_not (side_to_move pos))) (to_sq m) in
            match type_of m with
            | NORMAL => enemy = true
                        \/ (var pos = RACE_VARIANT
                            /\ from_sq m = square_KING pos (side_to_move pos)
                            /\ Z.testbit (pieces pos) (to_sq m) = false)
            | PROMOTION => enemy = true \/ Z.testbit (pieces pos) (to_sq m) = false
            | ENPASSANT => True
            | _ => False
            end) l.
Proof.
  intros Hwf Hgen.
  assert (Hc : checkers pos = 0).
  { cbn in Hgen. unfold generate_noncheck in Hgen.
    destruct (nonzero (checkers pos)) eqn:E; [discriminate|]. apply nonzero_false, E. }
  cbn [generate] in Hgen. rewrite generate_noncheck_target in Hgen by exact Hc.
  assert (Hthem : bb_ok (pieces_c pos (Color_not (side_to_move pos))))
    by (destruct Hwf as (_ & _ & ? & ?); destruct (side_to_move pos); assumption).
  assert (Hsub : forall i, Z.testbit (noncheck_target CAPTURES pos) i = true ->
                           Z.testbit (pieces_c pos (Color_not (side_to_move pos))) i = true).
  { intros i. unfold noncheck_target. eval_tests. cbv iota.
    destruct (var pos); split_ifs; intros H; bits_split; assumption. }
  assert (Hok : bb_ok (noncheck_target CAPTURES pos)).
  { unfold noncheck_target. eval_tests. cbv iota.
    destruct (var pos); split_ifs; auto with bb. }
  pose proof (generate_all_dest _ _ _ _ _ _ Hok Hgen) as Hd.
  pose proof (generate_all_castling_moves _ _ _ _ _ _ Hgen) as Hcas.
  pose proof (generate_all_drop_moves _ _ _ _ _ _ Hgen) as Hdrop.
  apply Forall_forall. intros m Hm.
  pose proof (proj1 (Forall_forall _ _) Hd m Hm) as H1.
  pose proof (proj1 (Forall_forall _ _) Hcas m Hm) as H2.
  pose proof (proj1 (Forall_forall _ _) Hdrop m Hm) as H3.
  clear Hd Hcas Hdrop Hgen.
  remember (noncheck_target CAPTURES pos) as target eqn:Ht. clear Ht.
  destruct m as [from to|from to pt|from to|from to|to pc]; cbn [type_of to_sq]; cbv zeta.
  - cbn [from_sq]. destruct H1 as [H|[(H & _)|[(_ & H)|(HV & _ & H)]]].
    + left. apply Hsub, H.
    + congruence.
    + left. apply Hsub. revert H. unfold pawn_enemies. eval_tests. cbv iota.
      split_ifs; intros H; bits_split; assumption.
    + right. split; [|exact H]. exact HV.
  - destruct H1 as [H|H].
    + left. apply Hsub. revert H. unfold pawn_enemies. eval_tests. cbv iota.
      split_ifs; intros H; bits_split; assumption.
    + right. revert H. unfold promo_emptySquares. eval_tests. cbv iota.
      split_ifs; intros H; bits_split; assumption.
  - exact I.
  - destruct (H2 eq_refl) as (H & _). congruence.
  - destruct (H3 eq_refl) as (_ & H & _). congruence.
Qed.

Lemma captures_capture_witness :
  (wf_position pos_rook_capture
   /\ generate CAPTURES pos_rook_capture
      = Some [ make_move (sq 3 4) (sq 4 2); make_move (sq 5 1) (sq 4 2) ]
   /\ Z.testbit (pieces_c pos_rook_capture BLACK) (sq 4 2) = true)
  /\ (wf_position pos_race_advance
      /\ generate CAPTURES pos_race_advance
         = Some [ make_move (sq 8 2) (sq 7 3); make_move (sq 8 2) (sq 8 3) ]
      /\ sq 8 2 = square_KING pos_race_advance WHITE
      /\ Z.testbit (pieces pos_race_advance) (sq 7 3) = false).
Proof.
  assert (Hwf : wf_position pos_rook_capture) by (repeat split; reflexivity).
  assert (Hgen : generate CAPTURES pos_rook_capture
                 = Some [ make_move (sq 3 4) (sq 4 2); make_move (sq 5 1) (sq 4 2) ])
    by reflexivity.
  assert (Hwf' : wf_position pos_race_advance) by (repeat split; reflexivity).
  assert (Hgen' : generate CAPTURES pos_race_advance
                  = Some [ make_move (sq 8 2) (sq 7 3); make_move (sq 8 2) (sq 8 3) ])
    by (vm_compute; reflexivity).
  split.
  - split; [exact Hwf|]. split; [exact Hgen|].
    pose proof (captures_capture pos_rook_capture _ Hwf Hgen) as H.
    rewrite Forall_forall in H.
    destruct (H (make_move (sq 3 4) (sq 4 2)) (or_introl eq_refl)) as [Hc|[Hv _]].
    + exact Hc.
    + discriminate Hv.
  - split; [exact Hwf'|]. split; [exact Hgen'|].
    pose proof (captures_capture pos_race_advance _ Hwf' Hgen') as H.
    rewrite Forall_forall in H.
    destruct (H (make_move (sq 8 2) (sq 7 3)) (or_introl eq_refl)) as [Hc|(_ & Hk & He)].
    + vm_compute in Hc. discriminate Hc.
    + split; [exact Hk|exact He].
Defined.

(** *** En passant *)

Lemma pawn_captures_en_passant V Us Ty pos target l :
  pawn_captures V Us Ty pos target = Some l ->
  Forall (fun m =>
            type_of m = ENPASSANT ->
            GenType_in Ty [CAPTURES; EVASIONS; NON_EVASIONS] = true
            /\ en_passant_shape Us pos m) l.
Proof.
  unfold pawn_captures.
  destruct (GenType_in Ty [CAPTURES; EVASIONS; NON_EVASIONS]) eqn:HTy;
    [|intros [= <-]; constructor].
  set (caps := map _ _ ++ map _ _).
  match goal with |- _ -> Forall ?P _ => assert (Hcaps : Forall P caps) end.
  { subst caps. apply Forall_app; split; apply Forall_map, Forall_forall;
      intros to _ E; discriminate E. }
  clearbody caps.
  destruct (negb (ep_square pos =? SQ_NONE)) eqn:Hep; [|intros [= <-]; exact Hcaps].
  apply negb_true_iff, Z.eqb_neq in Hep.
  destruct (rank_of (ep_square pos) =? relative_rank Us RANK_6) eqn:Hr; [|discriminate].
  apply Z.eqb_eq in Hr.
  destruct (_ && _); [intros [= <-]; exact Hcaps|].
  destruct (nonzero _); [|discriminate]. intros [= <-].
  apply Forall_app. split; [exact Hcaps|].
  apply Forall_map, Forall_forall. intros from Hfrom _.
  split; [reflexivity|]. split; [exact Hep|]. split; [exact Hr|].
  exists from. split; [reflexivity|]. pawn_leaf. auto.
Qed.

Lemma generate_all_en_passant V Us Ty pos target l :
  generate_all V Us Ty pos target = Some l ->
  Forall (fun m =>
            type_of m = ENPASSANT ->
            GenType_in Ty [CAPTURES; EVASIONS; NON_EVASIONS] = true
            /\ en_passant_shape Us pos m) l.
Proof.
  intros Hgen. eapply generate_all_Forall; [exact Hgen| | | |].
  - intros lp. unfold generate_pawn_moves.
    destruct (pawn_captures V Us Ty pos target) as [caps|] eqn:Hc; [|discriminate].
    intros [= <-]. apply pawn_captures_en_passant in Hc.
    repeat (apply Forall_app; split); [| |exact Hc].
    + eapply Forall_impl; [|apply pawn_pushes_not_ep]. intros m Hm E. contradiction.
    + eapply Forall_impl; [|apply pawn_promotions_not_ep]. intros m Hm E. contradiction.
  - intros Pt HPt. eapply Forall_impl; [|apply generate_moves_not_ep]. intros m Hm E. contradiction.
  - eapply Forall_impl; [|apply generate_all_drops_not_ep]. intros m Hm E. contradiction.
  - intros _. eapply Forall_impl; [|apply generate_all_king_not_ep]. intros m Hm E. contradiction.
Qed.

(** X5.  An en-passant capture is generated only when the position has an
    en-passant square, on the sixth rank of the side to move, and never
    among the quiet moves or the quiet checks: it goes to that square, from
    a pawn of the side to move, not on its seventh rank, that attacks it. *)
Theorem en_passant_moves (Ty : GenType) (pos : Position) (l : list Move) :
  generate Ty pos = Some l ->
  Forall (fun m =>
            type_of m = ENPASSANT ->
            Ty <> QUIETS /\ Ty <> QUIET_CHECKS
            /\ en_passant_shape (side_to_move pos) pos m) l.
Proof.
  intros Hgen. eapply generate_Forall; [exact Hgen| |].
  - intros Ty' target la Hcall Hla.
    apply generate_all_en_passant in Hla. revert Hla. apply Forall_impl.
    intros m Hm E. destruct (Hm E) as (HT & Hs).
    split; [|split; [|exact Hs]]; intros ->;
      destruct Hcall as [(_ & [(-> & _)|[(H & _)|(_ & -> & _)]])
                        |(_ & [H|H] & _)]; discriminate.
  - intros from to E. discriminate E.
Qed.

Lemma en_passant_moves_witness :
  generate EVASIONS pos_ep_check
  = Some [ make_move (sq 4 4) (sq 3 3); make_move (sq 4 4) (sq 4 3);
           make_move (sq 4 4) (sq 5 3); make_move (sq 4 4) (sq 3 4);
           make_move (sq 4 4) (sq 5 4); make_move (sq 4 4) (sq 3 5);
           make_move (sq 4 4) (sq 4 5); make_move (sq 4 4) (sq 5 5);
           make_ENPASSANT (sq 2 5) (sq 3 6) ]
  /\ en_passant_shape WHITE pos_ep_check (make_ENPASSANT (sq 2 5) (sq 3 6)).
Proof.
  assert (Hgen : generate EVASIONS pos_ep_check
                 = Some [ make_move (sq 4 4) (sq 3 3); make_move (sq 4 4) (sq 4 3);
                          make_move (sq 4 4) (sq 5 3); make_move (sq 4 4) (sq 3 4);
                          make_move (sq 4 4) (sq 5 4); make_move (sq 4 4) (sq 3 5);
                          make_move (sq 4 4) (sq 4 5); make_move (sq 4 4) (sq 5 5);
                          make_ENPASSANT (sq 2 5) (sq 3 6) ])
    by reflexivity.
  split; [exact Hgen|].
  pose proof (en_passant_moves EVASIONS pos_ep_check _ Hgen) as H.
  rewrite Forall_forall in H.
  apply (H (make_ENPASSANT (sq 2 5) (sq 3 6))); [|reflexivity].
  do 8 right. left. reflexivity.
Defined.

(** *** Quiet moves *)

(** X6.  The quiet moves are quiet: a piece or pawn move and a drop land on an
    empty square, a promotion lands on an empty square or on an enemy
    piece, and the other moves are castling moves; no en-passant capture is
    among them. *)
Theorem quiets_are_quiet (pos : Position) (l : list Move) :
  generate QUIETS pos = Some l ->
  Forall (fun m =>
            let empty := Z.testbit (pieces pos) (to_sq m) in
            match type_of m with
            | NORMAL | DROP => empty = false
            | PROMOTION =>
                empty = false
                \/ Z.testbit (pieces_c pos (Color_not (side_to_move pos))) (to_sq m) = true
            | CASTLING => True
            | ENPASSANT => False
            end) l.
Proof.
  intros Hgen.
  assert (Hc : checkers pos = 0).
  { cbn in Hgen. unfold generate_noncheck in Hgen.
    destruct (nonzero (checkers pos)) eqn:E; [discriminate|]. apply nonzero_false, E. }
  cbn [generate] in Hgen. rewrite generate_noncheck_target in Hgen by exact Hc.
  assert (Hsub : forall i, Z.testbit (noncheck_target QUIETS pos) i = true ->
                           Z.testbit (pieces pos) i = false).
  { intros i. unfold noncheck_target. eval_tests. cbv iota.
    destruct (var pos); split_ifs; intros H; bits_split; assumption. }
  assert (Hok : bb_ok (noncheck_target QUIETS pos)).
  { unfold noncheck_target. eval_tests. cbv iota.
    destruct (var pos); split_ifs; auto with bb. }
  pose proof (generate_all_dest _ _ _ _ _ _ Hok Hgen) as Hd.
  pose proof (generate_all_en_passant _ _ _ _ _ _ Hgen) as Hep.
  pose proof (generate_all_drop_moves _ _ _ _ _ _ Hgen) as Hdrop.
  apply Forall_forall. intros m Hm.
  pose proof (proj1 (Forall_forall _ _) Hd m Hm) as H1.
  pose proof (proj1 (Forall_forall _ _) Hep m Hm) as H2.
  pose proof (proj1 (Forall_forall _ _) Hdrop m Hm) as H3.
  clear Hd Hep Hdrop Hgen.
  remember (noncheck_target QUIETS pos) as target eqn:Ht. clear Ht.
  destruct m as [from to|from to pt|from to|from to|to pc]; cbn [type_of to_sq]; cbv zeta.
  - destruct H1 as [H|[(_ & H & _)|[(H & _)|(_ & H & _)]]]; try discriminate H.
    + apply Hsub, H.
    + apply Hsub. revert H. unfold push_emptySquares. eval_tests. cbv iota.
      split_ifs; intros H; bits_split; assumption.
  - destruct H1 as [H|H].
    + right. revert H. unfold pawn_enemies. eval_tests. cbv iota.
      split_ifs; intros H; bits_split; assumption.
    + left. apply Hsub. revert H. unfold promo_emptySquares, push_emptySquares.
      eval_tests. cbv iota. split_ifs; intros H; bits_split; assumption.
  - destruct (H2 eq_refl) as (H & _). discriminate H.
  - exact I.
  - destruct (H3 eq_refl) as (_ & _ & _ & H). revert H. eval_tests. cbv iota.
    intros H. apply Hsub, H, Hok.
Qed.

Lemma quiets_are_quiet_witness :
  generate QUIETS pos_promotion
  = Some [ make_PROMOTION (sq 1 7) (sq 1 8) ROOK;
           make_PROMOTION (sq 1 7) (sq 1 8) BISHOP;
           make_PROMOTION (sq 1 7) (sq 1 8) KNIGHT;
           make_move (sq 5 1) (sq 4 1); make_move (sq 5 1) (sq 6 1);
           make_move (sq 5 1) (sq 4 2); make_move (sq 5 1) (sq 5 2);
           make_move (sq 5 1) (sq 6 2) ]
  /\ Z.testbit (pieces pos_promotion) (sq 4 1) = false.
Proof.
  assert (Hgen : generate QUIETS pos_promotion
                 = Some [ make_PROMOTION (sq 1 7) (sq 1 8) ROOK;
                          make_PROMOTION (sq 1 7) (sq 1 8) BISHOP;
                          make_PROMOTION (sq 1 7) (sq 1 8) KNIGHT;
                          make_move (sq 5 1) (sq 4 1); make_move (sq 5 1) (sq 6 1);
                          make_move (sq 5 1) (sq 4 2); make_move (sq 5 1) (sq 5 2);
                          make_move (sq 5 1) (sq 6 2) ])
    by reflexivity.
  split; [exact Hgen|].
  pose proof (quiets_are_quiet pos_promotion _ Hgen) as H.
  rewrite Forall_forall in H.
  apply (H (make_move (sq 5 1) (sq 4 1))). do 3 right. left. reflexivity.
Defined.

(** ** Own pieces are not captured *)

(** In a well-formed position a square holds a white piece, a black piece
    or none. *)
Lemma wf_bits (pos : Position) (i : Z) :
  wf_position pos ->
  Z.testbit (pieces pos) i
  = Z.testbit (pieces_c pos (side_to_move pos)) i
    || Z.testbit (pieces_c pos (Color_not (side_to_move pos))) i
  /\ Z.testbit (pieces_c pos (side_to_move pos)) i
     && Z.testbit (pieces_c pos (Color_not (side_to_move pos))) i = false.
Proof.
  intros (Hp & Hd & _ & _).
  apply (testbit_eq _ _ i) in Hp, Hd. rewrite Z.lor_spec in Hp.
  rewrite Z.land_spec, Z.bits_0 in Hd.
  destruct (side_to_move pos); cbn [Color_not]; rewrite Hp; split;
    auto using orb_comm. rewrite andb_comm. exact Hd.
Qed.

Lemma wf_bb_ok (pos : Position) (c : Color) :
  wf_position pos -> bb_ok (pieces_c pos c).
Proof. intros (_ & _ & HW & HB). destruct c; assumption. Qed.

(** From the facts on the bits at [i] in the context, under [wf_bits]. *)
Ltac own_free pos i Hwf :=
  let Hp := fresh in
  let Hd := fresh in
  destruct (wf_bits pos i Hwf) as [Hp Hd];
  bits_split;
  try rewrite Hp in *;
  destruct (Z.testbit (pieces_c pos (side_to_move pos)) i);
  destruct (Z.testbit (pieces_c pos (Color_not (side_to_move pos))) i);
  cbn [andb orb negb] in *; congruence.

Lemma noncheck_target_ok (Ty : GenType) (pos : Position) :
  wf_position pos -> bb_ok (noncheck_target Ty pos).
Proof.
  intros Hwf. pose proof (wf_bb_ok pos (Color_not (side_to_move pos)) Hwf).
  unfold noncheck_target.
  destruct Ty; eval_tests; cbv iota; destruct (var pos); split_ifs; auto 10 with bb.
Qed.

Lemma noncheck_target_not_own (Ty : GenType) (pos : Position) (i : Z) :
  wf_position pos ->
  Z.testbit (noncheck_target Ty pos) i = true ->
  Z.testbit (pieces_c pos (side_to_move pos)) i = false.
Proof.
  intros Hwf. unfold noncheck_target.
  destruct Ty; eval_tests; cbv iota; destruct (var pos); split_ifs; intros H;
    try (rewrite Z.bits_0 in H; discriminate H); own_free pos i Hwf.
Qed.

(** Where [generate_all] lands outside the given target: on an empty
    square or on an enemy piece. *)
Lemma lands_by_emitter_not_own V Ty pos target m :
  wf_position pos ->
  (forall i, Z.testbit target i = true ->
             Z.testbit (pieces_c pos (side_to_move pos)) i = false) ->
  lands_by_emitter V (side_to_move pos) Ty pos target m ->
  type_of m = NORMAL \/ type_of m = PROMOTION ->
  Z.testbit (pieces_c pos (side_to_move pos)) (to_sq m) = false.
Proof.
  intros Hwf Hsub H Hk.
  destruct m as [from to|from to pt|from to|from to|to pc];
    try (destruct Hk as [Hk|Hk]; discriminate Hk); cbn [to_sq]; clear Hk;
    cbn [lands_by_emitter] in H.
  - destruct H as [H|[(_ & H & _)|[(_ & H)|(_ & _ & H)]]].
    + apply Hsub, H.
    + revert H. unfold push_emptySquares. split_ifs; intros H; bits_split;
        try (apply Hsub; assumption); own_free pos to Hwf.
    + revert H. unfold pawn_enemies. split_ifs; intros H; bits_split;
        try (apply Hsub; assumption); own_free pos to Hwf.
    + destruct H as [_ H]. own_free pos to Hwf.
  - destruct H as [H|H]; revert H;
      unfold pawn_enemies, promo_emptySquares, push_emptySquares;
      split_ifs; intros H; bits_split;
      try (apply Hsub; assumption); own_free pos to Hwf.
Qed.

(** X7.  When the side to move is not in check, no generated move lands on a
    piece of the side to move, castling (king to rook square) and en
    passant apart. *)
Theorem own_pieces_not_captured (Ty : GenType) (pos : Position) (l : list Move) :
  wf_position pos -> checkers pos = 0 ->
  generate Ty pos = Some l ->
  Forall (fun m =>
            type_of m = CASTLING \/ type_of m = ENPASSANT
            \/ Z.testbit (pieces_c pos (side_to_move pos)) (to_sq m) = false) l.
Proof.
  intros Hwf Hc Hgen. eapply generate_calls; [exact Hgen| |].
  - intros Ty' target la Hcall Hla.
    assert (Ht : bb_ok target
                 /\ forall i, Z.testbit target i = true ->
                              Z.testbit (pieces_c pos (side_to_move pos)) i = false).
    { destruct Hcall as [(_ & [(_ & _ & ->)|[(_ & _ & ->)|(_ & _ & ->)]])|(Hc' & _)];
        [| | |contradiction];
        (split; [auto using noncheck_target_ok with bb|]); intros i H;
        first [ exact (noncheck_target_not_own _ _ _ Hwf H) | own_free pos i Hwf ]. }
    destruct Ht as [Hok Hsub].
    pose proof (generate_all_dest _ _ _ _ _ _ Hok Hla) as Hd.
    pose proof (calls_drop_empty _ _ _ _ _ Hwf Hc Hcall Hla) as Hdrop.
    apply Forall_forall. intros m Hm.
    pose proof (proj1 (Forall_forall _ _) Hd m Hm) as H1.
    pose proof (proj1 (Forall_forall _ _) Hdrop m Hm) as H2.
    destruct (type_of m) eqn:Hk; auto; right; right.
    + apply (lands_by_emitter_not_own _ _ _ _ _ Hwf Hsub H1). auto.
    + apply (lands_by_emitter_not_own _ _ _ _ _ Hwf Hsub H1). auto.
    + apply wf_them; auto.
  - intros m (from & to & -> & [(_ & _ & _ & _ & _ & H)|(_ & Hc' & _)]); [|contradiction].
    right. right. apply wf_them; assumption.
Qed.

Lemma own_pieces_not_captured_witness :
  wf_position pos_castling
  /\ checkers pos_castling = 0
  /\ exists l,
      generate NON_EVASIONS pos_castling = Some l
      /\ Forall (fun m =>
                   type_of m = CASTLING \/ type_of m = ENPASSANT
                   \/ Z.testbit (pieces_c pos_castling WHITE) (to_sq m) = false) l.
Proof.
  assert (Hwf : wf_position pos_castling) by (repeat split; reflexivity).
  split; [exact Hwf|]. split; [reflexivity|].
  destruct (generate NON_EVASIONS pos_castling) as [l|] eqn:Hgen; [|discriminate Hgen].
  exists l. split; [reflexivity|].
  exact (own_pieces_not_captured NON_EVASIONS pos_castling l Hwf eq_refl Hgen).
Defined.

(** ** Evasions *)

Lemma find_filter {A} (f : A -> bool) (l : list A) :
  find f l = hd_error (filter f l).
Proof.
  induction l as [|a l IH]; [reflexivity|]. simpl. destruct (f a); [reflexivity|exact IH].
Qed.

Lemma find_single (f : Z -> bool) (l : list Z) (i : Z) :
  (1 <? Z.of_nat (List.length (filter f l))) = false ->
  In i l -> f i = true -> find f l = Some i.
Proof.
  intros Hlen Hin Hi. rewrite find_filter. apply Z.ltb_ge in Hlen.
  assert (H : In i (filter f l)) by (apply filter_In; auto).
  destruct (filter f l) as [|x [|y r]]; cbn [hd_error].
  - destruct H.
  - destruct H as [->|[]]. reflexivity.
  - cbn [List.length] in Hlen. lia.
Qed.

Lemma more_than_one_eq (b : Bitboard) : more_than_one b = (1 <? popcount b).
Proof. reflexivity. Qed.

Lemma popcount_eq (b : Bitboard) :
  popcount b = Z.of_nat (List.length (filter (Z.testbit b) all_squares)).
Proof. reflexivity. Qed.

Lemma lsb_eq (b : Bitboard) :
  lsb b = match find (Z.testbit b) all_squares with Some s => s | None => SQ_NONE end.
Proof. reflexivity. Qed.

(** A bitboard with no more than one square is the bitboard of its least
    significant square. *)
Lemma single_square (b : Bitboard) (i : Z) :
  bb_ok b -> more_than_one b = false -> Z.testbit b i = true -> i = lsb b.
Proof.
  intros Hok Hone Hi.
  assert (Hin : In i all_squares)
    by (apply In_all_squares, (proj1 (bb_ok_bits b) Hok), Hi).
  rewrite more_than_one_eq, popcount_eq in Hone.
  rewrite lsb_eq, (find_single (Z.testbit b) all_squares i Hone Hin Hi). reflexivity.
Qed.

Lemma evasions_target_ok (pos : Position) :
  bb_ok (checkers pos) -> checkers pos <> 0 -> bb_ok (evasions_target pos).
Proof.
  intros Hok Hnz. unfold evasions_target.
  pose proof (bb_ok_square_bb _ (lsb_range _ Hok Hnz)).
  pose proof (bb_ok_between_bb (lsb (checkers pos)) (square_KING pos (side_to_move pos))).
  split_ifs; auto with bb.
Qed.

Lemma blasts_target_ok (pos : Position) : bb_ok (blasts_target pos).
Proof. unfold blasts_target. auto with bb. Qed.

(** X8.  The evasions of a check: a move of a king, an en-passant capture, a
    move or a drop onto the square of the checking piece or between it and
    the king, or in atomic chess a capture on one of the squares that the
    blasts aim at. *)
Theorem evasions_block_or_capture (pos : Position) (l : list Move) :
  bb_ok (checkers pos) ->
  generate EVASIONS pos = Some l ->
  Forall (fun m =>
            let us := side_to_move pos in
            let checksq := lsb (checkers pos) in
            In (from_sq m) (square_KING pos us :: bb_squares (pieces_cp pos us KING))
            \/ type_of m = ENPASSANT
            \/ lands_in (between_bb checksq (square_KING pos us) .| square_bb checksq) m
            \/ (var pos = ATOMIC_VARIANT /\ lands_in (blasts_target pos) m)) l.
Proof.
  intros Hck Hgen. eapply generate_calls; [exact Hgen| |].
  - intros Ty' target la Hcall Hla.
    destruct Hcall as [(_ & [(_ & [H|[H|H]] & _)|[(H & _)|(H & _)]])|(Hnz & _ & Hcall)];
      try discriminate H.
    pose proof (generate_all_castling_moves _ _ _ _ _ _ Hla) as Hcas.
    pose proof (generate_all_drop_moves _ _ _ _ _ _ Hla) as Hdrop.
    destruct Hcall as [(-> & Hone & ->)|(-> & Hat & ->)].
    + (* blocking evasions and captures of the checking piece *)
      pose proof (evasions_target_ok pos Hck Hnz) as Hok.
      pose proof (generate_all_dest _ _ _ _ _ _ Hok Hla) as Hd.
      assert (Hsub : forall i, Z.testbit (evasions_target pos) i = true ->
                 Z.testbit (between_bb (lsb (checkers pos))
                                       (square_KING pos (side_to_move pos))
                            .| square_bb (lsb (checkers pos))) i = true).
      { intros i. unfold evasions_target. split_ifs; intros H; bits_split;
          rewrite Z.lor_spec; rewrite ?H; auto using orb_true_r. }
      apply Forall_forall. intros m Hm.
      pose proof (proj1 (Forall_forall _ _) Hd m Hm) as H1.
      pose proof (proj1 (Forall_forall _ _) Hcas m Hm) as H2.
      pose proof (proj1 (Forall_forall _ _) Hdrop m Hm) as H3.
      clear Hd Hcas Hdrop Hla. cbv zeta.
      destruct m as [from to|from to pt|from to|from to|to pc];
        cbn [type_of to_sq lands_by_emitter] in *; auto.
      * right. right. left. apply Hsub.
        destruct H1 as [H|[(_ & _ & H)|[(_ & H)|(_ & H & _)]]]; auto; try discriminate H.
        revert H. unfold pawn_enemies. eval_tests. cbv iota.
        split_ifs; intros H; bits_split; assumption.
      * right. right. left. apply Hsub. destruct H1 as [H|H]; revert H;
          unfold pawn_enemies, promo_emptySquares; eval_tests; cbv iota;
          split_ifs; intros H; bits_split; assumption.
      * destruct (H2 eq_refl) as (_ & _ & H & _). congruence.
      * right. right. left. destruct (H3 eq_refl) as (_ & _ & _ & H).
        revert H. eval_tests. cbv iota. intros H.
        specialize (H (bb_ok_lxor _ _ Hok Hck)). unfold lands_in in *. cbn [to_sq] in *.
        rewrite Z.lxor_spec in H.
        destruct (Z.testbit (evasions_target pos) to) eqn:E1; [apply Hsub, E1|].
        destruct (Z.testbit (checkers pos) to) eqn:E2; [|discriminate H].
        rewrite (single_square _ _ Hck Hone E2), Z.lor_spec, square_bb_spec, Z.eqb_refl
          by (apply lsb_range; assumption).
        apply orb_true_r.
    + (* the blasts of atomic chess *)
      pose proof (generate_all_dest _ _ _ _ _ _ (blasts_target_ok pos) Hla) as Hd.
      apply Forall_forall. intros m Hm.
      pose proof (proj1 (Forall_forall _ _) Hd m Hm) as H1.
      pose proof (proj1 (Forall_forall _ _) Hcas m Hm) as H2.
      pose proof (proj1 (Forall_forall _ _) Hdrop m Hm) as H3.
      clear Hd Hcas Hdrop Hla. cbv zeta.
      destruct m as [from to|from to pt|from to|from to|to pc];
        cbn [type_of to_sq lands_by_emitter] in *; auto.
      * right. right. right. split; [exact Hat|]. unfold lands_in. cbn [to_sq].
        destruct H1 as [H|[(H & _)|[(_ & H)|(H & _)]]]; auto; try congruence.
        revert H. unfold pawn_enemies. eval_tests. cbv iota.
        split_ifs; intros H; bits_split; assumption.
      * right. right. right. split; [exact Hat|]. unfold lands_in. cbn [to_sq].
        assert (Hc : nonzero (checkers pos) = true) by (apply nonzero_true, Hnz).
        destruct H1 as [H|H]; revert H;
          unfold pawn_enemies, promo_emptySquares; rewrite ?Hat, ?Hc;
          eval_tests; cbv iota; intros H; bits_split; assumption.
      * destruct (H2 eq_refl) as (H & _). congruence.
      * destruct (H3 eq_refl) as (_ & H & _). congruence.
  - intros m (from & to & -> & [(H & _)|(_ & _ & Hk & _)]); [discriminate H|].
    left. cbn [from_sq]. destruct (is_two_kings pos); [right; exact Hk|left; auto].
Qed.

Lemma evasions_block_or_capture_witness :
  bb_ok (checkers pos_ep_discovered)
  /\ generate EVASIONS pos_ep_discovered
     = Some [ make_move (sq 5 5) (sq 4 4); make_move (sq 5 5) (sq 5 4);
              make_move (sq 5 5) (sq 6 5); make_move (sq 5 5) (sq 5 6);
              make_move (sq 5 5) (sq 6 6); make_move (sq 4 5) (sq 4 6) ]
  /\ lands_in (between_bb (sq 2 8) (sq 5 5) .| square_bb (sq 2 8))
              (make_move (sq 4 5) (sq 4 6)).
Proof.
  assert (Hok : bb_ok (checkers pos_ep_discovered)) by reflexivity.
  assert (Hgen : generate EVASIONS pos_ep_discovered
                 = Some [ make_move (sq 5 5) (sq 4 4); make_move (sq 5 5) (sq 5 4);
                          make_move (sq 5 5) (sq 6 5); make_move (sq 5 5) (sq 5 6);
                          make_move (sq 5 5) (sq 6 6); make_move (sq 4 5) (sq 4 6) ])
    by (vm_compute; reflexivity).
  split; [exact Hok|]. split; [exact Hgen|].
  pose proof (evasions_block_or_capture pos_ep_discovered _ Hok Hgen) as H.
  rewrite Forall_forall in H.
  destruct (H (make_move (sq 4 5) (sq 4 6))) as [Hk|[Hk|[Hk|[Hk _]]]].
  - do 5 right. left. reflexivity.
  - vm_compute in Hk. destruct Hk as [Hk|[Hk|[]]]; discriminate Hk.
  - discriminate Hk.
  - exact Hk.
  - discriminate Hk.
Defined.

(** ** Atomic chess *)

(** The facts on the bits at [i] decide the goal, in a well-formed
    position. *)
Ltac bits_decide pos i Hwf :=
  let Hp := fresh in
  let Hd := fresh in
  destruct (wf_bits pos i Hwf) as [Hp Hd];
  bits_split; try assumption;
  try rewrite Hp in *;
  repeat (rewrite Z.land_spec in * || rewrite Z.lor_spec in *);
  repeat match goal with
    | |- context [Z.testbit ?b i] => destruct (Z.testbit b i)
    | H : context [Z.testbit ?b i] |- _ => destruct (Z.testbit b i)
    end;
  cbn [andb orb negb] in *; congruence.

(** X9.  In atomic chess, when the side to move is not in check, no generated
    move captures a piece next to the own king, which the blast would
    remove; en passant and castling apart. *)
Theorem atomic_captures_spare_own_king (Ty : GenType) (pos : Position) (l : list Move) :
  wf_position pos -> var pos = ATOMIC_VARIANT -> checkers pos = 0 ->
  generate Ty pos = Some l ->
  Forall (fun m =>
            let us := side_to_move pos in
            type_of m = ENPASSANT \/ type_of m = CASTLING
            \/ Z.testbit (pieces_c pos (Color_not us)
                          .& adjacent_squares_bb (pieces_cp pos us KING)) (to_sq m)
               = false) l.
Proof.
  intros Hwf Hat Hc Hgen. eapply generate_calls; [exact Hgen| |].
  - intros Ty' target la Hcall Hla.
    assert (Hnc : nonzero (checkers pos) = false) by (apply nonzero_false, Hc).
    assert (Ht : bb_ok target
                 /\ forall i, Z.testbit target i = true ->
                      Z.testbit (pieces_c pos (Color_not (side_to_move pos))
                                 .& adjacent_squares_bb
                                      (pieces_cp pos (side_to_move pos) KING)) i = false).
    { destruct Hcall as [(_ & [(_ & HT & ->)|[(_ & _ & ->)|(_ & _ & ->)]])|(Hc' & _)];
        [destruct HT as [->|[->| ->]]| | |contradiction];
        (split; [auto using noncheck_target_ok with bb|]); intros i;
        unfold noncheck_target; rewrite ?Hat; eval_tests; cbv iota; intros H;
        bits_decide pos i Hwf. }
    destruct Ht as [Hok Hsub].
    pose proof (generate_all_dest _ _ _ _ _ _ Hok Hla) as Hd.
    pose proof (calls_drop_empty _ _ _ _ _ Hwf Hc Hcall Hla) as Hdrop.
    assert (HTy' : Ty' <> EVASIONS).
    { intros ->. destruct Hcall as [(_ & [(<- & [H|[H|H]] & _)|[(_ & H & _)|(_ & H & _)]])
                                  |(Hc' & _)]; try discriminate H; contradiction. }
    apply Forall_forall. intros m Hm.
    pose proof (proj1 (Forall_forall _ _) Hd m Hm) as H1.
    pose proof (proj1 (Forall_forall _ _) Hdrop m Hm) as H2.
    clear Hd Hdrop Hla Hcall. rewrite Hat in H1. cbv zeta.
    destruct m as [from to|from to pt|from to|from to|to pc];
      cbn [type_of to_sq lands_by_emitter] in *; auto; right; right.
    + destruct H1 as [H|[(_ & H & _)|[(_ & H)|(H & _)]]]; [auto| | |discriminate H];
        revert H; unfold push_emptySquares, pawn_enemies;
        destruct Ty'; try congruence; eval_tests; cbv iota; intros H;
        first [ bits_split; apply Hsub; assumption | bits_decide pos to Hwf ].
    + destruct H1 as [H|H]; revert H;
        unfold pawn_enemies, promo_emptySquares, push_emptySquares; rewrite ?Hnc;
        destruct Ty'; try congruence; eval_tests; cbv iota; intros H;
        first [ bits_split; apply Hsub; assumption | bits_decide pos to Hwf ].
    + specialize (H2 eq_refl). bits_decide pos to Hwf.
  - intros m (from & to & -> & [(_ & _ & _ & _ & _ & H)|(_ & Hc' & _)]); [|contradiction].
    right. right. cbn [to_sq]. bits_decide pos to Hwf.
Qed.

Lemma atomic_captures_spare_own_king_witness :
  wf_position pos_atomic_rook
  /\ var pos_atomic_rook = ATOMIC_VARIANT
  /\ checkers pos_atomic_rook = 0
  /\ generate NON_EVASIONS pos_atomic_rook
     = Some [ make_move (sq 3 4) (sq 2 2); make_move (sq 3 4) (sq 1 3);
              make_move (sq 3 4) (sq 5 3); make_move (sq 3 4) (sq 1 5);
              make_move (sq 3 4) (sq 5 5); make_move (sq 3 4) (sq 2 6);
              make_move (sq 3 4) (sq 4 6);
              make_move (sq 5 1) (sq 4 1); make_move (sq 5 1) (sq 6 1);
              make_move (sq 5 1) (sq 5 2); make_move (sq 5 1) (sq 6 2) ]
  /\ Z.testbit (pieces_c pos_atomic_rook BLACK
                .& adjacent_squares_bb (pieces_cp pos_atomic_rook WHITE KING)) (sq 2 2)
     = false.
Proof.
  assert (Hwf : wf_position pos_atomic_rook) by (repeat split; reflexivity).
  assert (Hgen : generate NON_EVASIONS pos_atomic_rook
                 = Some [ make_move (sq 3 4) (sq 2 2); make_move (sq 3 4) (sq 1 3);
                          make_move (sq 3 4) (sq 5 3); make_move (sq 3 4) (sq 1 5);
                          make_move (sq 3 4) (sq 5 5); make_move (sq 3 4) (sq 2 6);
                          make_move (sq 3 4) (sq 4 6);
                          make_move (sq 5 1) (sq 4 1); make_move (sq 5 1) (sq 6 1);
                          make_move (sq 5 1) (sq 5 2); make_move (sq 5 1) (sq 6 2) ])
    by reflexivity.
  split; [exact Hwf|]. split; [reflexivity|]. split; [reflexivity|].
  split; [exact Hgen|].
  pose proof (atomic_captures_spare_own_king NON_EVASIONS pos_atomic_rook _
                Hwf eq_refl eq_refl Hgen) as H.
  rewrite Forall_forall in H.
  destruct (H (make_move (sq 3 4) (sq 2 2)) (or_introl eq_refl)) as [Hk|[Hk|Hk]].
  - discriminate Hk.
  - discriminate Hk.
  - exact Hk.
Defined.

(** ** The assertions *)

Lemma generate_all_quiet_returns V Us Ty pos target :
  Ty = QUIETS \/ Ty = QUIET_CHECKS \/ ep_square pos = SQ_NONE ->
  exists l, generate_all V Us Ty pos target = Some l.
Proof.
  intros H.
  assert (Hp : exists c, pawn_captures V Us Ty pos target = Some c).
  { destruct H as [->|[->|H]]; [eexists; reflexivity|eexists; reflexivity|].
    pose proof (pawn_captures_without_ep V Us Ty pos target H) as Hn.
    destruct (pawn_captures V Us Ty pos target) as [c|]; [eexists; reflexivity|congruence]. }
  destruct Hp as [c Hp]. unfold generate_all, generate_pawn_moves. rewrite Hp.
  destruct (_ && _ && _); eexists; reflexivity.
Qed.

(** X10.  The assertions hold, and [generate<Ty>] returns a list, whenever the
    side to move is in check exactly when the mode wants it (EVASIONS in
    check, LEGAL either way, the other modes out of check) and the
    en-passant branch is not entered: the position has no en-passant square,
    or the mode is QUIETS or QUIET_CHECKS. *)
Theorem generate_returns (Ty : GenType) (pos : Position) :
  Ty = QUIETS \/ Ty = QUIET_CHECKS \/ ep_square pos = SQ_NONE ->
  Ty = LEGAL \/ (Ty = EVASIONS /\ checkers pos <> 0)
  \/ (Ty <> EVASIONS /\ checkers pos = 0) ->
  exists l, generate Ty pos = Some l.
Proof.
  intros Hep Hck.
  assert (Hall : forall V Ty' target,
             Ty' = Ty \/ ep_square pos = SQ_NONE ->
             exists l, generate_all V (side_to_move pos) Ty' pos target = Some l).
  { intros V Ty' target [->|H]; apply generate_all_quiet_returns; auto. }
  assert (Hnc : forall Ty', (Ty' = Ty \/ ep_square pos = SQ_NONE) ->
                            checkers pos = 0 ->
                            exists l, generate_noncheck Ty' pos = Some l).
  { intros Ty' HT Hc. rewrite generate_noncheck_target by exact Hc. apply Hall, HT. }
  assert (Hev : (Ty = EVASIONS \/ ep_square pos = SQ_NONE) -> checkers pos <> 0 ->
                exists l, generate_EVASIONS pos = Some l).
  { intros HT Hc. unfold generate_EVASIONS.
    repeat match goal with
      | |- exists l, (if ?c then Some [] else _) = _ =>
          destruct c; [eexists; reflexivity|]
      end.
    apply nonzero_true in Hc. rewrite Hc. cbn [negb].
    assert (Hb : ep_square pos = SQ_NONE \/ is_atomic pos = false).
    { destruct HT as [->|H]; [|left; exact H].
      destruct Hep as [H|[H|H]]; try discriminate H. left. exact H. }
    match goal with
    | |- exists l, match ?b with _ => _ end = _ =>
        assert (Hbl : exists bl, b = Some bl);
        [|destruct Hbl as [bl ->]]
    end.
    { destruct Hb as [H| ->]; [|eexists; reflexivity].
      destruct (is_atomic pos); [|eexists; reflexivity]. apply Hall. right. exact H. }
    destruct (more_than_one (checkers pos)); [eexists; reflexivity|].
    match goal with
    | |- exists l, match ?r with _ => _ end = _ =>
        assert (Hr : exists rest, r = Some rest);
        [|destruct Hr as [rest ->]; eexists; reflexivity]
    end.
    assert (HT' : EVASIONS = Ty \/ ep_square pos = SQ_NONE)
      by (destruct HT; auto).
    split_ifs; apply Hall; exact HT'. }
  destruct Ty; cbn [generate].
  - destruct Hck as [H|[(H & _)|(_ & H)]]; try discriminate H. apply Hnc; auto.
  - destruct Hck as [H|[(H & _)|(_ & H)]]; try discriminate H. apply Hnc; auto.
  - destruct Hck as [H|[(H & _)|(_ & H)]]; try discriminate H.
    unfold generate_QUIET_CHECKS.
    repeat match goal with
      | |- exists l, (if ?c then Some [] else _) = _ =>
          destruct c; [eexists; reflexivity|]
      end.
    apply nonzero_false in H. rewrite H.
    match goal with
    | |- exists l, match ?r with _ => _ end = _ =>
        assert (Hr : exists d, r = Some d);
        [|destruct Hr as [d ->]; eexists; reflexivity]
    end.
    apply Hall. left. reflexivity.
  - destruct Hck as [H|[(_ & H)|(H & _)]]; [discriminate H| |congruence].
    apply Hev; auto.
  - destruct Hck as [H|[(H & _)|(_ & H)]]; try discriminate H. apply Hnc; auto.
  - assert (He : ep_square pos = SQ_NONE).
    { destruct Hep as [H|[H|H]]; try discriminate H. exact H. }
    unfold generate_LEGAL. destruct (is_variant_end pos); [eexists; reflexivity|].
    destruct (nonzero (checkers pos)) eqn:Hc.
    + apply nonzero_true in Hc. destruct (Hev (or_intror He) Hc) as [m ->].
      eexists; reflexivity.
    + apply nonzero_false in Hc. destruct (Hnc NON_EVASIONS (or_intror He) Hc) as [m ->].
      eexists; reflexivity.
Qed.

Lemma generate_returns_witness :
  ep_square pos_double_check = SQ_NONE
  /\ checkers pos_double_check <> 0
  /\ exists l, generate EVASIONS pos_double_check = Some l.
Proof.
  assert (Hep : ep_square pos_double_check = SQ_NONE) by reflexivity.
  assert (Hc : checkers pos_double_check <> 0) by (vm_compute; discriminate).
  split; [exact Hep|]. split; [exact Hc|].
  apply generate_returns; [right; right; exact Hep|].
  right. left. split; [reflexivity|exact Hc].
Defined.

(** ** When the pawn emitter stops *)

(** X11.  The pawn emitter fails an assertion exactly when it is asked for
    captures (CAPTURES, EVASIONS, NON_EVASIONS) in a position with an
    en-passant square, and that square is not on the sixth rank of the side
    to move, or no pawn of the side to move off its seventh rank attacks it
    (unless, among the evasions, the pawn that has just moved is not in the
    target, in which case the en-passant branch is left before the second
    assertion). *)
Theorem generate_pawn_moves_aborts V Us Ty pos target :
  generate_pawn_moves V Us Ty pos target = None
  <-> GenType_in Ty [CAPTURES; EVASIONS; NON_EVASIONS] = true
      /\ ep_square pos <> SQ_NONE
      /\ (rank_of (ep_square pos) <> relative_rank Us RANK_6
          \/ ((Ty = EVASIONS ->
               nonzero (target .& square_bb (ep_square pos - pawn_push Us)) = true)
              /\ pawnsNotOn7 Us pos
                 .& attacks_from_PAWN pos (ep_square pos) (Color_not Us) = 0)).
Proof.
  unfold generate_pawn_moves.
  assert (H : pawn_captures V Us Ty pos target = None
              <-> GenType_in Ty [CAPTURES; EVASIONS; NON_EVASIONS] = true
                  /\ ep_square pos <> SQ_NONE
                  /\ (rank_of (ep_square pos) <> relative_rank Us RANK_6
                      \/ ((Ty = EVASIONS ->
                           nonzero (target .& square_bb (ep_square pos - pawn_push Us))
                           = true)
                          /\ pawnsNotOn7 Us pos
                             .& attacks_from_PAWN pos (ep_square pos) (Color_not Us) = 0))).
  { unfold pawn_captures.
    destruct (GenType_in Ty [CAPTURES; EVASIONS; NON_EVASIONS]) eqn:HTy;
      [|split; [discriminate|intros (E & _); discriminate E]].
    destruct (Z.eqb_spec (ep_square pos) SQ_NONE) as [Hep|Hep]; cbn [negb];
      [split; [discriminate|intros (_ & E & _); contradiction]|].
    destruct (Z.eqb_spec (rank_of (ep_square pos)) (relative_rank Us RANK_6)) as [Hr|Hr];
      [|split; [intros _; auto|reflexivity]].
    destruct (GenType_eqb Ty EVASIONS) eqn:HE; cbn [andb].
    - apply GenType_eqb_eq in HE.
      destruct (nonzero (target .& square_bb (ep_square pos - pawn_push Us))) eqn:Ht;
        cbn [negb].
      + destruct (nonzero (pawnsNotOn7 Us pos .& _)) eqn:Hb.
        * split; [discriminate|]. intros (_ & _ & [E|(_ & E)]); [contradiction|].
          apply nonzero_true in Hb. contradiction.
        * apply nonzero_false in Hb. split; [intros _|reflexivity]. auto 10.
      + split; [discriminate|]. intros (_ & _ & [E|(E & _)]); [contradiction|].
        specialize (E HE). discriminate E.
    - assert (HE' : Ty <> EVASIONS).
      { intros ->. vm_compute in HE. discriminate HE. }
      destruct (nonzero (pawnsNotOn7 Us pos .& _)) eqn:Hb.
      + split; [discriminate|]. intros (_ & _ & [E|(_ & E)]); [contradiction|].
        apply nonzero_true in Hb. contradiction.
      + apply nonzero_false in Hb. split; [intros _|reflexivity].
        split; [reflexivity|]. split; [exact Hep|]. right. split; [|exact Hb].
        intros E. contradiction. }
  rewrite <- H. destruct (pawn_captures V Us Ty pos target); split; congruence.
Qed.

(** ** Promotions *)

Lemma make_promotions_pieces V Ty D to ksq :
  Forall (fun m =>
            exists pt,
              m = make_PROMOTION (to - D) to pt
              /\ In pt [QUEEN; ROOK; BISHOP; KNIGHT; KING]
              /\ (pt = KING -> V = ANTI_VARIANT \/ V = EXTINCTION_VARIANT)
              /\ (Ty = QUIET_CHECKS ->
                  pt = KNIGHT
                  /\ nonzero (PseudoAttacks KNIGHT to .& square_bb ksq) = true)
              /\ (V <> ANTI_VARIANT -> V <> LOSERS_VARIANT ->
                  (Ty = CAPTURES -> pt = QUEEN) /\ (Ty = QUIETS -> pt <> QUEEN)))
         (make_promotions V Ty D to ksq).
Proof.
  unfold make_promotions.
  destruct V, Ty; eval_tests; cbv iota; cbn [app]; forall_walk;
    eexists; (split; [reflexivity|]);
    (split; [cbn [In]; auto 10|]);
    (split; [first [discriminate | intros _; auto]|]);
    (split; [first [discriminate | intros _; split; reflexivity]|]);
    intros Ha Hl; try (exfalso; apply Ha; reflexivity); try (exfalso; apply Hl; reflexivity);
    split; first [discriminate | intros _; reflexivity | intros _; discriminate].
Qed.

Lemma generate_all_promotions V Us Ty pos target l :
  generate_all V Us Ty pos target = Some l ->
  Forall (fun m =>
            forall from to pt,
              m = make_PROMOTION from to pt ->
              In pt [QUEEN; ROOK; BISHOP; KNIGHT; KING]
              /\ (pt = KING -> V = ANTI_VARIANT \/ V = EXTINCTION_VARIANT)
              /\ (Ty = QUIET_CHECKS ->
                  pt = KNIGHT
                  /\ nonzero (PseudoAttacks KNIGHT to .& square_bb (pawn_ksq V Us pos))
                     = true)
              /\ (V <> ANTI_VARIANT -> V <> LOSERS_VARIANT ->
                  (Ty = CAPTURES -> pt = QUEEN) /\ (Ty = QUIETS -> pt <> QUEEN))) l.
Proof.
  intros Hgen. eapply generate_all_Forall; [exact Hgen| | | |].
  - intros lp. unfold generate_pawn_moves.
    destruct (pawn_captures V Us Ty pos target) as [caps|] eqn:Hc; [|discriminate].
    intros [= <-]. apply pawn_captures_dest in Hc.
    repeat (apply Forall_app; split).
    + eapply Forall_impl; [|apply pawn_pushes_dest].
      intros m (from & to & -> & _) f t p E. discriminate E.
    + unfold pawn_promotions. destruct (nonzero (pawnsOn7 Us pos)); [|constructor].
      repeat (apply Forall_app; split);
        apply Forall_flat_map, Forall_forall; intros to _;
        (eapply Forall_impl; [|apply make_promotions_pieces]);
        intros m (pt & -> & H) f t p [= _ <- <-]; exact H.
    + revert Hc. apply Forall_impl.
      intros m [(from & to & -> & _)|H] f t p E; [discriminate E|].
      rewrite E in H. discriminate H.
  - intros Pt HPt. eapply Forall_impl; [|apply generate_moves_NORMAL].
    intros m H f t p E. rewrite E in H. discriminate H.
  - eapply Forall_impl; [|apply generate_all_drops_shape].
    intros m (_ & _ & (to & p' & -> & _) & _) f t p E. discriminate E.
  - intros _. eapply Forall_impl; [|apply generate_all_king_kinds].
    intros m [H|H] f t p E; rewrite E in H; discriminate H.
Qed.

(** X12.  A pawn promotes to a queen, a rook, a bishop or a knight, and to a king
    only in antichess and in extinction chess.  Among the quiet checks a
    promotion is to a knight that attacks the enemy king from the promotion
    square; outside antichess and losers chess the captures hold the queen
    promotions only and the quiet moves none. *)
Theorem promotion_pieces (Ty : GenType) (pos : Position) (l : list Move) :
  generate Ty pos = Some l ->
  Forall (fun m =>
            forall from to pt,
              m = make_PROMOTION from to pt ->
              In pt [QUEEN; ROOK; BISHOP; KNIGHT; KING]
              /\ (pt = KING ->
                  var pos = ANTI_VARIANT \/ var pos = EXTINCTION_VARIANT)
              /\ (Ty = QUIET_CHECKS ->
                  pt = KNIGHT
                  /\ nonzero (PseudoAttacks KNIGHT to
                              .& square_bb (pawn_ksq (var pos) (side_to_move pos) pos))
                     = true)
              /\ (var pos <> ANTI_VARIANT -> var pos <> LOSERS_VARIANT ->
                  (Ty = CAPTURES -> pt = QUEEN) /\ (Ty = QUIETS -> pt <> QUEEN))) l.
Proof.
  intros Hgen. eapply generate_Forall; [exact Hgen| |].
  - intros Ty' target la Hcall Hla.
    apply generate_all_promotions in Hla. revert Hla. apply Forall_impl.
    intros m Hm from to pt E. destruct (Hm from to pt E) as (H1 & H2 & H3 & H4).
    split; [exact H1|]. split; [exact H2|].
    assert (HT : Ty = CAPTURES \/ Ty = QUIETS \/ Ty = QUIET_CHECKS -> Ty' = Ty).
    { intros HT.
      destruct Hcall as [(_ & [(H & _)|[(H & _)|(H0 & H & _)]])|(_ & [H|H] & _)];
        try exact H; destruct HT as [HT|[HT|HT]]; congruence. }
    split.
    + intros ->. apply H3, HT. auto.
    + intros Ha Hl. destruct (H4 Ha Hl) as [H5 H6].
      split; intros ->; [apply H5|apply H6]; apply HT; auto.
  - intros from to f t p E. discriminate E.
Qed.

Lemma promotion_pieces_witness :
  generate QUIETS pos_promotion
  = Some [ make_PROMOTION (sq 1 7) (sq 1 8) ROOK;
           make_PROMOTION (sq 1 7) (sq 1 8) BISHOP;
           make_PROMOTION (sq 1 7) (sq 1 8) KNIGHT;
           make_move (sq 5 1) (sq 4 1); make_move (sq 5 1) (sq 6 1);
           make_move (sq 5 1) (sq 4 2); make_move (sq 5 1) (sq 5 2);
           make_move (sq 5 1) (sq 6 2) ]
  /\ In ROOK [QUEEN; ROOK; BISHOP; KNIGHT; KING].
Proof.
  assert (Hgen : generate QUIETS pos_promotion
                 = Some [ make_PROMOTION (sq 1 7) (sq 1 8) ROOK;
                          make_PROMOTION (sq 1 7) (sq 1 8) BISHOP;
                          make_PROMOTION (sq 1 7) (sq 1 8) KNIGHT;
                          make_move (sq 5 1) (sq 4 1); make_move (sq 5 1) (sq 6 1);
                          make_move (sq 5 1) (sq 4 2); make_move (sq 5 1) (sq 5 2);
                          make_move (sq 5 1) (sq 6 2) ])
    by reflexivity.
  split; [exact Hgen|].
  pose proof (promotion_pieces QUIETS pos_promotion _ Hgen) as H.
  rewrite Forall_forall in H.
  apply (H (make_PROMOTION (sq 1 7) (sq 1 8) ROOK) (or_introl eq_refl) _ _ _ eq_refl).
Defined.

(** ** Quiet checks give check *)

Lemma pawn_pushes_QUIET_CHECKS V Us pos target :
  Forall (fun m =>
            exists from to,
              m = make_move from to
              /\ Z.testbit (pieces_cp pos Us PAWN) from = true
              /\ (Z.testbit (blockers_for_king pos (Color_not Us)) from = true
                  \/ Z.testbit (attacks_from_PAWN pos (pawn_ksq V Us pos) (Color_not Us)) to
                     = true))
         (pawn_pushes V Us QUIET_CHECKS pos target).
Proof.
  unfold pawn_pushes, push_emptySquares. eval_tests. cbv iota.
  split_ifs; cbv iota;
    repeat (forall_walk; try (apply Forall_forall; intros ? ?));
    pawn_leaf; eexists; eexists; (split; [reflexivity|]); auto.
Qed.

Lemma generate_moves_Checks V Pt pos us target :
  bb_ok target ->
  Forall (fun m =>
            exists from to,
              m = make_move from to /\ In from (squares pos Pt us)
              /\ Z.testbit (check_squares pos Pt) to = true)
         (generate_moves V Pt true pos us target).
Proof.
  intros Hok. unfold generate_moves. apply Forall_flat_map, Forall_forall.
  intros from Hfrom. cbn [andb].
  destruct (_ || _); [constructor|].
  apply Forall_map, Forall_forall. intros to Hto. dest_leaf.
  exists from, to. auto.
Qed.

Lemma generate_drops_Checks Us Pt pos b :
  bb_ok b ->
  Forall (fun m =>
            exists to,
              m = make_drop to (make_piece Us Pt)
              /\ Z.testbit (check_squares pos Pt) to = true)
         (generate_drops Us Pt true pos b).
Proof.
  intros Hok. unfold generate_drops.
  destruct (nonzero (count_in_hand pos Pt Us)); [|constructor].
  apply Forall_map, Forall_forall. intros to Hto. exists to. split; [reflexivity|].
  revert Hto. split_ifs; intros Hto; dest_leaf; assumption.
Qed.

Lemma generate_all_king_QUIET_CHECKS V Us pos target :
  Forall (fun m =>
            exists from to,
              m = make_move from to
              /\ (V = ANTI_VARIANT \/ V = EXTINCTION_VARIANT \/ V = TWOKINGS_VARIANT)
              /\ In from (bb_squares (pieces_cp pos Us KING)))
         (generate_all_king V Us QUIET_CHECKS pos target).
Proof.
  assert (Hk : V = ANTI_VARIANT \/ V = EXTINCTION_VARIANT \/ V = TWOKINGS_VARIANT ->
               Forall (fun m =>
                  exists from to,
                    m = make_move from to
                    /\ (V = ANTI_VARIANT \/ V = EXTINCTION_VARIANT \/ V = TWOKINGS_VARIANT)
                    /\ In from (bb_squares (pieces_cp pos Us KING)))
                 (generate_king_moves V Us QUIET_CHECKS pos target)).
  { intros HV. unfold generate_king_moves. apply Forall_flat_map, Forall_forall.
    intros from Hfrom. apply Forall_map, Forall_forall. intros to _.
    exists from, to. auto. }
  unfold generate_all_king.
  destruct V; rewrite generate_all_castling_QUIET_CHECKS; eval_tests; cbv iota;
    repeat (apply Forall_app; split); try constructor;
    try (destruct (can_capture pos); constructor); apply Hk; auto.
Qed.

Lemma generate_all_QUIET_CHECKS_shape pos l :
  var pos <> ANTI_VARIANT -> var pos <> EXTINCTION_VARIANT ->
  generate_all (var pos) (side_to_move pos) QUIET_CHECKS pos (.~ pieces pos) = Some l ->
  Forall (quiet_check_shape pos) l.
Proof.
  intros Ha He Hgen.
  pose proof (generate_all_promotions _ _ _ _ _ _ Hgen) as Hpromo.
  assert (Hl : Forall (fun m => type_of m = PROMOTION \/ quiet_check_shape pos m) l).
  { eapply generate_all_Forall; [exact Hgen| | | |].
    - intros lp. unfold generate_pawn_moves.
      change (pawn_captures (var pos) (side_to_move pos) QUIET_CHECKS pos (.~ pieces pos))
        with (Some (@nil Move)).
      intros [= <-]. repeat (apply Forall_app; split); [| |constructor].
      + eapply Forall_impl; [|apply pawn_pushes_QUIET_CHECKS].
        intros m (from & to & -> & Hp & H). right. unfold quiet_check_shape.
        right. left. auto.
      + eapply Forall_impl; [|apply pawn_promotions_dest].
        intros m (from & to & pt & -> & _). left. reflexivity.
    - intros Pt HPt. change (GenType_eqb QUIET_CHECKS QUIET_CHECKS) with true.
      eapply Forall_impl; [|apply generate_moves_Checks; apply bb_ok_not].
      intros m (from & to & -> & Hf & Ht). right. unfold quiet_check_shape.
      right. right. left. exists Pt. auto.
    - unfold generate_all_drops.
      change (GenType_eqb QUIET_CHECKS QUIET_CHECKS) with true.
      destruct (_ && _ && _); [|constructor].
      eval_tests. cbv iota.
      repeat (apply Forall_app; split);
        try (destruct (is_placement pos) eqn:Hpl; [|constructor]);
        (eapply Forall_impl; [|apply generate_drops_Checks; destruct (is_placement pos);
                                auto 10 with bb]);
        intros m (to & -> & H); right; unfold quiet_check_shape; eexists; auto.
    - intros _. eapply Forall_impl; [|apply generate_all_king_QUIET_CHECKS].
      intros m (from & to & -> & [HV|[HV|HV]] & Hk); try contradiction.
      right. unfold quiet_check_shape. right. right. right. auto. }
  apply Forall_forall. intros m Hm.
  destruct (proj1 (Forall_forall _ _) Hl m Hm) as [H|H]; [|exact H].
  destruct m as [from to|from to pt|from to|from to|to pc]; try discriminate H.
  destruct (proj1 (Forall_forall _ _) Hpromo _ Hm from to pt eq_refl) as (_ & _ & H3 & _).
  exact (H3 eq_refl).
Qed.

(** X13.  The quiet checks give check: every move of [generate<QUIET_CHECKS>]
    starts at a blocker for the enemy king, or brings a piece (by a move or
    a drop) to a check square of its type, or a pawn to a square from which
    it attacks the enemy king, or promotes to a knight that attacks the
    enemy king; only the two-kings variant adds the moves of the kings.  No
    castling move and no en-passant capture is among them. *)
Theorem quiet_checks_give_check (pos : Position) (l : list Move) :
  generate QUIET_CHECKS pos = Some l ->
  Forall (quiet_check_shape pos) l.
Proof.
  intros Hgen.
  assert (Hv : l = [] \/ (var pos <> ANTI_VARIANT /\ var pos <> EXTINCTION_VARIANT)).
  { revert Hgen. cbn [generate]. unfold generate_QUIET_CHECKS, is_anti, is_extinction.
    destruct (Variant_eqb (var pos) ANTI_VARIANT) eqn:Ha; [intros [= <-]; auto|].
    destruct (Variant_eqb (var pos) EXTINCTION_VARIANT) eqn:He; [intros [= <-]; auto|].
    intros _. right. split; intros E; rewrite E in *; discriminate. }
  destruct Hv as [->|[Ha He]]; [constructor|].
  eapply generate_calls; [exact Hgen| |].
  - intros Ty' target la Hcall Hla.
    destruct Hcall as [(_ & [(_ & [H|[H|H]] & _)|[(H & _)|(_ & -> & ->)]])
                      |(_ & [H|H] & _)]; try discriminate H.
    apply generate_all_QUIET_CHECKS_shape; assumption.
  - intros m (from & to & -> & [(_ & _ & H & _)|([H|H] & _)]); try discriminate H.
    unfold quiet_check_shape. left. exact H.
Qed.

Lemma quiet_checks_give_check_witness :
  generate QUIET_CHECKS pos_discovery
  = Some [ make_move (sq 4 8) (sq 3 6); make_move (sq 4 8) (sq 5 6);
           make_move (sq 4 8) (sq 2 7); make_move (sq 4 8) (sq 6 7);
           make_move (sq 5 5) (sq 7 6); make_move (sq 5 5) (sq 6 7) ]
  /\ quiet_check_shape pos_discovery (make_move (sq 5 5) (sq 7 6)).
Proof.
  assert (Hgen : generate QUIET_CHECKS pos_discovery
                 = Some [ make_move (sq 4 8) (sq 3 6); make_move (sq 4 8) (sq 5 6);
                          make_move (sq 4 8) (sq 2 7); make_move (sq 4 8) (sq 6 7);
                          make_move (sq 5 5) (sq 7 6); make_move (sq 5 5) (sq 6 7) ])
    by reflexivity.
  split; [exact Hgen|].
  pose proof (quiet_checks_give_check pos_discovery _ Hgen) as H.
  rewrite Forall_forall in H.
  apply (H (make_move (sq 5 5) (sq 7 6))). do 4 right. left. reflexivity.
Defined.

(** ** Whose pieces move *)

Lemma generate_moves_from V Pt Checks pos us target :
  Forall (fun m => exists from to, m = make_move from to /\ In from (squares pos Pt us))
         (generate_moves V Pt Checks pos us target).
Proof.
  unfold generate_moves. apply Forall_flat_map, Forall_forall. intros from Hfrom.
  destruct (_ && _); [constructor|].
  apply Forall_map, Forall_forall. intros to _. exists from, to. auto.
Qed.

Lemma generate_all_king_from V Us Ty pos target :
  Forall (fun m =>
            (exists from to,
                m = make_move from to
                /\ (from = square_KING pos Us
                    \/ In from (bb_squares (pieces_cp pos Us KING))))
            \/ castling_shape Us pos m)
         (generate_all_king V Us Ty pos target).
Proof.
  assert (Hk : Forall (fun m =>
            (exists from to,
                m = make_move from to
                /\ (from = square_KING pos Us
                    \/ In from (bb_squares (pieces_cp pos Us KING))))
            \/ castling_shape Us pos m)
            (generate_king_moves V Us Ty pos target)).
  { unfold generate_king_moves. apply Forall_flat_map, Forall_forall.
    intros from Hfrom. apply Forall_map, Forall_forall. intros to _.
    left. exists from, to. auto. }
  assert (Hc : Forall (fun m =>
            (exists from to,
                m = make_move from to
                /\ (from = square_KING pos Us
                    \/ In from (bb_squares (pieces_cp pos Us KING))))
            \/ castling_shape Us pos m)
            (generate_all_castling V Us Ty pos)).
  { eapply Forall_impl; [|apply generate_all_castling_shape].
    intros m (_ & _ & _ & _ & H). right. exact H. }
  unfold generate_all_king.
  destruct V; repeat (apply Forall_app; split); try exact Hk; try exact Hc;
    try (destruct (can_capture pos); [constructor|exact Hc]);
    (destruct (negb _ && negb _) || destruct (negb _));
    try constructor; try exact Hk;
    apply Forall_map, Forall_forall; intros to _; left; eexists; eexists; auto.
Qed.

Lemma generate_all_own_origin Ty pos target l :
  generate_all (var pos) (side_to_move pos) Ty pos target = Some l ->
  Forall (own_origin pos) l.
Proof.
  intros Hgen. eapply generate_all_Forall; [exact Hgen| | | |].
  - intros lp Hp. apply generate_pawn_moves_origin in Hp. revert Hp.
    apply Forall_impl. intros m [Hf Hm].
    destruct m; unfold own_origin; cbn [from_sq] in Hf; auto;
      destruct Hm as [Hm|[Hm|Hm]]; discriminate Hm.
  - intros Pt HPt. eapply Forall_impl; [|apply generate_moves_from].
    intros m (from & to & -> & H). unfold own_origin. right. left. exists Pt. auto.
  - eapply Forall_impl; [|apply generate_all_drops_shape].
    intros m (_ & _ & (to & pt & -> & _) & _). exists pt. reflexivity.
  - intros _. eapply Forall_impl; [|apply generate_all_king_from].
    intros m [(from & to & -> & [H|H])|(cr & from & _ & _ & _ & _ & H & ->)];
      unfold own_origin; auto.
Qed.

(** X14.  Only the pieces of the side to move are moved: every generated move
    starts at one of its pawns, at a square of one of its piece lists, at a
    square of its king, or at one of its blockers for the enemy king; and
    every drop is of a piece of its colour. *)
Theorem moves_of_own_pieces (Ty : GenType) (pos : Position) (l : list Move) :
  generate Ty pos = Some l -> Forall (own_origin pos) l.
Proof.
  intros Hgen. eapply generate_calls; [exact Hgen| |].
  - intros Ty' target la _ Hla. exact (generate_all_own_origin _ _ _ _ Hla).
  - intros m (from & to & -> & [(_ & _ & H & _)|(_ & _ & H & _)]); unfold own_origin.
    + do 4 right. exact H.
    + destruct (is_two_kings pos); auto.
Qed.

Lemma moves_of_own_pieces_witness :
  generate EVASIONS pos_ep_check
  = Some [ make_move (sq 4 4) (sq 3 3); make_move (sq 4 4) (sq 4 3);
           make_move (sq 4 4) (sq 5 3); make_move (sq 4 4) (sq 3 4);
           make_move (sq 4 4) (sq 5 4); make_move (sq 4 4) (sq 3 5);
           make_move (sq 4 4) (sq 4 5); make_move (sq 4 4) (sq 5 5);
           make_ENPASSANT (sq 2 5) (sq 3 6) ]
  /\ Z.testbit (pieces_cp pos_ep_check WHITE PAWN) (sq 2 5) = true.
Proof.
  assert (Hgen : generate EVASIONS pos_ep_check
                 = Some [ make_move (sq 4 4) (sq 3 3); make_move (sq 4 4) (sq 4 3);
                          make_move (sq 4 4) (sq 5 3); make_move (sq 4 4) (sq 3 4);
                          make_move (sq 4 4) (sq 5 4); make_move (sq 4 4) (sq 3 5);
                          make_move (sq 4 4) (sq 4 5); make_move (sq 4 4) (sq 5 5);
                          make_ENPASSANT (sq 2 5) (sq 3 6) ])
    by reflexivity.
  split; [exact Hgen|].
  pose proof (moves_of_own_pieces EVASIONS pos_ep_check _ Hgen) as H.
  rewrite Forall_forall in H.
  apply (H (make_ENPASSANT (sq 2 5) (sq 3 6))). do 8 right. left. reflexivity.
Defined.

(** ** Promotions come in full sets *)

Lemma make_promotions_complete V Ty D to ksq m pt :
  Ty = EVASIONS \/ Ty = NON_EVASIONS ->
  In m (make_promotions V Ty D to ksq) ->
  In pt [QUEEN; ROOK; BISHOP; KNIGHT] ->
  In (make_PROMOTION (to - D) to pt) (make_promotions V Ty D to ksq).
Proof.
  intros HTy Hm Hpt. revert Hm. unfold make_promotions.
  destruct HTy as [->| ->]; destruct V; eval_tests; cbv iota; cbn [app];
    intros Hm; (solve [destruct Hm] || clear Hm); cbn [In] in Hpt;
    destruct Hpt as [<-|[<-|[<-|[<-|[]]]]]; cbn [In]; auto 10;
    repeat (try (left; reflexivity); right).
Qed.

Lemma pawn_promotions_complete V Us Ty pos target from to pt pt' :
  Ty = EVASIONS \/ Ty = NON_EVASIONS ->
  In (make_PROMOTION from to pt) (pawn_promotions V Us Ty pos target) ->
  In pt' [QUEEN; ROOK; BISHOP; KNIGHT] ->
  In (make_PROMOTION from to pt') (pawn_promotions V Us Ty pos target).
Proof.
  intros HTy Hm Hpt. revert Hm. unfold pawn_promotions.
  destruct (nonzero (pawnsOn7 Us pos)); [|intros []].
  set (ksq := pawn_ksq V Us pos).
  assert (Hone : forall D b,
             In (make_PROMOTION from to pt)
                (flat_map (fun to => make_promotions V Ty D to ksq) (bb_squares b)) ->
             In (make_PROMOTION from to pt')
                (flat_map (fun to => make_promotions V Ty D to ksq) (bb_squares b))).
  { intros D b H. apply in_flat_map in H as (to' & Hto & H).
    apply in_flat_map. exists to'. split; [exact Hto|].
    pose proof (proj1 (Forall_forall _ _) (make_promotions_from V Ty D to' ksq) _ H)
      as (pt0 & [= -> -> _]).
    exact (make_promotions_complete V Ty D to' ksq _ pt' HTy H Hpt). }
  intros H. apply in_app_or in H as [H|H]; [apply in_or_app; left; apply Hone, H|].
  apply in_or_app; right.
  apply in_app_or in H as [H|H]; apply in_or_app; [left|right]; apply Hone, H.
Qed.

(** X15.  Among the non-evasions the promotions of a pawn to a square come in
    full sets: with one of them the promotions to a queen, a rook, a bishop
    and a knight are all generated. *)
Theorem promotions_come_in_full_sets (pos : Position) (l : list Move)
    (from to : Square) (pt pt' : PieceType) :
  generate NON_EVASIONS pos = Some l ->
  In (make_PROMOTION from to pt) l ->
  In pt' [QUEEN; ROOK; BISHOP; KNIGHT] ->
  In (make_PROMOTION from to pt') l.
Proof.
  intros Hgen Hm Hpt.
  assert (Hc : checkers pos = 0).
  { cbn in Hgen. unfold generate_noncheck in Hgen.
    destruct (nonzero (checkers pos)) eqn:E; [discriminate|]. apply nonzero_false, E. }
  cbn [generate] in Hgen. rewrite generate_noncheck_target in Hgen by exact Hc.
  revert Hgen Hm. generalize (noncheck_target NON_EVASIONS pos). intros target.
  unfold generate_all, generate_pawn_moves.
  set (rest := generate_all_drops _ _ _ _ _ ++ _).
  assert (Hrest : ~ In (make_PROMOTION from to pt) rest).
  { subst rest. intros H. apply in_app_or in H as [H|H].
    - pose proof (proj1 (Forall_forall _ _) (generate_all_drops_shape _ _ _ _ _) _ H)
        as (_ & _ & (t & p & E & _) & _). discriminate E.
    - destruct (is_horde pos && _); [destruct H|].
      pose proof (proj1 (Forall_forall _ _) (generate_all_king_kinds _ _ _ _ _) _ H)
        as [E|E]; discriminate E. }
  clearbody rest.
  destruct (_ && _ && _).
  { intros [= <-] H. contradiction. }
  destruct (pawn_captures _ _ _ _ _) as [caps|] eqn:Hcaps; [|discriminate].
  intros [= <-] H.
  repeat (apply in_app_or in H; destruct H as [H|H]);
    try contradiction;
    lazymatch type of H with
    | In _ (pawn_pushes _ _ _ _ _) =>
        pose proof (proj1 (Forall_forall _ _) (pawn_pushes_dest _ _ _ _ _) _ H)
          as (f & t & E & _); discriminate E
    | In _ (generate_moves _ _ _ _ _ _) =>
        pose proof (proj1 (Forall_forall _ _) (generate_moves_NORMAL _ _ _ _ _ _) _ H)
          as E; discriminate E
    | In _ (pawn_promotions _ _ _ _ _) => idtac
    | In _ caps =>
        pose proof (proj1 (Forall_forall _ _) (pawn_captures_dest _ _ _ _ _ _ Hcaps) _ H)
          as [(f & t & E & _)|E]; discriminate E
    end.
  apply in_or_app. left. apply in_or_app. left. apply in_or_app. right.
  apply in_or_app. left.
  exact (pawn_promotions_complete _ _ _ _ _ _ _ _ _ (or_intror eq_refl) H Hpt).
Qed.

Lemma promotions_come_in_full_sets_witness :
  generate NON_EVASIONS pos_promotion
  = Some [ make_PROMOTION (sq 1 7) (sq 1 8) QUEEN;
           make_PROMOTION (sq 1 7) (sq 1 8) ROOK;
           make_PROMOTION (sq 1 7) (sq 1 8) BISHOP;
           make_PROMOTION (sq 1 7) (sq 1 8) KNIGHT;
           make_move (sq 5 1) (sq 4 1); make_move (sq 5 1) (sq 6 1);
           make_move (sq 5 1) (sq 4 2); make_move (sq 5 1) (sq 5 2);
           make_move (sq 5 1) (sq 6 2) ]
  /\ In (make_PROMOTION (sq 1 7) (sq 1 8) KNIGHT)
        [ make_PROMOTION (sq 1 7) (sq 1 8) QUEEN;
          make_PROMOTION (sq 1 7) (sq 1 8) ROOK;
          make_PROMOTION (sq 1 7) (sq 1 8) BISHOP;
          make_PROMOTION (sq 1 7) (sq 1 8) KNIGHT;
          make_move (sq 5 1) (sq 4 1); make_move (sq 5 1) (sq 6 1);
          make_move (sq 5 1) (sq 4 2); make_move (sq 5 1) (sq 5 2);
          make_move (sq 5 1) (sq 6 2) ].
Proof.
  split; [reflexivity|].
  apply (promotions_come_in_full_sets pos_promotion _ (sq 1 7) (sq 1 8) QUEEN KNIGHT eq_refl).
  - left. reflexivity.
  - do 3 right. left. reflexivity.
Defined.

(** ** The order of the legal moves *)

Lemma legal_loop_prefix (pos : Position) (pre rest : list Move) :
  Forall (fun m => legal_rejects pos m = false) pre ->
  legal_loop (List.length (pre ++ rest)) pos (pre ++ rest)
  = pre ++ legal_loop (List.length rest) pos rest.
Proof.
  induction pre as [|m pre IH]; intros H; [reflexivity|].
  inversion H as [|m' pre' Hm Hpre]; subst.
  cbn [app List.length legal_loop]. rewrite Hm, IH by exact Hpre. reflexivity.
Qed.

Lemma legal_not_rejected (pos : Position) (m : Move) :
  legal pos m = true -> legal_rejects pos m = false.
Proof.
  intros H. unfold legal_rejects. rewrite H. cbn [negb].
  rewrite !andb_false_r. reflexivity.
Qed.

(** X16.  Before the end of the variant, [generate<LEGAL>] keeps the order of
    the candidates up to the first move that it removes: candidates that
    [pos.legal] accepts, at the head of the list, stay where they are; when
    it accepts all of them the list comes back unchanged. *)
Theorem generate_LEGAL_keeps_prefix (pos : Position) (pre rest : list Move) :
  is_variant_end pos = false ->
  (if nonzero (checkers pos) then generate EVASIONS pos
   else generate NON_EVASIONS pos) = Some (pre ++ rest) ->
  Forall (fun m => legal pos m = true) pre ->
  exists out,
    generate LEGAL pos = Some (pre ++ out)
    /\ (rest = [] -> out = []).
Proof.
  intros Hend Hgen Hpre.
  exists (legal_loop (List.length rest) pos rest). split.
  - cbn [generate] in *. unfold generate_LEGAL. rewrite Hend.
    assert (Hc : (if nonzero (checkers pos) then generate_EVASIONS pos
                  else generate_noncheck NON_EVASIONS pos) = Some (pre ++ rest))
      by (destruct (nonzero (checkers pos)); exact Hgen).
    rewrite Hc. f_equal. apply legal_loop_prefix.
    revert Hpre. apply Forall_impl. intros m. apply legal_not_rejected.
  - intros ->. reflexivity.
Qed.

Lemma generate_LEGAL_keeps_prefix_witness :
  is_variant_end pos_promotion = false
  /\ generate LEGAL pos_promotion
     = Some [ make_PROMOTION (sq 1 7) (sq 1 8) QUEEN;
              make_PROMOTION (sq 1 7) (sq 1 8) ROOK;
              make_PROMOTION (sq 1 7) (sq 1 8) BISHOP;
              make_PROMOTION (sq 1 7) (sq 1 8) KNIGHT;
              make_move (sq 5 1) (sq 4 1); make_move (sq 5 1) (sq 6 1);
              make_move (sq 5 1) (sq 4 2); make_move (sq 5 1) (sq 5 2);
              make_move (sq 5 1) (sq 6 2) ].
Proof.
  split; [reflexivity|].
  destruct (generate_LEGAL_keeps_prefix pos_promotion
              [ make_PROMOTION (sq 1 7) (sq 1 8) QUEEN;
                make_PROMOTION (sq 1 7) (sq 1 8) ROOK;
                make_PROMOTION (sq 1 7) (sq 1 8) BISHOP;
                make_PROMOTION (sq 1 7) (sq 1 8) KNIGHT;
                make_move (sq 5 1) (sq 4 1); make_move (sq 5 1) (sq 6 1);
                make_move (sq 5 1) (sq 4 2); make_move (sq 5 1) (sq 5 2);
                make_move (sq 5 1) (sq 6 2) ] [] eq_refl eq_refl)
    as (out & Hout & Hnil).
  - repeat constructor.
  - rewrite Hout, (Hnil eq_refl). reflexivity.
Defined.

(** ** Losers chess *)

(** X17.  In losers chess, when the side to move can capture it must: every
    generated move lands on an enemy piece or is an en-passant capture. *)
Theorem losers_mandatory_captures (Ty : GenType) (pos : Position) (l : list Move) :
  wf_position pos ->
  var pos = LOSERS_VARIANT -> can_capture_losers pos = true ->
  generate Ty pos = Some l ->
  Forall (fun m =>
            type_of m = ENPASSANT
            \/ Z.testbit (pieces_c pos (Color_not (side_to_move pos))) (to_sq m) = true) l.
Proof.
  intros Hwf Hv Hcc Hgen.
  assert (Hlo : is_losers pos && can_capture_losers pos = true)
    by (unfold is_losers; rewrite Hv, Hcc; reflexivity).
  assert (Hthem : bb_ok (pieces_c pos (Color_not (side_to_move pos))))
    by (apply wf_bb_ok, Hwf).
  assert (HQC : Ty = QUIET_CHECKS -> l = []).
  { intros ->. revert Hgen. cbn [generate]. unfold generate_QUIET_CHECKS.
    rewrite Hlo. unfold is_anti, is_extinction, is_horde. rewrite Hv. eval_tests. cbv iota.
    intros [= <-]. reflexivity. }
  destruct (GenType_eq_dec Ty QUIET_CHECKS) as [E|HTy]; [rewrite (HQC E); constructor|].
  clear HQC. eapply generate_calls; [exact Hgen| |].
  - intros Ty' target la Hcall Hla.
    assert (Ht : bb_ok target
                 /\ forall i, Z.testbit target i = true ->
                      Z.testbit (pieces_c pos (Color_not (side_to_move pos))) i = true).
    { destruct Hcall as [(_ & [(_ & HT & ->)|[(_ & _ & ->)|(HT & _)]])
                        |(_ & _ & [(_ & _ & ->)|(_ & Ha & _)])];
        [destruct HT as [->|[->| ->]]| |contradiction| |congruence];
        unfold noncheck_target, evasions_target; rewrite ?Hlo, ?Hv, ?Hcc;
        eval_tests; cbv iota;
        (split; [auto with bb|intros i H; bits_split; assumption]). }
    destruct Ht as [Hok Hsub].
    pose proof (generate_all_dest _ _ _ _ _ _ Hok Hla) as Hd.
    pose proof (generate_all_castling_moves _ _ _ _ _ _ Hla) as Hcas.
    pose proof (generate_all_drop_moves _ _ _ _ _ _ Hla) as Hdrop.
    apply Forall_forall. intros m Hm.
    pose proof (proj1 (Forall_forall _ _) Hd m Hm) as H1.
    pose proof (proj1 (Forall_forall _ _) Hcas m Hm) as H2.
    pose proof (proj1 (Forall_forall _ _) Hdrop m Hm) as H3.
    clear Hd Hcas Hdrop Hla Hcall. rewrite Hv in H1.
    destruct m as [from to|from to pt|from to|from to|to pc];
      cbn [type_of to_sq lands_by_emitter] in *; auto.
    + right. destruct H1 as [H|[(_ & _ & H)|[(_ & H)|(H & _)]]];
        [auto|auto| |discriminate H].
      revert H. unfold pawn_enemies. eval_tests. cbv iota.
      split_ifs; intros H; bits_split; auto.
    + right. destruct H1 as [H|H]; revert H;
        unfold pawn_enemies, promo_emptySquares, push_emptySquares; eval_tests; cbv iota;
        split_ifs; intros H; bits_split; auto.
    + destruct (H2 eq_refl) as (_ & _ & _ & H & _). rewrite (H Hv) in Hcc. discriminate Hcc.
    + destruct (H3 eq_refl) as (H & _). rewrite Hv in H. discriminate H.
  - intros m (from & to & -> & [(H & _)|(_ & _ & _ & _ & _ & H)]); [contradiction|].
    right. exact (H Hlo).
Qed.

Lemma losers_mandatory_captures_witness :
  wf_position pos_losers_capture
  /\ generate NON_EVASIONS pos_losers_capture
     = Some [ make_move (sq 3 4) (sq 4 2); make_move (sq 5 1) (sq 4 2) ]
  /\ Z.testbit (pieces_c pos_losers_capture BLACK) (sq 4 2) = true.
Proof.
  assert (Hwf : wf_position pos_losers_capture) by (repeat split; reflexivity).
  assert (Hgen : generate NON_EVASIONS pos_losers_capture
                 = Some [ make_move (sq 3 4) (sq 4 2); make_move (sq 5 1) (sq 4 2) ])
    by reflexivity.
  split; [exact Hwf|]. split; [exact Hgen|].
  pose proof (losers_mandatory_captures NON_EVASIONS pos_losers_capture _
                Hwf eq_refl eq_refl Hgen) as H.
  rewrite Forall_forall in H.
  destruct (H (make_move (sq 3 4) (sq 4 2)) (or_introl eq_refl)) as [Hk|Hk].
  - discriminate Hk.
  - exact Hk.
Defined.

(** ** Placement *)

Lemma bb_ok_DarkSquares : bb_ok DarkSquares.
Proof. reflexivity. Qed.

Lemma generate_drops_bishop Us Checks pos b :
  is_placement pos = true ->
  Forall (fun m =>
            exists to,
              m = make_drop to (make_piece Us BISHOP)
              /\ (nonzero (pieces_cp pos Us BISHOP .& DarkSquares) = true ->
                  Z.testbit DarkSquares to = false)
              /\ (nonzero (pieces_cp pos Us BISHOP .& .~ DarkSquares) = true ->
                  Z.testbit DarkSquares to = true))
         (generate_drops Us BISHOP Checks pos b).
Proof.
  intros Hpl. unfold generate_drops. rewrite Hpl.
  destruct (nonzero (count_in_hand pos BISHOP Us)) eqn:Hh; [|constructor].
  cbn [andb]. change (PieceType_eqb BISHOP BISHOP) with true. cbv iota.
  pose proof bb_ok_DarkSquares as Hd.
  apply Forall_map, Forall_forall. intros to Hto. exists to. split; [reflexivity|].
  revert Hto.
  destruct (nonzero (pieces_cp pos Us BISHOP .& DarkSquares));
    destruct (nonzero (pieces_cp pos Us BISHOP .& .~ DarkSquares));
    destruct Checks; intros Hto;
    try (split; intros E; discriminate E);
    (apply In_bb_squares in Hto; [|solve [auto 10 with bb]]);
    bits_split; split; intros E; first [discriminate E | congruence].
Qed.

Lemma generate_all_drops_bishop V Us Ty pos target :
  is_placement pos = true ->
  Forall (fun m =>
            forall to,
              m = make_drop to (make_piece Us BISHOP) ->
              (nonzero (pieces_cp pos Us BISHOP .& DarkSquares) = true ->
               Z.testbit DarkSquares to = false)
              /\ (nonzero (pieces_cp pos Us BISHOP .& .~ DarkSquares) = true ->
                  Z.testbit DarkSquares to = true))
         (generate_all_drops V Us Ty pos target).
Proof.
  intros Hpl. unfold generate_all_drops. rewrite Hpl.
  destruct (_ && _ && _); [|constructor].
  repeat (apply Forall_app; split);
    try (eapply Forall_impl; [|apply generate_drops_hand];
         intros m (t & -> & _) to [= _ E]; discriminate E).
  eapply Forall_impl; [|apply generate_drops_bishop; exact Hpl].
  intros m (t & -> & H) to [= <-]. exact H.
Qed.

(** X18.  During placement the bishops go to squares of opposite colours: with
    a bishop of the side to move on a dark square no bishop is dropped on a
    dark square, and with one on a light square none on a light square. *)
Theorem placement_bishops_on_opposite_colours (Ty : GenType) (pos : Position)
    (l : list Move) :
  is_placement pos = true ->
  generate Ty pos = Some l ->
  Forall (fun m =>
            forall to,
              m = make_drop to (make_piece (side_to_move pos) BISHOP) ->
              (nonzero (pieces_cp pos (side_to_move pos) BISHOP .& DarkSquares) = true ->
               Z.testbit DarkSquares to = false)
              /\ (nonzero (pieces_cp pos (side_to_move pos) BISHOP .& .~ DarkSquares)
                  = true ->
                  Z.testbit DarkSquares to = true)) l.
Proof.
  intros Hpl Hgen. eapply generate_Forall; [exact Hgen| |].
  - intros Ty' target la _ Hla.
    eapply generate_all_Forall; [exact Hla| | | |].
    + intros lp Hp. apply generate_pawn_moves_origin in Hp. revert Hp.
      apply Forall_impl. intros m [_ Hm] to E. rewrite E in Hm.
      destruct Hm as [Hm|[Hm|Hm]]; discriminate Hm.
    + intros Pt HPt. eapply Forall_impl; [|apply generate_moves_NORMAL].
      intros m Hm to E. rewrite E in Hm. discriminate Hm.
    + apply generate_all_drops_bishop, Hpl.
    + intros _. eapply Forall_impl; [|apply generate_all_king_kinds].
      intros m Hm to E. rewrite E in Hm. destruct Hm as [Hm|Hm]; discriminate Hm.
  - intros from to t E. discriminate E.
Qed.

Lemma placement_bishops_on_opposite_colours_witness :
  is_placement pos_placement = true
  /\ generate QUIETS pos_placement
     = Some [ make_drop (sq 2 1) (make_piece WHITE BISHOP);
              make_drop (sq 4 1) (make_piece WHITE BISHOP);
              make_drop (sq 6 1) (make_piece WHITE BISHOP);
              make_drop (sq 8 1) (make_piece WHITE BISHOP);
              make_move (sq 5 1) (sq 4 1); make_move (sq 5 1) (sq 6 1);
              make_move (sq 5 1) (sq 4 2); make_move (sq 5 1) (sq 5 2);
              make_move (sq 5 1) (sq 6 2) ]
  /\ Z.testbit DarkSquares (sq 2 1) = false.
Proof.
  assert (Hgen : generate QUIETS pos_placement
                 = Some [ make_drop (sq 2 1) (make_piece WHITE BISHOP);
                          make_drop (sq 4 1) (make_piece WHITE BISHOP);
                          make_drop (sq 6 1) (make_piece WHITE BISHOP);
                          make_drop (sq 8 1) (make_piece WHITE BISHOP);
                          make_move (sq 5 1) (sq 4 1); make_move (sq 5 1) (sq 6 1);
                          make_move (sq 5 1) (sq 4 2); make_move (sq 5 1) (sq 5 2);
                          make_move (sq 5 1) (sq 6 2) ])
    by reflexivity.
  split; [reflexivity|]. split; [exact Hgen|].
  pose proof (placement_bishops_on_opposite_colours QUIETS pos_placement _ eq_refl Hgen) as H.
  rewrite Forall_forall in H.
  apply (H (make_drop (sq 2 1) (make_piece WHITE BISHOP)) (or_introl eq_refl) _ eq_refl).
  reflexivity.
Defined.
